(** * ozz-animation: the runtime skeleton (src/animation/runtime/skeleton.cc)

    A shallow embedding of [Skeleton::Allocate], [Skeleton::Deallocate],
    [Skeleton::Save] and [Skeleton::Load] over a byte-addressed heap, an
    aligned allocation service and a byte-stream archive, followed by the
    properties of the packed buffer layout and of the binary codec. *)

From Stdlib Require Import ZArith List Lia Bool.
Import ListNotations.
Open Scope Z_scope.

(** ** The platform: sizes and alignments the source takes from its headers *)

(** [sizeof(math::SoaTransform)], [OZZ_ALIGN_OF(math::SoaTransform)], and
    the size and the alignment of a pointer (to [char] or to a [char]
    pointer alike) come from headers and from the target: they are
    parameters of the development. [size_t] is as wide as a pointer. *)
Class Platform := {
  sizeof_SoaTransform : Z;
  alignof_SoaTransform : Z;
  sizeof_ptr : Z;
  alignof_ptr : Z
}.

Definition sizeof_int16 : Z := 2.
Definition alignof_int16 : Z := 2.
Definition sizeof_char : Z := 1.
Definition alignof_char : Z := 1.
Definition NULL : Z := 0.

Definition pow2 (a : Z) : Prop := exists k, 0 <= k /\ a = 2 ^ k.

(** What C++ guarantees of such a platform: alignments are powers of two, a
    size is a multiple of its alignment, [size_t] has at least the 32 bits
    of the two [int32_t] fields of a record, and the [OZZ_STATIC_ASSERT] at
    the top of [Skeleton::Allocate] compiles. *)
Class PlatformOk (P : Platform) : Prop := {
  ptr_wide : 4 <= sizeof_ptr;
  block_size_pos : 0 < sizeof_SoaTransform;
  block_align_pow2 : pow2 alignof_SoaTransform;
  ptr_align_pow2 : pow2 alignof_ptr;
  block_size_aligned : (alignof_SoaTransform | sizeof_SoaTransform);
  ptr_size_aligned : (alignof_ptr | sizeof_ptr);
  OZZ_STATIC_ASSERT :
    alignof_SoaTransform >= alignof_ptr /\
    alignof_ptr >= alignof_int16 /\
    alignof_int16 >= alignof_char
}.

(** The usual 64-bit target: 16-byte aligned SoA transforms of 160 bytes. *)
#[export] Instance LP64 : Platform := {|
  sizeof_SoaTransform := 160;
  alignof_SoaTransform := 16;
  sizeof_ptr := 8;
  alignof_ptr := 8
|}.

(** ** Machine integers *)

(** [SIZE_MAX + 1]. *)
Definition SIZE_MOD {P : Platform} : Z := 2 ^ (8 * sizeof_ptr).

(** Conversion to [size_t], and [size_t] arithmetic. *)
Definition to_size_t {P : Platform} (z : Z) : Z := z mod SIZE_MOD.

(** [static_cast<int32_t>] and [static_cast<int16_t>]. *)
Definition to_int32 (z : Z) : Z := (z + 2 ^ 31) mod 2 ^ 32 - 2 ^ 31.

Definition to_int16 (z : Z) : Z := (z + 2 ^ 15) mod 2 ^ 16 - 2 ^ 15.

(** Little-endian images of integers in memory and in the archive. *)
Fixpoint le_encode (n : nat) (v : Z) : list Z :=
  match n with
  | O => []
  | S k => v mod 256 :: le_encode k (v / 256)
  end.

Fixpoint le_decode (bs : list Z) : Z :=
  match bs with
  | [] => 0
  | b :: r => b + 256 * le_decode r
  end.

Definition len {A} (l : list A) : Z := Z.of_nat (length l).

Definition seqZ (p n : Z) : list Z :=
  map (fun i => p + Z.of_nat i) (seq 0 (Z.to_nat n)).

(** ** The heap: allocated blocks of bytes at their base addresses *)

(** A block is the content of one allocation. An access must fall inside one
    block; anything else, a read past the end of a block among them, is a
    fault. *)

Definition Heap := list (Z * list Z).

Definition in_block (base : Z) (bs : list Z) (p : Z) : bool :=
  (base <=? p) && (p <? base + len bs).

Definition slice (bs : list Z) (off n : Z) : list Z :=
  firstn (Z.to_nat n) (skipn (Z.to_nat off) bs).

Definition splice (bs : list Z) (off : Z) (new : list Z) : list Z :=
  firstn (Z.to_nat off) bs ++ new ++ skipn (Z.to_nat off + length new) bs.

(** Reading [n] bytes at [p]: the access must stay inside one block. *)
Fixpoint heap_read (h : Heap) (p n : Z) : option (list Z) :=
  match h with
  | [] => None
  | (base, bs) :: h' =>
      if in_block base bs p then
        if (0 <=? n) && (p + n <=? base + len bs)
        then Some (slice bs (p - base) n) else None
      else heap_read h' p n
  end.

Fixpoint heap_write (h : Heap) (p : Z) (new : list Z) : option Heap :=
  match h with
  | [] => None
  | (base, bs) :: h' =>
      if in_block base bs p then
        if p + len new <=? base + len bs
        then Some ((base, splice bs (p - base) new) :: h') else None
      else option_map (cons (base, bs)) (heap_write h' p new)
  end.

(** [std::strlen] over a byte list: whether a terminator was met, and the
    number of non-null bytes before it (or before the end of the list). *)
Fixpoint scan_terminator (bs : list Z) : bool * Z :=
  match bs with
  | [] => (false, 0)
  | b :: r =>
      if b =? 0 then (true, 0)
      else let '(found, n) := scan_terminator r in (found, n + 1)
  end.

Fixpoint heap_strlen (h : Heap) (p : Z) : bool * Z :=
  match h with
  | [] => (false, 0)
  | (base, bs) :: h' =>
      if in_block base bs p
      then scan_terminator (skipn (Z.to_nat (p - base)) bs)
      else heap_strlen h' p
  end.

(** ** The store and the world around it *)

(** Modelled from the spec: [ozz::Range<T>] (ozz/base/platform.h), a pair of
    pointers [begin]/[end] delimiting a region view; [Clear] makes it empty,
    [size] is its extent in bytes and [count] its number of elements. *)
Record Range := { begin : Z; end_ : Z }.

Definition Range_Clear : Range := {| begin := NULL; end_ := NULL |}.

Definition Range_size (r : Range) : Z :=
  let size := end_ r - begin r in if size >? 0 then size else 0.

Definition Range_count (sizeof_T : Z) (r : Range) : Z :=
  let count := (end_ r - begin r) / sizeof_T in if count >? 0 then count else 0.

Record Skeleton := {
  joint_bind_poses_ : Range;
  joint_names_ : Range;
  joint_parents_ : Range
}.

Definition Skeleton_empty : Skeleton :=
  {| joint_bind_poses_ := Range_Clear;
     joint_names_ := Range_Clear;
     joint_parents_ := Range_Clear |}.

(** Calls received by the allocation service. *)
Inductive AllocCall :=
| CallAllocate (size alignment : Z)
| CallDeallocate (block : Z).

(** The [assert]s of [Skeleton::Allocate]. *)
Inductive Assertion :=
| assert_store_empty
| assert_bind_poses_aligned
| assert_names_aligned
| assert_parents_aligned.

Inductive Failure :=
| AssertFailed (a : Assertion)
| StreamError
| MemFault.

Inductive Outcome (A : Type) :=
| Ok (a : A)
| Fail (f : Failure).
Arguments Ok {A} a.
Arguments Fail {A} f.

(** Everything a member function of [Skeleton] can touch: the object's three
    region views, the heap, the allocation service (a bump pointer [brk], the
    content [fresh] it hands out, and the calls it received), the error log,
    the addresses [std::strlen] examined, and the two archives. *)
Record World := {
  skeleton : Skeleton;
  heap : Heap;
  brk : Z;
  fresh : Z -> Z;
  alloc_calls : list AllocCall;
  log_Err : list Z;
  examined : list Z;
  iarchive : list Z;
  oarchive : list Z
}.

Definition with_skeleton (s : Skeleton) (w : World) : World :=
  {| skeleton := s; heap := heap w; brk := brk w; fresh := fresh w;
     alloc_calls := alloc_calls w; log_Err := log_Err w;
     examined := examined w; iarchive := iarchive w; oarchive := oarchive w |}.

Definition with_heap (h : Heap) (w : World) : World :=
  {| skeleton := skeleton w; heap := h; brk := brk w; fresh := fresh w;
     alloc_calls := alloc_calls w; log_Err := log_Err w;
     examined := examined w; iarchive := iarchive w; oarchive := oarchive w |}.

Definition with_brk (b : Z) (w : World) : World :=
  {| skeleton := skeleton w; heap := heap w; brk := b; fresh := fresh w;
     alloc_calls := alloc_calls w; log_Err := log_Err w;
     examined := examined w; iarchive := iarchive w; oarchive := oarchive w |}.

Definition with_alloc_calls (c : list AllocCall) (w : World) : World :=
  {| skeleton := skeleton w; heap := heap w; brk := brk w; fresh := fresh w;
     alloc_calls := c; log_Err := log_Err w;
     examined := examined w; iarchive := iarchive w; oarchive := oarchive w |}.

Definition with_log_Err (l : list Z) (w : World) : World :=
  {| skeleton := skeleton w; heap := heap w; brk := brk w; fresh := fresh w;
     alloc_calls := alloc_calls w; log_Err := l;
     examined := examined w; iarchive := iarchive w; oarchive := oarchive w |}.

Definition with_examined (e : list Z) (w : World) : World :=
  {| skeleton := skeleton w; heap := heap w; brk := brk w; fresh := fresh w;
     alloc_calls := alloc_calls w; log_Err := log_Err w;
     examined := e; iarchive := iarchive w; oarchive := oarchive w |}.

Definition with_iarchive (a : list Z) (w : World) : World :=
  {| skeleton := skeleton w; heap := heap w; brk := brk w; fresh := fresh w;
     alloc_calls := alloc_calls w; log_Err := log_Err w;
     examined := examined w; iarchive := a; oarchive := oarchive w |}.

Definition with_oarchive (a : list Z) (w : World) : World :=
  {| skeleton := skeleton w; heap := heap w; brk := brk w; fresh := fresh w;
     alloc_calls := alloc_calls w; log_Err := log_Err w;
     examined := examined w; iarchive := iarchive w; oarchive := a |}.

(** ** The state-and-failure monad of member functions *)

Definition M (A : Type) : Type := World -> Outcome A * World.

Definition ret {A} (a : A) : M A := fun w => (Ok a, w).

Definition bind {A B} (m : M A) (k : A -> M B) : M B :=
  fun w =>
    match m w with
    | (Ok a, w') => k a w'
    | (Fail f, w') => (Fail f, w')
    end.

Definition fail {A} (f : Failure) : M A := fun w => (Fail f, w).

Declare Scope skel_scope.
Delimit Scope skel_scope with skel.
Notation "x <- m ;; k" := (bind m (fun x => k))
  (at level 61, m at next level, right associativity) : skel_scope.
Notation "m ;; k" := (bind m (fun _ => k))
  (at level 61, right associativity) : skel_scope.
Open Scope skel_scope.

Definition get_skeleton : M Skeleton := fun w => (Ok (skeleton w), w).

Definition modify_skeleton (f : Skeleton -> Skeleton) : M unit :=
  fun w => (Ok tt, with_skeleton (f (skeleton w)) w).

Definition assert_ (a : Assertion) (cond : bool) : M unit :=
  if cond then ret tt else fail (AssertFailed a).

(** A [for] loop of [n] iterations from index [i], threading a value. *)
Fixpoint for_ {A} (n : nat) (i : Z) (body : Z -> A -> M A) (a : A) : M A :=
  match n with
  | O => ret a
  | S k => a' <- body i a ;; for_ k (i + 1) body a'
  end.

(** ** The collaborators *)

(** The first multiple of [a] from [p] on, and the bytes a fresh block holds. *)
Definition align_up (p a : Z) : Z := (p + a - 1) / a * a.

Definition fresh_bytes (w : World) (p size : Z) : list Z :=
  map (fresh w) (seqZ p size).

(** Modelled from the spec: the aligned allocation service
    ([memory::default_allocator()], ozz/base/memory/allocator.h),
    [allocate(size, alignment) -> pointer]. It is a bump allocator over the
    address space: a request is served at the next address with the asked
    alignment, with whatever bytes [fresh] holds there, and is answered
    [NULL] when the address space is exhausted. Every call is recorded. *)
Definition allocator_Allocate {P : Platform} (size alignment : Z) : M Z :=
  fun w =>
    let p := align_up (brk w) alignment in
    let w1 :=
      with_alloc_calls (alloc_calls w ++ [CallAllocate size alignment]) w in
    if (0 <? p) && (p + size <? SIZE_MOD)
    then (Ok p, with_brk (p + size)
                  (with_heap ((p, fresh_bytes w p size) :: heap w) w1))
    else (Ok NULL, w1).

Definition release (block : Z) (h : Heap) : Heap :=
  filter (fun b => negb (fst b =? block)) h.

(** Modelled from the spec: the aligned allocation service,
    [deallocate(pointer)]. The block at [block] leaves the heap; releasing
    [NULL] releases nothing. Every call is recorded. *)
Definition allocator_Deallocate (block : Z) : M unit :=
  fun w =>
    let w1 := with_alloc_calls (alloc_calls w ++ [CallDeallocate block]) w in
    if block =? NULL then (Ok tt, w1)
    else (Ok tt, with_heap (release block (heap w)) w1).

(** Modelled from the spec: [math::IsAligned] (ozz/base/maths/math_ex.h),
    the mask test of an address against a power-of-two alignment. *)
Definition IsAligned (address alignment : Z) : bool :=
  Z.land address (alignment - 1) =? 0.

(** Modelled from the spec: [log::Err()] (ozz/base/log.h); the log keeps the
    version each diagnostic reports. *)
Definition log_Err_unsupported (_version : Z) : M unit :=
  fun w => (Ok tt, with_log_Err (log_Err w ++ [_version]) w).

(** Modelled from the spec: the archive (ozz/base/io/archive.h), an ordered
    byte stream with typed reads and writes in the native (little-endian)
    encoding, which fails explicitly when the stream runs short. [oarchive]
    holds the bytes written so far, [iarchive] the bytes not yet read. *)
Definition archive_write (bs : list Z) : M unit :=
  fun w => (Ok tt, with_oarchive (oarchive w ++ bs) w).

Definition archive_read (n : Z) : M (list Z) :=
  fun w =>
    if (0 <=? n) && (n <=? len (iarchive w))
    then (Ok (firstn (Z.to_nat n) (iarchive w)),
          with_iarchive (skipn (Z.to_nat n) (iarchive w)) w)
    else (Fail StreamError, w).

Definition archive_write_int32 (v : Z) : M unit :=
  archive_write (le_encode 4 v).

Definition archive_read_int32 : M Z :=
  bs <- archive_read 4 ;; ret (to_int32 (le_decode bs)).

(** Memory accesses of the member functions. *)
Definition mem_read (p n : Z) : M (list Z) :=
  fun w =>
    match heap_read (heap w) p n with
    | Some bs => (Ok bs, w)
    | None => (Fail MemFault, w)
    end.

Definition mem_write (p : Z) (bs : list Z) : M unit :=
  fun w =>
    match heap_write (heap w) p bs with
    | Some h => (Ok tt, with_heap h w)
    | None => (Fail MemFault, w)
    end.

(** [std::strlen(p)]: the bytes from [p] up to and including the terminator
    are examined; running off the block is a fault, after the first byte
    outside it has been examined. *)
Definition strlen (p : Z) : M Z :=
  fun w =>
    let '(found, n) := heap_strlen (heap w) p in
    let w' := with_examined (examined w ++ seqZ p (n + 1)) w in
    if found then (Ok n, w') else (Fail MemFault, w').

(** [_archive << ozz::io::MakeArray(p, count)] on a [char] array, and on a
    range of fixed-size elements: the elements go out verbatim. *)
Definition archive_write_array (p size : Z) : M unit :=
  if size =? 0 then ret tt
  else bs <- mem_read p size ;; archive_write bs.

(** [_archive >> ozz::io::MakeArray(p, count)]. *)
Definition archive_read_array (p size : Z) : M unit :=
  if size =? 0 then ret tt
  else bs <- archive_read size ;; mem_write p bs.

(** ** The member functions of [Skeleton] *)

Definition set_joint_bind_poses_ (r : Range) (s : Skeleton) : Skeleton :=
  {| joint_bind_poses_ := r; joint_names_ := joint_names_ s;
     joint_parents_ := joint_parents_ s |}.

Definition set_joint_names_ (r : Range) (s : Skeleton) : Skeleton :=
  {| joint_bind_poses_ := joint_bind_poses_ s; joint_names_ := r;
     joint_parents_ := joint_parents_ s |}.

Definition set_joint_parents_ (r : Range) (s : Skeleton) : Skeleton :=
  {| joint_bind_poses_ := joint_bind_poses_ s;
     joint_names_ := joint_names_ s; joint_parents_ := r |}.

Definition set_begin (p : Z) (r : Range) : Range :=
  {| begin := p; end_ := end_ r |}.

Definition set_end (p : Z) (r : Range) : Range :=
  {| begin := begin r; end_ := p |}.

(** Modelled from the spec: [Skeleton::num_joints()]
    (ozz/animation/runtime/skeleton.h), the element count of the
    parent-index view as an [int]. *)
Definition num_joints : M Z :=
  s <- get_skeleton ;;
  ret (to_int32 (Range_count sizeof_int16 (joint_parents_ s))).

(** The address of [joint_names_[i]], its value, and the assignment to it
    ([Range::operator[]] of ozz/base/platform.h, as compiled without its
    debug check of the index: an access outside the heap is a fault). *)
Definition joint_names_at {P : Platform} (i : Z) : M Z :=
  s <- get_skeleton ;; ret (begin (joint_names_ s) + i * sizeof_ptr).

Definition joint_names_get {P : Platform} (i : Z) : M Z :=
  a <- joint_names_at i ;;
  bs <- mem_read a sizeof_ptr ;;
  ret (le_decode bs).

Definition joint_names_set {P : Platform} (i : Z) (p : Z) : M unit :=
  a <- joint_names_at i ;;
  mem_write a (le_encode (Z.to_nat sizeof_ptr) p).

(** The sizes [Skeleton::Allocate] computes, in [size_t] arithmetic. *)
Definition joint_bind_poses_size {P : Platform} (_num_joints : Z) : Z :=
  to_size_t (to_size_t (_num_joints + 3) / 4 * sizeof_SoaTransform).

Definition names_size {P : Platform} (_num_joints : Z) : Z :=
  to_size_t (_num_joints * sizeof_ptr).

Definition joint_parents_size {P : Platform} (_num_joints : Z) : Z :=
  to_size_t (_num_joints * sizeof_int16).

Definition buffer_size {P : Platform} (_chars_size _num_joints : Z) : Z :=
  to_size_t
    (to_size_t
       (to_size_t (names_size _num_joints + _chars_size)
        + joint_parents_size _num_joints)
     + joint_bind_poses_size _num_joints).

(** [char* Skeleton::Allocate(size_t _chars_size, size_t _num_joints)].
    Pointer arithmetic is exact: C++ gives pointers no wrap-around. *)
Definition Allocate {P : Platform} (_chars_size _num_joints : Z) : M Z :=
  s <- get_skeleton ;;
  assert_ assert_store_empty
    ((Range_size (joint_bind_poses_ s) =? 0) &&
     (Range_size (joint_names_ s) =? 0) &&
     (Range_size (joint_parents_ s) =? 0)) ;;
  if _num_joints =? 0 then ret NULL
  else
    buffer <- allocator_Allocate (buffer_size _chars_size _num_joints)
                alignof_SoaTransform ;;
    modify_skeleton (fun s =>
      set_joint_bind_poses_ (set_begin buffer (joint_bind_poses_ s)) s) ;;
    assert_ assert_bind_poses_aligned
      (IsAligned buffer alignof_SoaTransform) ;;
    let buffer := buffer + joint_bind_poses_size _num_joints in
    modify_skeleton (fun s =>
      set_joint_bind_poses_ (set_end buffer (joint_bind_poses_ s)) s) ;;
    modify_skeleton (fun s =>
      set_joint_names_ (set_begin buffer (joint_names_ s)) s) ;;
    assert_ assert_names_aligned (IsAligned buffer alignof_ptr) ;;
    let buffer := buffer + names_size _num_joints in
    modify_skeleton (fun s =>
      set_joint_names_ (set_end buffer (joint_names_ s)) s) ;;
    modify_skeleton (fun s =>
      set_joint_parents_ (set_begin buffer (joint_parents_ s)) s) ;;
    assert_ assert_parents_aligned (IsAligned buffer alignof_int16) ;;
    let buffer := buffer + joint_parents_size _num_joints in
    modify_skeleton (fun s =>
      set_joint_parents_ (set_end buffer (joint_parents_ s)) s) ;;
    ret buffer.

(** [void Skeleton::Deallocate()]. *)
Definition Deallocate : M unit :=
  s <- get_skeleton ;;
  allocator_Deallocate (begin (joint_bind_poses_ s)) ;;
  modify_skeleton (set_joint_bind_poses_ Range_Clear) ;;
  modify_skeleton (set_joint_names_ Range_Clear) ;;
  modify_skeleton (set_joint_parents_ Range_Clear).

(** [void Skeleton::Save(ozz::io::OArchive& _archive) const]. *)
Definition Save {P : Platform} : M unit :=
  num_joints <- num_joints ;;
  archive_write_int32 num_joints ;;
  if num_joints =? 0 then ret tt
  else
    chars_count <-
      for_ (Z.to_nat num_joints) 0
        (fun i chars_count =>
           name <- joint_names_get i ;;
           n <- strlen name ;;
           ret (to_size_t
                  (chars_count
                   + to_size_t (to_size_t (n + 1) * sizeof_char))))
        0 ;;
    archive_write_int32 (to_int32 chars_count) ;;
    name0 <- joint_names_get 0 ;;
    archive_write_array name0 chars_count ;;
    s <- get_skeleton ;;
    archive_write_array (begin (joint_parents_ s))
      (Range_count sizeof_int16 (joint_parents_ s) * sizeof_int16) ;;
    archive_write_array (begin (joint_bind_poses_ s))
      (Range_count sizeof_SoaTransform (joint_bind_poses_ s)
       * sizeof_SoaTransform).

(** [void Skeleton::Load(ozz::io::IArchive& _archive, uint32_t _version)]. *)
Definition Load {P : Platform} (_version : Z) : M unit :=
  Deallocate ;;
  if negb (_version =? 2) then log_Err_unsupported _version
  else
    num_joints <- archive_read_int32 ;;
    if num_joints =? 0 then ret tt
    else
      chars_count <- archive_read_int32 ;;
      cursor <- Allocate (to_size_t chars_count) (to_size_t num_joints) ;;
      archive_read_array cursor (to_size_t chars_count) ;;
      cursor <-
        for_ (Z.to_nat (num_joints - 1)) 0
          (fun i cursor =>
             joint_names_set i cursor ;;
             name <- joint_names_get i ;;
             n <- strlen name ;;
             ret (cursor + (n + 1)))
          cursor ;;
      joint_names_set (num_joints - 1) cursor ;;
      s <- get_skeleton ;;
      archive_read_array (begin (joint_parents_ s))
        (Range_count sizeof_int16 (joint_parents_ s) * sizeof_int16) ;;
      s <- get_skeleton ;;
      archive_read_array (begin (joint_bind_poses_ s))
        (Range_count sizeof_SoaTransform (joint_bind_poses_ s)
         * sizeof_SoaTransform).

(** [Skeleton::Skeleton() {}]: the body is empty and the three region views
    are default constructed; a default-constructed [Range] is empty (modelled
    from the spec, as [Range] is: the store is empty at construction).
    [Skeleton::~Skeleton()] calls [Deallocate]. *)
Definition Skeleton_ctor : M unit := modify_skeleton (fun _ => Skeleton_empty).

Definition Skeleton_dtor : M unit := Deallocate.

(** ** What a store holds, as its accessors show it *)

(** The joints of a store: the names (without terminators), the parent
    indices and the bind-pose blocks, each block as its bytes. *)
Record Joints := {
  names : list (list Z);
  parents : list Z;
  bind_poses : list (list Z)
}.

Definition joint_count (j : Joints) : Z := len (parents j).

Fixpoint tabulate {A} (f : Z -> option A) (i : Z) (n : nat) : option (list A) :=
  match n with
  | O => Some []
  | S k =>
      match f i, tabulate f (i + 1) k with
      | Some a, Some r => Some (a :: r)
      | _, _ => None
      end
  end.

(** The C string at [p], without its terminator. *)
Definition c_string (h : Heap) (p : Z) : option (list Z) :=
  let '(found, n) := heap_strlen h p in
  if found then heap_read h p n else None.

(** [name(i)], [parentIndex(i)] and the [k]-th bind-pose block. *)
Definition joint_name {P : Platform} (w : World) (i : Z) : option (list Z) :=
  match heap_read (heap w) (begin (joint_names_ (skeleton w)) + i * sizeof_ptr)
          sizeof_ptr with
  | Some bs => c_string (heap w) (le_decode bs)
  | None => None
  end.

Definition joint_parent (w : World) (i : Z) : option Z :=
  option_map (fun bs => to_int16 (le_decode bs))
    (heap_read (heap w)
       (begin (joint_parents_ (skeleton w)) + i * sizeof_int16) sizeof_int16).

Definition joint_bind_pose {P : Platform} (w : World) (k : Z)
  : option (list Z) :=
  heap_read (heap w)
    (begin (joint_bind_poses_ (skeleton w)) + k * sizeof_SoaTransform)
    sizeof_SoaTransform.

Definition snapshot {P : Platform} (w : World) : option Joints :=
  let n := Z.to_nat (Range_count sizeof_int16 (joint_parents_ (skeleton w))) in
  let k := Z.to_nat (Range_count sizeof_SoaTransform
                       (joint_bind_poses_ (skeleton w))) in
  match tabulate (joint_name w) 0 n, tabulate (joint_parent w) 0 n,
        tabulate (joint_bind_pose w) 0 k with
  | Some ns, Some ps, Some bs =>
      Some {| names := ns; parents := ps; bind_poses := bs |}
  | _, _, _ => None
  end.

(** ** The arena of a populated store *)

(** The character region: the names, each followed by its terminator. *)
Definition chars_of (ns : list (list Z)) : list Z :=
  concat (map (fun nm => nm ++ [0]) ns).

(** Where each name starts when the names are laid end to end from [cursor]. *)
Fixpoint name_starts (cursor : Z) (ns : list (list Z)) : list Z :=
  match ns with
  | [] => []
  | nm :: r => cursor :: name_starts (cursor + (len nm + 1)) r
  end.

Definition block_count (n : Z) : Z := (n + 3) / 4.

Definition bind_poses_bytes {P : Platform} (n : Z) : Z :=
  block_count n * sizeof_SoaTransform.

Definition names_bytes {P : Platform} (n : Z) : Z := n * sizeof_ptr.

Definition parents_bytes (n : Z) : Z := n * sizeof_int16.

Definition arena_bytes {P : Platform} (chars n : Z) : Z :=
  bind_poses_bytes n + names_bytes n + parents_bytes n + chars.

(** The three region views of a store of [n] joints whose arena is at
    [base], as the specification lays the regions out: bind poses, name
    views, parent indices, then the characters. [Allocate] is proved to set
    them. *)
Definition layout {P : Platform} (base n : Z) : Skeleton :=
  {| joint_bind_poses_ :=
       {| begin := base; end_ := base + bind_poses_bytes n |};
     joint_names_ :=
       {| begin := base + bind_poses_bytes n;
          end_ := base + bind_poses_bytes n + names_bytes n |};
     joint_parents_ :=
       {| begin := base + bind_poses_bytes n + names_bytes n;
          end_ := base + bind_poses_bytes n + names_bytes n + parents_bytes n |}
  |}.

Definition chars_begin {P : Platform} (base n : Z) : Z :=
  base + bind_poses_bytes n + names_bytes n + parents_bytes n.

(** The bytes of the arena of a store holding [j], when it is at [base]. *)
Definition image {P : Platform} (base : Z) (j : Joints) : list Z :=
  concat (bind_poses j)
  ++ concat (map (le_encode (Z.to_nat sizeof_ptr))
               (name_starts (chars_begin base (joint_count j)) (names j)))
  ++ concat (map (le_encode 2) (parents j))
  ++ chars_of (names j).

(** The block [(base, img)] is what the heap shows at its addresses. *)
Definition arena_at (h : Heap) (base : Z) (img : list Z) : Prop :=
  exists pre post,
    h = pre ++ (base, img) :: post /\
    Forall (fun b => forall p, base <= p < base + len img ->
                               in_block (fst b) (snd b) p = false) pre.

(** The store of [w] holds the joints [j]: it is empty when there is no
    joint, and otherwise its views are those of an arena that holds the
    image of [j]. *)
Definition stored {P : Platform} (w : World) (j : Joints) : Prop :=
  if joint_count j =? 0 then skeleton w = Skeleton_empty
  else exists base,
      0 < base /\
      base + len (image base j) < SIZE_MOD /\
      skeleton w = layout base (joint_count j) /\
      arena_at (heap w) base (image base j).

(** Joints a store can hold: as many names as parents, one block of
    [sizeof(SoaTransform)] bytes for every four joints, bytes in 0..255,
    no null byte inside a name, parents in the range of [int16_t]. *)
Definition is_byte (b : Z) : Prop := 0 <= b < 256.

Definition name_ok (nm : list Z) : Prop :=
  Forall (fun c => is_byte c /\ c <> 0) nm.

Definition well_formed {P : Platform} (j : Joints) : Prop :=
  length (names j) = length (parents j) /\
  len (bind_poses j) = block_count (joint_count j) /\
  Forall (fun b => len b = sizeof_SoaTransform) (bind_poses j) /\
  Forall name_ok (names j) /\
  Forall (fun p => - 2 ^ 15 <= p < 2 ^ 15) (parents j).

(** The record of [j], field by field as the binary layout of the
    specification gives it: the count, and for a count other than 0 the
    number of characters, the characters, the parent indices and the blocks.
    [Save] is proved to write it. *)
Definition record_of (j : Joints) : list Z :=
  if joint_count j =? 0 then le_encode 4 0
  else
    le_encode 4 (joint_count j)
    ++ le_encode 4 (len (chars_of (names j)))
    ++ chars_of (names j)
    ++ concat (map (le_encode 2) (parents j))
    ++ concat (bind_poses j).

(** ** Concrete worlds *)

Definition world0 : World :=
  {| skeleton := Skeleton_empty; heap := []; brk := 4096;
     fresh := fun _ => 205; alloc_calls := []; log_Err := [];
     examined := []; iarchive := []; oarchive := [] |}.

(** "root" and "hip" in ASCII. *)
Definition name_root : list Z := [114; 111; 111; 116].
Definition name_hip : list Z := [104; 105; 112].

Definition joints1 : Joints :=
  {| names := [name_root]; parents := [-1];
     bind_poses := [repeat 7 160] |}.

Definition joints5 : Joints :=
  {| names := [name_root; name_hip; []; [97]; [98; 99]];
     parents := [-1; 0; 1; 1; 3];
     bind_poses := [repeat 1 160; repeat 2 160] |}.

Definition run {A} (m : M A) (w : World) : World := snd (m w).
Definition outcome {A} (m : M A) (w : World) : Outcome A := fst (m w).

(** ** Notions the statements use *)

(** All three region views are empty: the precondition [Allocate] asserts. *)
Definition store_empty (w : World) : Prop :=
  Range_size (joint_bind_poses_ (skeleton w)) = 0 /\
  Range_size (joint_names_ (skeleton w)) = 0 /\
  Range_size (joint_parents_ (skeleton w)) = 0.

(** The allocation service can serve [size] bytes at the alignment of a
    bind-pose block. *)
Definition has_room {P : Platform} (size : Z) (w : World) : Prop :=
  0 < brk w /\ brk w + alignof_SoaTransform + size <= SIZE_MOD.

(** The block the allocation service returns for [size] bytes, and the world
    it leaves. *)
Definition service_block {P : Platform} (size : Z) (w : World) : Z :=
  let p := align_up (brk w) alignof_SoaTransform in
  if (0 <? p) && (p + size <? SIZE_MOD) then p else NULL.

Definition service_world {P : Platform} (size : Z) (w : World) : World :=
  snd (allocator_Allocate size alignof_SoaTransform w).

(** The name-view region: the images of the name pointers. *)
Definition ptrs {P : Platform} (c : Z) (ns : list (list Z)) : list Z :=
  concat (map (le_encode (Z.to_nat sizeof_ptr)) (name_starts c ns)).

(** The views of [w] are those of an arena at [base] that holds [j]. *)
Definition holds {P : Platform} (base : Z) (j : Joints) (w : World) : Prop :=
  skeleton w = layout base (joint_count j) /\
  arena_at (heap w) base (image base j).

(** The world [Load] leaves when it reads the record of [j] in [w]. *)
Definition loaded {P : Platform} (j : Joints) (rest : list Z) (w : World)
  : World :=
  let base := align_up (brk w) alignof_SoaTransform in
  let size := arena_bytes (len (chars_of (names j))) (joint_count j) in
  {| skeleton := layout base (joint_count j);
     heap := (base, image base j) :: heap (run Deallocate w);
     brk := base + size;
     fresh := fresh w;
     alloc_calls :=
       alloc_calls w
       ++ [CallDeallocate (begin (joint_bind_poses_ (skeleton w)));
           CallAllocate size alignof_SoaTransform];
     log_Err := log_Err w;
     examined :=
       examined w
       ++ seqZ (chars_begin base (joint_count j))
            (len (chars_of (removelast (names j))));
     iarchive := rest;
     oarchive := oarchive w |}.

(** What follows the call of [Allocate] in [Load]. *)
Definition Load_tail {P : Platform} (num_joints chars_count cursor : Z)
  : M unit :=
  archive_read_array cursor (to_size_t chars_count) ;;
  cursor <-
    for_ (Z.to_nat (num_joints - 1)) 0
      (fun i cursor =>
         joint_names_set i cursor ;;
         name <- joint_names_get i ;;
         n <- strlen name ;;
         ret (cursor + (n + 1)))
      cursor ;;
  joint_names_set (num_joints - 1) cursor ;;
  s <- get_skeleton ;;
  archive_read_array (begin (joint_parents_ s))
    (Range_count sizeof_int16 (joint_parents_ s) * sizeof_int16) ;;
  s <- get_skeleton ;;
  archive_read_array (begin (joint_bind_poses_ s))
    (Range_count sizeof_SoaTransform (joint_bind_poses_ s)
     * sizeof_SoaTransform).

(** A computation that leaves a component of the world as it found it. *)
Definition keeps {A B} (f : World -> B) (m : M A) : Prop :=
  forall w, f (snd (m w)) = f w.

(** A computation that never ends in the failure [e]. *)
Definition never {A} (e : Failure) (m : M A) : Prop :=
  forall w, fst (m w) <> Fail e.

(** What follows the writing of the joint count in [Save]. *)
Definition Save_tail {P : Platform} (num_joints : Z) : M unit :=
  if num_joints =? 0 then ret tt
  else
    chars_count <-
      for_ (Z.to_nat num_joints) 0
        (fun i chars_count =>
           name <- joint_names_get i ;;
           n <- strlen name ;;
           ret (to_size_t
                  (chars_count
                   + to_size_t (to_size_t (n + 1) * sizeof_char))))
        0 ;;
    archive_write_int32 (to_int32 chars_count) ;;
    name0 <- joint_names_get 0 ;;
    archive_write_array name0 chars_count ;;
    s <- get_skeleton ;;
    archive_write_array (begin (joint_parents_ s))
      (Range_count sizeof_int16 (joint_parents_ s) * sizeof_int16) ;;
    archive_write_array (begin (joint_bind_poses_ s))
      (Range_count sizeof_SoaTransform (joint_bind_poses_ s)
       * sizeof_SoaTransform).

(** A computation that only appends to a list component of the world. *)
Definition grows {A B} (f : World -> list B) (m : M A) : Prop :=
  forall w, exists s, f (snd (m w)) = f w ++ s.

(** What [Save] has no access to, or only reads. *)
Definition unsaved (w : World)
  : Skeleton * Heap * Z * list AllocCall * list Z * list Z :=
  (skeleton w, heap w, brk w, alloc_calls w, log_Err w, iarchive w).

(** What [Load] has no access to, or writes only to reject a version. *)
Definition outputs (w : World) : list Z * list Z := (oarchive w, log_Err w).

(** The blocks in use were served by the allocation service: none is empty
    and all lie below its bump pointer. *)
Definition allocated_below_brk (w : World) : Prop :=
  Forall (fun b => 0 < len (snd b) /\ fst b + len (snd b) <= brk w) (heap w).

(** No block of the heap holds the address [p]. *)
Definition unallocated (h : Heap) (p : Z) : Prop :=
  Forall (fun b => in_block (fst b) (snd b) p = false) h.

(** A store of one joint named [nm], at address 4096. *)
Definition joints_named (nm : list Z) : Joints :=
  {| names := [nm]; parents := [-1]; bind_poses := [repeat 0 160] |}.

Definition world_named (nm : list Z) : World :=
  {| skeleton := layout (P := LP64) 4096 1;
     heap := [(4096, image (P := LP64) 4096 (joints_named nm))];
     brk := 2 ^ 32; fresh := fun _ => 0; alloc_calls := []; log_Err := [];
     examined := []; iarchive := []; oarchive := [] |}.

(** A name of 2^31 - 1 letters [a]. *)
Definition long_name : list Z := repeat 97 (Z.to_nat (2 ^ 31 - 1)).

(** Projections of a world under its updates. *)
Ltac world_fields :=
  cbn [skeleton heap brk fresh alloc_calls log_Err examined iarchive oarchive
       with_skeleton with_heap with_brk with_alloc_calls with_log_Err
       with_examined with_iarchive with_oarchive fst snd].

(** A store loaded with [joints1], and one loaded with [joints5]. *)
Definition world1 : World :=
  Eval vm_compute in
  run (Load (P := LP64) 2) (with_iarchive (record_of joints1) world0).

Definition world5 : World :=
  Eval vm_compute in
  run (Load (P := LP64) 2) (with_iarchive (record_of joints5) world0).

(** Well-formedness of literal joints. *)
Ltac check_joints :=
  unfold well_formed, name_ok, is_byte;
  repeat match goal with
         | |- _ /\ _ => split
         | |- Forall _ _ => constructor
         | |- _ = _ => reflexivity
         | |- _ <> _ => discriminate
         | |- _ => lia
         end.

(** The blocks of a literal heap lie below the bump pointer. *)
Ltac check_below :=
  unfold allocated_below_brk;
  repeat match goal with
         | |- Forall _ _ => constructor
         | |- _ /\ _ => split
         | |- _ < _ => reflexivity
         | |- _ <= _ => discriminate
         end.

(** * Properties *)

(** ** Running the monad *)

Lemma bind_Ok {A B} (m : M A) (k : A -> M B) w a w' :
  m w = (Ok a, w') -> bind m k w = k a w'.
Proof. intros H. unfold bind. now rewrite H. Qed.

Lemma bind_Fail {A B} (m : M A) (k : A -> M B) w f w' :
  m w = (Fail f, w') -> bind m k w = (Fail f, w').
Proof. intros H. unfold bind. now rewrite H. Qed.

Lemma World_eq (w1 w2 : World) :
  skeleton w1 = skeleton w2 -> heap w1 = heap w2 -> brk w1 = brk w2 ->
  fresh w1 = fresh w2 -> alloc_calls w1 = alloc_calls w2 ->
  log_Err w1 = log_Err w2 -> examined w1 = examined w2 ->
  iarchive w1 = iarchive w2 -> oarchive w1 = oarchive w2 -> w1 = w2.
Proof. destruct w1, w2; cbn; intros; subst; reflexivity. Qed.

(** ** The short paths: Deallocate, a rejected version, no joint *)

Lemma store_empty_assert w :
  store_empty w ->
  (Range_size (joint_bind_poses_ (skeleton w)) =? 0) &&
  (Range_size (joint_names_ (skeleton w)) =? 0) &&
  (Range_size (joint_parents_ (skeleton w)) =? 0) = true.
Proof. intros (H1 & H2 & H3). rewrite H1, H2, H3. reflexivity. Qed.

Lemma Deallocate_eq w :
  Deallocate w =
  (Ok tt,
   with_skeleton Skeleton_empty
     (with_heap (if begin (joint_bind_poses_ (skeleton w)) =? NULL then heap w
                 else release (begin (joint_bind_poses_ (skeleton w))) (heap w))
        (with_alloc_calls
           (alloc_calls w ++ [CallDeallocate (begin (joint_bind_poses_ (skeleton w)))])
           w))).
Proof.
  unfold Deallocate, bind, get_skeleton, allocator_Deallocate, modify_skeleton.
  destruct w as [s h b f c l e i o]; cbn.
  destruct (begin (joint_bind_poses_ s) =? NULL); reflexivity.
Qed.

Lemma Load_unsupported {P : Platform} (v : Z) (w : World) :
  v <> 2 ->
  Load v w = (Ok tt, with_log_Err (log_Err w ++ [v]) (run Deallocate w)).
Proof.
  intros Hv. unfold Load, run.
  erewrite bind_Ok by apply Deallocate_eq.
  rewrite Deallocate_eq.
  destruct (Z.eqb_spec v 2) as [->|_]; [contradiction|]. cbn.
  reflexivity.
Qed.

Lemma Save_empty {P : Platform} (w : World) :
  Range_count sizeof_int16 (joint_parents_ (skeleton w)) = 0 ->
  Save w = (Ok tt, with_oarchive (oarchive w ++ [0; 0; 0; 0]) w).
Proof.
  intros H. unfold Save, num_joints, bind, get_skeleton, ret.
  rewrite H. reflexivity.
Qed.

Lemma archive_read_app (bs rest : list Z) (n : Z) (w : World) :
  iarchive w = bs ++ rest -> n = len bs ->
  archive_read n w = (Ok bs, with_iarchive rest w).
Proof.
  intros Hi ->. unfold archive_read. rewrite Hi. unfold len.
  rewrite length_app, Nat2Z.id.
  rewrite firstn_app, firstn_all, Nat.sub_diag, app_nil_r.
  rewrite skipn_app, skipn_all, Nat.sub_diag. cbn [skipn app].
  destruct (_ && _) eqn:E; [reflexivity|].
  apply andb_false_iff in E. destruct E as [E|E];
    [apply Z.leb_gt in E | apply Z.leb_gt in E]; lia.
Qed.

Lemma Load_empty_record {P : Platform} (w : World) (rest : list Z) :
  iarchive w = [0; 0; 0; 0] ++ rest ->
  Load 2 w = (Ok tt, with_iarchive rest (run Deallocate w)).
Proof.
  intros Hi. unfold Load, run.
  erewrite bind_Ok by apply Deallocate_eq.
  rewrite Deallocate_eq. cbn [negb Z.eqb Pos.eqb].
  unfold archive_read_int32.
  erewrite bind_Ok.
  2:{ erewrite bind_Ok.
      2:{ apply (archive_read_app [0; 0; 0; 0] rest); [exact Hi | reflexivity]. }
      reflexivity. }
  reflexivity.
Qed.

(** ** Arithmetic of the platform *)

Section Platform_facts.
Context {P : Platform} {ok : PlatformOk P}.

Lemma SIZE_MOD_wide : 2 ^ 32 <= SIZE_MOD.
Proof.
  unfold SIZE_MOD. pose proof ptr_wide.
  apply Z.pow_le_mono_r; lia.
Qed.

Lemma to_size_t_small z : 0 <= z < SIZE_MOD -> to_size_t z = z.
Proof. intros H. unfold to_size_t. now apply Z.mod_small. Qed.

Lemma pow2_pos a : pow2 a -> 0 < a.
Proof. intros (k & Hk & ->). now apply Z.pow_pos_nonneg. Qed.

Lemma pow2_divide a b : pow2 a -> pow2 b -> a >= b -> (b | a).
Proof.
  intros (k & Hk & ->) (m & Hm & ->) Hge.
  assert (m <= k).
  { destruct (Z.le_gt_cases m k) as [H|H]; [exact H|].
    apply (Z.pow_lt_mono_r 2) in H; lia. }
  exists (2 ^ (k - m)). rewrite <- Z.pow_add_r by lia. f_equal. lia.
Qed.

Lemma alignof_SoaTransform_pos : 0 < alignof_SoaTransform.
Proof. apply pow2_pos, block_align_pow2. Qed.

Lemma ptr_divides_block_align : (alignof_ptr | alignof_SoaTransform).
Proof.
  apply pow2_divide; [apply block_align_pow2 | apply ptr_align_pow2 |].
  apply OZZ_STATIC_ASSERT.
Qed.

Lemma int16_divides_ptr_align : (alignof_int16 | alignof_ptr).
Proof.
  apply pow2_divide; [apply ptr_align_pow2 | exists 1; split; [lia|reflexivity] |].
  apply OZZ_STATIC_ASSERT.
Qed.

Lemma IsAligned_divide p a : pow2 a -> (a | p) -> IsAligned p a = true.
Proof.
  intros (k & Hk & ->) Hd. unfold IsAligned.
  replace (2 ^ k - 1) with (Z.ones k) by (rewrite Z.ones_equiv; lia).
  rewrite Z.land_ones by exact Hk.
  apply Z.eqb_eq. apply Z.mod_divide in Hd; [exact Hd|].
  pose proof (Z.pow_pos_nonneg 2 k). lia.
Qed.

Lemma align_up_divide p a : (a | align_up p a).
Proof. unfold align_up. apply Z.divide_factor_r. Qed.

Lemma align_up_bounds p a : 0 < a -> p <= align_up p a < p + a.
Proof.
  intros Ha. unfold align_up.
  pose proof (Z.div_mod (p + a - 1) a ltac:(lia)).
  pose proof (Z.mod_pos_bound (p + a - 1) a Ha). nia.
Qed.

Lemma block_count_ceil n :
  4 * (block_count n - 1) < n <= 4 * block_count n.
Proof.
  unfold block_count.
  pose proof (Z.div_mod (n + 3) 4 ltac:(lia)).
  pose proof (Z.mod_pos_bound (n + 3) 4 ltac:(lia)). lia.
Qed.

Lemma block_count_pos n : 0 < n -> 0 < block_count n.
Proof. pose proof (block_count_ceil n). lia. Qed.

(** Within the range of [size_t] the sizes are the mathematical ones. *)
Lemma sizes_exact c n :
  0 < n -> 0 <= c -> arena_bytes c n < SIZE_MOD ->
  joint_bind_poses_size n = bind_poses_bytes n /\
  names_size n = names_bytes n /\
  joint_parents_size n = parents_bytes n /\
  buffer_size c n = arena_bytes c n.
Proof.
  intros Hn Hc Hfit.
  pose proof ptr_wide. pose proof block_size_pos.
  pose proof (block_count_pos n Hn) as Hb.
  unfold arena_bytes, bind_poses_bytes, names_bytes, parents_bytes,
    sizeof_int16 in *.
  assert (0 < block_count n * sizeof_SoaTransform) by nia.
  assert (n + 3 <= n * sizeof_ptr) by nia.
  unfold buffer_size, joint_bind_poses_size, names_size, joint_parents_size,
    sizeof_int16.
  rewrite (to_size_t_small (n + 3)) by lia.
  fold (block_count n).
  rewrite (to_size_t_small (block_count n * _)) by lia.
  rewrite (to_size_t_small (n * sizeof_ptr)) by lia.
  rewrite (to_size_t_small (n * 2)) by lia.
  rewrite (to_size_t_small (n * sizeof_ptr + c)) by lia.
  rewrite (to_size_t_small (n * sizeof_ptr + c + n * 2)) by lia.
  rewrite to_size_t_small by lia.
  repeat split; lia.
Qed.

End Platform_facts.

Lemma LP64_ok : PlatformOk LP64.
Proof.
  constructor; cbn; try lia.
  - exists 4. split; [lia | reflexivity].
  - exists 3. split; [lia | reflexivity].
  - exists 10. reflexivity.
  - exists 1. reflexivity.
  - unfold alignof_int16, alignof_char. lia.
Defined.

(** ** Allocate on sizes that fit *)

Section Allocate_facts.
Context {P : Platform} {ok : PlatformOk P}.

Lemma allocator_Allocate_eq size w :
  allocator_Allocate size alignof_SoaTransform w =
  (Ok (service_block size w), service_world size w).
Proof.
  unfold service_world, service_block, allocator_Allocate.
  destruct (_ && _); reflexivity.
Qed.

Lemma service_block_aligned size w :
  (alignof_SoaTransform | service_block size w).
Proof.
  unfold service_block. destruct (_ && _).
  - apply align_up_divide.
  - apply Z.divide_0_r.
Qed.

Lemma service_block_room size w :
  0 <= size -> has_room size w ->
  service_block size w = align_up (brk w) alignof_SoaTransform /\
  0 < service_block size w /\
  service_block size w + size < SIZE_MOD /\
  heap (service_world size w) =
    (service_block size w, fresh_bytes w (service_block size w) size) :: heap w.
Proof.
  intros Hs (Hb & Hr).
  pose proof (align_up_bounds (brk w) _ alignof_SoaTransform_pos) as Hu.
  unfold service_block, service_world, allocator_Allocate.
  destruct (_ && _) eqn:E.
  - cbn. repeat split; lia.
  - apply andb_false_iff in E.
    destruct E as [E|E]; [apply Z.ltb_ge in E | apply Z.ltb_ge in E]; lia.
Qed.

Lemma service_world_room size w :
  0 <= size -> has_room size w ->
  service_world size w =
  with_brk (service_block size w + size)
    (with_heap ((service_block size w,
                 fresh_bytes w (service_block size w) size) :: heap w)
       (with_alloc_calls
          (alloc_calls w ++ [CallAllocate size alignof_SoaTransform]) w)).
Proof.
  intros Hs (Hb & Hr).
  pose proof (align_up_bounds (brk w) _ alignof_SoaTransform_pos) as Hu.
  unfold service_block, service_world, allocator_Allocate.
  destruct (_ && _) eqn:E.
  - reflexivity.
  - apply andb_false_iff in E.
    destruct E as [E|E]; [apply Z.ltb_ge in E | apply Z.ltb_ge in E]; lia.
Qed.

(** On an empty store, for sizes that do not wrap, [Allocate] ends well
    with the layout of [n] joints at the block the service returned. *)
Lemma Allocate_eq c n w :
  0 < n -> 0 <= c -> arena_bytes c n < SIZE_MOD -> store_empty w ->
  Allocate c n w =
  (Ok (chars_begin (service_block (arena_bytes c n) w) n),
   with_skeleton (layout (service_block (arena_bytes c n) w) n)
     (service_world (arena_bytes c n) w)).
Proof.
  intros Hn Hc Hfit He.
  destruct (sizes_exact c n Hn Hc Hfit) as (E1 & E2 & E3 & E4).
  unfold Allocate.
  unfold bind at 1. unfold get_skeleton.
  unfold bind at 1. rewrite (store_empty_assert w He). unfold assert_ at 1, ret at 1.
  destruct (Z.eqb_spec n 0) as [->|_]; [lia|].
  rewrite E1, E2, E3, E4.
  set (size := arena_bytes c n).
  pose proof (service_block_aligned size w) as Ha.
  set (b := service_block size w) in *.
  assert (A1 : IsAligned b alignof_SoaTransform = true).
  { apply IsAligned_divide; [apply block_align_pow2 | exact Ha]. }
  assert (A2 : IsAligned (b + bind_poses_bytes n) alignof_ptr = true).
  { apply IsAligned_divide; [apply ptr_align_pow2 |].
    apply Z.divide_add_r.
    - eapply Z.divide_trans; [apply ptr_divides_block_align | exact Ha].
    - unfold bind_poses_bytes. apply Z.divide_mul_r.
      eapply Z.divide_trans; [apply ptr_divides_block_align |].
      apply block_size_aligned. }
  assert (A3 : IsAligned (b + bind_poses_bytes n + names_bytes n) alignof_int16
               = true).
  { apply IsAligned_divide; [exists 1; split; [lia | reflexivity] |].
    eapply Z.divide_trans; [apply int16_divides_ptr_align |].
    apply Z.divide_add_r; [apply Z.divide_add_r |].
    - eapply Z.divide_trans; [apply ptr_divides_block_align | exact Ha].
    - unfold bind_poses_bytes. apply Z.divide_mul_r.
      eapply Z.divide_trans; [apply ptr_divides_block_align |].
      apply block_size_aligned.
    - unfold names_bytes. apply Z.divide_mul_r, ptr_size_aligned. }
  unfold bind at 1. rewrite allocator_Allocate_eq. fold b.
  unfold bind, modify_skeleton, assert_. rewrite A1, A2, A3.
  unfold ret. cbn. unfold layout, chars_begin. reflexivity.
Qed.

End Allocate_facts.

(** ** Reading and writing inside an arena *)

Lemma len_app {A} (l1 l2 : list A) : len (l1 ++ l2) = len l1 + len l2.
Proof. unfold len. rewrite length_app. lia. Qed.

Lemma len_nonneg {A} (l : list A) : 0 <= len l.
Proof. unfold len. lia. Qed.

Lemma len_cons {A} (a : A) (l : list A) : len (a :: l) = 1 + len l.
Proof. unfold len. cbn [length]. lia. Qed.

Lemma len_one {A} (a : A) : len [a] = 1.
Proof. reflexivity. Qed.

Lemma slice_middle (pre x post : list Z) :
  slice (pre ++ x ++ post) (len pre) (len x) = x.
Proof.
  unfold slice, len. rewrite !Nat2Z.id.
  rewrite skipn_app, skipn_all, Nat.sub_diag. cbn [skipn app].
  rewrite firstn_app, firstn_all, Nat.sub_diag. cbn [firstn]. apply app_nil_r.
Qed.

Lemma splice_middle (pre old post new : list Z) :
  length old = length new ->
  splice (pre ++ old ++ post) (len pre) new = pre ++ new ++ post.
Proof.
  intros Hl. unfold splice, len. rewrite Nat2Z.id.
  rewrite firstn_app, firstn_all, Nat.sub_diag. cbn [firstn]. rewrite app_nil_r.
  rewrite skipn_app, skipn_all2 by lia. cbn [app].
  replace (length pre + length new - length pre)%nat with (length old) by lia.
  rewrite skipn_app, skipn_all, Nat.sub_diag. reflexivity.
Qed.

Lemma in_block_middle base (pre x post : list Z) :
  0 < len x ->
  in_block base (pre ++ x ++ post) (base + len pre) = true.
Proof.
  intros Hx. unfold in_block. rewrite !len_app.
  pose proof (len_nonneg pre). pose proof (len_nonneg post).
  apply andb_true_iff. split; [apply Z.leb_le | apply Z.ltb_lt]; lia.
Qed.

Lemma in_block_inside base (pre rest : list Z) :
  0 < len rest ->
  in_block base (pre ++ rest) (base + len pre) = true.
Proof.
  intros Hx. unfold in_block. rewrite !len_app.
  pose proof (len_nonneg pre).
  apply andb_true_iff. split; [apply Z.leb_le | apply Z.ltb_lt]; lia.
Qed.

Lemma heap_read_arena_gen h base (pre x post : list Z) :
  arena_at h base (pre ++ x ++ post) ->
  0 < len (x ++ post) -> heap_read h (base + len pre) (len x) = Some x.
Proof.
  intros (hp & hq & -> & Hdis) Hx.
  pose proof (len_nonneg pre). pose proof (len_nonneg post).
  pose proof (len_nonneg x).
  induction hp as [|[b bs] hp IH]; cbn [app heap_read].
  - rewrite in_block_inside by exact Hx.
    replace (base + len pre - base) with (len pre) by lia.
    rewrite slice_middle, !len_app.
    destruct (_ && _) eqn:E; [reflexivity|].
    apply andb_false_iff in E.
    destruct E as [E|E]; [apply Z.leb_gt in E | apply Z.leb_gt in E]; lia.
  - inversion Hdis as [|? ? Hb Hrest]; subst.
    cbn [fst snd] in Hb. rewrite len_app in Hx.
    rewrite Hb by (rewrite !len_app; lia).
    apply IH, Hrest.
Qed.

Lemma heap_read_arena h base (pre x post : list Z) :
  arena_at h base (pre ++ x ++ post) ->
  0 < len x -> heap_read h (base + len pre) (len x) = Some x.
Proof.
  intros Ha Hx. apply heap_read_arena_gen with (post := post); [exact Ha|].
  rewrite len_app. pose proof (len_nonneg post). lia.
Qed.

Lemma heap_read_arena_gen_at h base (pre x post : list Z) p n :
  arena_at h base (pre ++ x ++ post) ->
  p = base + len pre -> n = len x -> 0 < len (x ++ post) ->
  heap_read h p n = Some x.
Proof. intros Ha -> -> Hn. now apply heap_read_arena_gen with (post := post). Qed.

Lemma heap_read_arena_at h base (pre x post : list Z) p n :
  arena_at h base (pre ++ x ++ post) ->
  p = base + len pre -> n = len x -> 0 < n ->
  heap_read h p n = Some x.
Proof. intros Ha -> -> Hn. now apply heap_read_arena with (post := post). Qed.

Lemma heap_strlen_arena h base (pre x post : list Z) :
  arena_at h base (pre ++ x ++ post) ->
  0 < len x ->
  heap_strlen h (base + len pre) = scan_terminator (x ++ post).
Proof.
  intros (hp & hq & -> & Hdis) Hx.
  pose proof (len_nonneg pre). pose proof (len_nonneg post).
  induction hp as [|[b bs] hp IH]; cbn [app heap_strlen].
  - rewrite in_block_middle by exact Hx.
    replace (base + len pre - base) with (len pre) by lia.
    unfold len. rewrite Nat2Z.id.
    rewrite skipn_app, skipn_all, Nat.sub_diag. reflexivity.
  - inversion Hdis as [|? ? Hb Hrest]; subst.
    cbn [fst snd] in Hb. rewrite Hb by (rewrite !len_app; lia).
    apply IH, Hrest.
Qed.

Lemma scan_terminator_name (nm post : list Z) :
  Forall (fun c => is_byte c /\ c <> 0) nm ->
  scan_terminator (nm ++ 0 :: post) = (true, len nm).
Proof.
  induction 1 as [|c nm [_ Hc] _ IH]; [reflexivity|].
  cbn [app scan_terminator].
  destruct (Z.eqb_spec c 0); [contradiction|].
  rewrite IH, len_cons. f_equal. lia.
Qed.

Lemma heap_strlen_name h base (pre nm post : list Z) p :
  arena_at h base (pre ++ (nm ++ [0]) ++ post) ->
  p = base + len pre ->
  Forall (fun c => is_byte c /\ c <> 0) nm ->
  heap_strlen h p = (true, len nm).
Proof.
  intros Ha -> Hnm.
  rewrite (heap_strlen_arena h base pre (nm ++ [0]) post Ha).
  - rewrite <- (app_assoc nm [0] post). cbn [app]. now apply scan_terminator_name.
  - rewrite len_app. change (len [0]) with 1. pose proof (len_nonneg nm). lia.
Qed.

Lemma arena_at_head h base img : arena_at ((base, img) :: h) base img.
Proof. exists [], h. split; [reflexivity | constructor]. Qed.

Lemma heap_write_head h base (pre old post new : list Z) :
  0 < len new -> length old = length new ->
  heap_write ((base, pre ++ old ++ post) :: h) (base + len pre) new =
  Some ((base, pre ++ new ++ post) :: h).
Proof.
  intros Hn Hl. cbn [heap_write].
  assert (len old = len new) as Hl' by (unfold len; lia).
  rewrite in_block_middle by lia.
  replace (base + len pre - base) with (len pre) by lia.
  rewrite splice_middle by exact Hl.
  rewrite !len_app. pose proof (len_nonneg post).
  destruct (_ <=? _) eqn:E; [reflexivity|]. apply Z.leb_gt in E. lia.
Qed.

Lemma heap_write_base h base (old post new : list Z) :
  0 < len new -> length old = length new ->
  heap_write ((base, old ++ post) :: h) base new =
  Some ((base, new ++ post) :: h).
Proof.
  intros Hn Hl.
  pose proof (heap_write_head h base [] old post new Hn Hl) as H.
  cbn [app] in H. change (len []) with 0 in H. now rewrite Z.add_0_r in H.
Qed.

(** Little-endian images. *)
Lemma length_le_encode n v : length (le_encode n v) = n.
Proof. revert v. induction n; intros; cbn; [reflexivity | now rewrite IHn]. Qed.

Lemma le_decode_encode n v :
  le_decode (le_encode n v) = v mod 256 ^ Z.of_nat n.
Proof.
  revert v. induction n as [|n IH]; intros v.
  - cbn. now rewrite Z.mod_1_r.
  - cbn [le_encode le_decode]. rewrite IH.
    rewrite Nat2Z.inj_succ, Z.pow_succ_r by lia.
    assert (0 < 256 ^ Z.of_nat n) by (apply Z.pow_pos_nonneg; lia).
    pose proof (Z.div_mod v 256 ltac:(lia)).
    pose proof (Z.mod_pos_bound v 256 ltac:(lia)).
    pose proof (Z.div_mod (v / 256) (256 ^ Z.of_nat n) ltac:(lia)).
    pose proof (Z.mod_pos_bound (v / 256) (256 ^ Z.of_nat n) ltac:(lia)).
    apply (Z.mod_unique_pos _ _ (v / 256 / 256 ^ Z.of_nat n)); nia.
Qed.

Lemma to_int32_mod v :
  - 2 ^ 31 <= v < 2 ^ 31 -> to_int32 (v mod 256 ^ Z.of_nat 4) = v.
Proof.
  intros Hv. unfold to_int32. change (256 ^ Z.of_nat 4) with (2 ^ 32).
  rewrite Zplus_mod_idemp_l. rewrite Z.mod_small; lia.
Qed.

Lemma to_int16_mod v :
  - 2 ^ 15 <= v < 2 ^ 15 -> to_int16 (v mod 256 ^ Z.of_nat 2) = v.
Proof.
  intros Hv. unfold to_int16. change (256 ^ Z.of_nat 2) with (2 ^ 16).
  rewrite Zplus_mod_idemp_l. rewrite Z.mod_small; lia.
Qed.

Lemma SIZE_MOD_bytes {P : Platform} {ok : PlatformOk P} :
  256 ^ Z.of_nat (Z.to_nat sizeof_ptr) = SIZE_MOD.
Proof.
  pose proof ptr_wide. rewrite Z2Nat.id by lia. unfold SIZE_MOD.
  change 256 with (2 ^ 8). rewrite <- Z.pow_mul_r by lia. reflexivity.
Qed.

(** ** Steps of the member functions *)

Lemma mem_read_eq p n w bs :
  heap_read (heap w) p n = Some bs -> mem_read p n w = (Ok bs, w).
Proof. intros H. unfold mem_read. now rewrite H. Qed.

Lemma mem_write_eq p bs w h' :
  heap_write (heap w) p bs = Some h' ->
  mem_write p bs w = (Ok tt, with_heap h' w).
Proof. intros H. unfold mem_write. now rewrite H. Qed.

Lemma strlen_eq p w n :
  heap_strlen (heap w) p = (true, n) ->
  strlen p w = (Ok n, with_examined (examined w ++ seqZ p (n + 1)) w).
Proof. intros H. unfold strlen. now rewrite H. Qed.

(** ** Ranges of addresses *)

Lemma map_seq_from {A} (f : nat -> A) (k m : nat) :
  map f (seq k m) = map (fun i => f (k + i)%nat) (seq 0 m).
Proof.
  revert f k. induction m as [|m IH]; intros f k; [reflexivity|].
  cbn [seq map]. rewrite Nat.add_0_r. f_equal.
  rewrite (IH f (S k)), (IH _ 1%nat). apply map_ext. intros i.
  f_equal. lia.
Qed.

Lemma seqZ_app p n m :
  0 <= n -> 0 <= m -> seqZ p (n + m) = seqZ p n ++ seqZ (p + n) m.
Proof.
  intros Hn Hm. unfold seqZ.
  rewrite Z2Nat.inj_add, seq_app, map_app by lia. f_equal.
  cbn [Nat.add]. rewrite map_seq_from.
  apply map_ext. intros i. rewrite Nat2Z.inj_add, Z2Nat.id by lia. lia.
Qed.

Lemma seqZ_nil p : seqZ p 0 = [].
Proof. reflexivity. Qed.

Lemma In_seqZ p n a : In a (seqZ p n) <-> p <= a < p + n.
Proof.
  unfold seqZ. rewrite in_map_iff. split.
  - intros (i & <- & Hi). apply in_seq in Hi. lia.
  - intros H. exists (Z.to_nat (a - p)). split; [lia|]. apply in_seq. lia.
Qed.

(** Names laid end to end. *)
Lemma chars_of_app a b : chars_of (a ++ b) = chars_of a ++ chars_of b.
Proof. unfold chars_of. now rewrite map_app, concat_app. Qed.

Lemma chars_of_cons nm r : chars_of (nm :: r) = nm ++ 0 :: chars_of r.
Proof. unfold chars_of. cbn. now rewrite <- app_assoc. Qed.

Lemma len_chars_of_cons nm r :
  len (chars_of (nm :: r)) = len nm + 1 + len (chars_of r).
Proof. rewrite chars_of_cons, len_app, len_cons. lia. Qed.

Lemma len_chars_of_ge ns : len ns <= len (chars_of ns).
Proof.
  induction ns as [|nm r IH]; [reflexivity|].
  rewrite len_chars_of_cons, len_cons. pose proof (len_nonneg nm). lia.
Qed.

Lemma name_starts_app c a b :
  name_starts c (a ++ b) =
  name_starts c a ++ name_starts (c + len (chars_of a)) b.
Proof.
  revert c. induction a as [|nm r IH]; intros c; cbn [app name_starts].
  - now rewrite Z.add_0_r.
  - rewrite IH, len_chars_of_cons. do 3 f_equal. lia.
Qed.

Lemma length_name_starts c ns : length (name_starts c ns) = length ns.
Proof. revert c. induction ns; intros; cbn; [reflexivity | now rewrite IHns]. Qed.

Lemma len_concat_fixed {A} (k : Z) (l : list (list A)) :
  Forall (fun b => len b = k) l -> len (concat l) = len l * k.
Proof.
  induction 1 as [|b l Hb _ IH]; [reflexivity|].
  cbn [concat]. rewrite len_app, len_cons, IH, Hb. lia.
Qed.

Lemma len_encoded (n : nat) (l : list Z) :
  len (concat (map (le_encode n) l)) = len l * Z.of_nat n.
Proof.
  rewrite (len_concat_fixed (Z.of_nat n)).
  - unfold len. now rewrite length_map.
  - apply Forall_forall. intros b Hb. apply in_map_iff in Hb.
    destruct Hb as (v & <- & _). unfold len. now rewrite length_le_encode.
Qed.

(** ** The loop of Load over the names *)

Section Load_loop.
Context {P : Platform} {ok : PlatformOk P}.

Lemma len_ptrs c ns : len (ptrs c ns) = len ns * sizeof_ptr.
Proof.
  unfold ptrs. rewrite len_encoded. pose proof ptr_wide.
  rewrite Z2Nat.id by lia. unfold len. now rewrite length_name_starts.
Qed.

Lemma ptrs_app c a b :
  ptrs c (a ++ b) = ptrs c a ++ ptrs (c + len (chars_of a)) b.
Proof. unfold ptrs. now rewrite name_starts_app, map_app, concat_app. Qed.

Lemma ptrs_one c nm : ptrs c [nm] = le_encode (Z.to_nat sizeof_ptr) c.
Proof. unfold ptrs. cbn. apply app_nil_r. Qed.

Lemma decode_ptr p :
  0 <= p < SIZE_MOD -> le_decode (le_encode (Z.to_nat sizeof_ptr) p) = p.
Proof.
  intros Hp. rewrite le_decode_encode, SIZE_MOD_bytes. now apply Z.mod_small.
Qed.

Lemma len_encode_ptr p : len (le_encode (Z.to_nat sizeof_ptr) p) = sizeof_ptr.
Proof. unfold len. rewrite length_le_encode. pose proof ptr_wide. lia. Qed.

Variables (base : Z) (h : Heap) (A Bp tailc : list Z).

(** The loop of [Load] from joint [length done] on, in an arena whose
    name views hold the pointers of [done] already: it writes the pointers of
    [todo], examines the bytes of [todo] with their terminators and no other,
    and leaves the cursor past them. *)
Lemma Load_fixup_loop :
  forall (todo done : list (list Z)) (Nrest : list Z) (cbeg : Z) (w : World),
    Forall name_ok todo ->
    begin (joint_names_ (skeleton w)) = base + len A ->
    heap w = (base, A ++ ptrs cbeg done ++ Nrest ++ Bp
                      ++ chars_of done ++ chars_of todo ++ tailc) :: h ->
    len todo * sizeof_ptr <= len Nrest ->
    cbeg = base + len A + len (ptrs cbeg done) + len Nrest + len Bp ->
    0 <= cbeg -> cbeg + len (chars_of (done ++ todo)) < SIZE_MOD ->
    for_ (length todo) (len done)
      (fun i cursor =>
         joint_names_set i cursor ;;
         name <- joint_names_get i ;;
         n <- strlen name ;;
         ret (cursor + (n + 1)))
      (cbeg + len (chars_of done)) w =
    (Ok (cbeg + len (chars_of (done ++ todo))),
     with_examined
       (examined w ++ seqZ (cbeg + len (chars_of done)) (len (chars_of todo)))
       (with_heap
          ((base, A ++ ptrs cbeg (done ++ todo)
                    ++ skipn (length todo * Z.to_nat sizeof_ptr) Nrest ++ Bp
                    ++ chars_of done ++ chars_of todo ++ tailc) :: h) w)).
Proof.
  induction todo as [|nm todo IH]; intros done Nrest cbeg w Hok Hb Hh Hl Hc Hc0 Hfit.
  - cbn [length for_ Nat.mul skipn]. unfold ret.
    rewrite app_nil_r. f_equal.
    destruct w; cbn in *. rewrite app_nil_r. now subst.
  - inversion Hok as [|? ? Hnm Hok']; subst.
    pose proof ptr_wide as Hw.
    pose proof (len_nonneg A). pose proof (len_nonneg Bp).
    pose proof (len_nonneg done). pose proof (len_nonneg todo).
    pose proof (len_nonneg (chars_of done)).
    pose proof (len_nonneg (chars_of todo)). pose proof (len_nonneg nm).
    rewrite len_cons in Hl.
    rewrite chars_of_app, len_app, len_chars_of_cons in Hfit.
    set (cursor := cbeg + len (chars_of done)).
    set (old := firstn (Z.to_nat sizeof_ptr) Nrest).
    set (Nrest' := skipn (Z.to_nat sizeof_ptr) Nrest).
    assert (HN : Nrest = old ++ Nrest') by (symmetry; apply firstn_skipn).
    assert (Hold : length old = Z.to_nat sizeof_ptr).
    { unfold old. apply firstn_length_le. unfold len in Hl. nia. }
    assert (HlN : len Nrest = sizeof_ptr + len Nrest').
    { rewrite HN at 1. rewrite len_app. unfold len. lia. }
    pose proof Hc as Hc'. rewrite len_ptrs in Hc'.
    cbn [length for_].
    (* joint_names_[i] = cursor *)
    assert (S1 : joint_names_set (len done) cursor w =
                 (Ok tt, with_heap
                    ((base, (A ++ ptrs cbeg done)
                              ++ le_encode (Z.to_nat sizeof_ptr) cursor
                              ++ (Nrest' ++ Bp ++ chars_of done
                                    ++ chars_of (nm :: todo) ++ tailc)) :: h) w)).
    { unfold joint_names_set, joint_names_at.
      unfold bind at 1. unfold bind at 1. unfold get_skeleton, ret.
      apply mem_write_eq. rewrite Hh, Hb.
      replace (base + len A + len done * sizeof_ptr)
        with (base + len (A ++ ptrs cbeg done))
        by (rewrite len_app, len_ptrs; lia).
      rewrite HN.
      replace (A ++ ptrs cbeg done ++ (old ++ Nrest') ++ Bp ++ chars_of done
                 ++ chars_of (nm :: todo) ++ tailc)
        with ((A ++ ptrs cbeg done) ++ old
                ++ (Nrest' ++ Bp ++ chars_of done
                      ++ chars_of (nm :: todo) ++ tailc))
        by (repeat rewrite <- app_assoc; reflexivity).
      apply heap_write_head.
      - rewrite len_encode_ptr. lia.
      - now rewrite length_le_encode. }
    erewrite bind_Ok.
    2:{ erewrite bind_Ok by exact S1.
        set (w1 := with_heap _ w).
        assert (S2 : joint_names_get (len done) w1 = (Ok cursor, w1)).
        { unfold joint_names_get, joint_names_at.
          unfold bind at 1. unfold bind at 1. unfold get_skeleton, ret.
          erewrite bind_Ok.
          2:{ apply mem_read_eq. subst w1. cbn [heap with_heap skeleton].
              rewrite Hb.
              eapply heap_read_arena_at; [apply arena_at_head | | |].
              - rewrite len_app, len_ptrs. lia.
              - now rewrite len_encode_ptr.
              - lia. }
          rewrite decode_ptr; [reflexivity|]. subst cursor. lia. }
        erewrite bind_Ok by exact S2.
        erewrite bind_Ok.
        2:{ apply strlen_eq. subst w1. cbn [heap with_heap].
            eapply heap_strlen_name
              with (pre := (A ++ ptrs cbeg done)
                             ++ le_encode (Z.to_nat sizeof_ptr) cursor
                             ++ Nrest' ++ Bp ++ chars_of done)
                   (nm := nm) (post := chars_of todo ++ tailc).
            - match goal with
              | |- arena_at ((_, ?blk) :: _) _ ?img =>
                  replace blk with img; [apply arena_at_head|]
              end.
              rewrite chars_of_cons.
              repeat (rewrite <- app_assoc; cbn [app]). reflexivity.
            - rewrite !len_app, len_encode_ptr, len_ptrs. subst cursor. lia.
            - exact Hnm. }
        reflexivity. }
    (* the remaining iterations *)
    set (w2 := with_examined _ _).
    replace (cursor + (len nm + 1)) with (cbeg + len (chars_of (done ++ [nm]))).
    2:{ rewrite chars_of_app, len_app, len_chars_of_cons. subst cursor.
        change (len (chars_of [])) with 0. lia. }
    replace (len done + 1) with (len (done ++ [nm]))
      by (rewrite len_app, len_one; lia).
    rewrite (IH (done ++ [nm]) Nrest' cbeg w2).
    + assert (E1 : (done ++ [nm]) ++ todo = done ++ nm :: todo)
        by (rewrite <- app_assoc; reflexivity).
      assert (E2 : skipn (length todo * Z.to_nat sizeof_ptr) Nrest'
                   = skipn (S (length todo) * Z.to_nat sizeof_ptr) Nrest)
        by (subst Nrest'; rewrite skipn_skipn; f_equal; lia).
      assert (E3 : chars_of (done ++ [nm]) ++ chars_of todo ++ tailc
                   = chars_of done ++ chars_of (nm :: todo) ++ tailc).
      { rewrite chars_of_app, !chars_of_cons. cbn [chars_of map concat].
        repeat (rewrite <- app_assoc; cbn [app]). reflexivity. }
      assert (E4 : examined w2
                     ++ seqZ (cbeg + len (chars_of (done ++ [nm])))
                          (len (chars_of todo))
                   = examined w ++ seqZ cursor (len (chars_of (nm :: todo)))).
      { subst w2. cbn [examined with_examined with_heap].
        rewrite <- app_assoc. f_equal.
        rewrite chars_of_app, len_app, !len_chars_of_cons.
        change (len (chars_of [])) with 0.
        subst cursor.
        rewrite (seqZ_app (cbeg + len (chars_of done)) (len nm + 1)
                   (len (chars_of todo))) by lia.
        f_equal. f_equal. lia. }
      rewrite E1, E2, E3, E4. subst w2. destruct w; reflexivity.
    + exact Hok'.
    + subst w2. cbn. exact Hb.
    + subst w2. cbn [heap with_heap with_examined].
      f_equal. f_equal. rewrite ptrs_app, ptrs_one.
      rewrite !chars_of_app, !chars_of_cons. cbn [chars_of concat map app].
      repeat (rewrite <- app_assoc; cbn [app]). reflexivity.
    + subst Nrest'. unfold len in *. rewrite length_skipn. nia.
    + rewrite len_ptrs, len_app, len_one. lia.
    + exact Hc0.
    + rewrite <- app_assoc. cbn [app].
      rewrite chars_of_app, len_app, len_chars_of_cons. lia.
Qed.

End Load_loop.

(** ** Load of a well-formed record *)

Lemma archive_read_int32_eq (v : Z) (rest : list Z) (w : World) :
  iarchive w = le_encode 4 v ++ rest ->
  - 2 ^ 31 <= v < 2 ^ 31 ->
  archive_read_int32 w = (Ok v, with_iarchive rest w).
Proof.
  intros Hi Hv. unfold archive_read_int32.
  erewrite bind_Ok.
  2:{ apply (archive_read_app (le_encode 4 v) rest); [exact Hi | reflexivity]. }
  unfold ret. rewrite le_decode_encode, to_int32_mod by exact Hv. reflexivity.
Qed.

Lemma archive_read_array_eq (p n : Z) (bs rest : list Z) (w : World) (h' : Heap) :
  iarchive w = bs ++ rest -> n = len bs -> 0 < n ->
  heap_write (heap w) p bs = Some h' ->
  archive_read_array p n w = (Ok tt, with_heap h' (with_iarchive rest w)).
Proof.
  intros Hi Hn Hpos Hw. unfold archive_read_array.
  destruct (Z.eqb_spec n 0); [lia|].
  erewrite bind_Ok by (apply (archive_read_app bs rest); assumption).
  now apply mem_write_eq.
Qed.

Lemma joint_names_set_eq {P : Platform} (i p : Z) (w : World) (h' : Heap) :
  heap_write (heap w) (begin (joint_names_ (skeleton w)) + i * sizeof_ptr)
    (le_encode (Z.to_nat sizeof_ptr) p) = Some h' ->
  joint_names_set i p w = (Ok tt, with_heap h' w).
Proof.
  intros Hw. unfold joint_names_set, joint_names_at.
  unfold bind at 1. unfold bind at 1. unfold get_skeleton, ret.
  now apply mem_write_eq.
Qed.

Lemma split_four (F : list Z) (a b c d : Z) :
  0 <= a -> 0 <= b -> 0 <= c -> 0 <= d -> len F = a + b + c + d ->
  exists A B C D, F = A ++ B ++ C ++ D /\
                  len A = a /\ len B = b /\ len C = c /\ len D = d.
Proof.
  intros Ha Hb Hc Hd HF.
  exists (firstn (Z.to_nat a) F),
         (firstn (Z.to_nat b) (skipn (Z.to_nat a) F)),
         (firstn (Z.to_nat c) (skipn (Z.to_nat b) (skipn (Z.to_nat a) F))),
         (skipn (Z.to_nat c) (skipn (Z.to_nat b) (skipn (Z.to_nat a) F))).
  split; [now rewrite !firstn_skipn|].
  unfold len in *. rewrite !length_firstn, !length_skipn. lia.
Qed.

Lemma length_fresh_bytes w p n : 0 <= n -> len (fresh_bytes w p n) = n.
Proof.
  intros Hn. unfold fresh_bytes, seqZ, len.
  rewrite !length_map, length_seq. lia.
Qed.

Lemma names_split (ns : list (list Z)) :
  ns <> [] -> exists init last, ns = init ++ [last].
Proof.
  intros H. destruct (exists_last H) as (init & last & ->). now exists init, last.
Qed.

Section Load_record.
Context {P : Platform} {ok : PlatformOk P}.

(** [Load] of the record of [j] ends well in the world [loaded j rest w]. *)
Lemma Load_record (j : Joints) (rest : list Z) (w : World) :
  well_formed j ->
  0 < joint_count j < 2 ^ 31 ->
  len (chars_of (names j)) < 2 ^ 31 ->
  iarchive w = record_of j ++ rest ->
  has_room (arena_bytes (len (chars_of (names j))) (joint_count j)) w ->
  Load 2 w = (Ok tt, loaded j rest w).
Proof.
  intros (Hnp & Hbc & Hbs & Hnames & Hpar) HN HC Hi Hroom.
  set (N := joint_count j) in *.
  set (C := len (chars_of (names j))) in *.
  set (T := arena_bytes C N) in *.
  pose proof SIZE_MOD_wide as HS. pose proof ptr_wide as Hpw.
  pose proof block_size_pos as Hbp.
  assert (HlenN : len (names j) = N).
  { unfold N, joint_count, len. now rewrite Hnp. }
  assert (HCN : N <= C).
  { rewrite <- HlenN. apply len_chars_of_ge. }
  assert (Hrec : record_of j ++ rest =
                 le_encode 4 N ++ le_encode 4 C ++ chars_of (names j)
                 ++ concat (map (le_encode 2) (parents j))
                 ++ concat (bind_poses j) ++ rest).
  { unfold record_of. fold N. destruct (Z.eqb_spec N 0); [lia|].
    fold C. repeat rewrite <- app_assoc. reflexivity. }
  rewrite Hrec in Hi. clear Hrec.
  unfold Load.
  erewrite bind_Ok by apply Deallocate_eq.
  cbn [negb Z.eqb Pos.eqb].
  set (w1 := with_skeleton _ _).
  erewrite bind_Ok by (apply archive_read_int32_eq; [exact Hi | lia]).
  destruct (Z.eqb_spec N 0); [lia|].
  set (w2 := with_iarchive _ w1).
  erewrite bind_Ok by (apply archive_read_int32_eq; [reflexivity | lia]).
  set (w3 := with_iarchive _ w2).
  rewrite (to_size_t_small C), (to_size_t_small N) by lia.
  assert (He3 : store_empty w3) by (repeat split; reflexivity).
  assert (HT : bind_poses_bytes N + names_bytes N + parents_bytes N + C = T)
    by reflexivity.
  assert (Hb0 : 0 < bind_poses_bytes N).
  { unfold bind_poses_bytes. pose proof (block_count_pos N). nia. }
  assert (Hn0 : 0 < names_bytes N) by (unfold names_bytes; nia).
  assert (Hp0 : 0 < parents_bytes N)
    by (unfold parents_bytes, sizeof_int16; lia).
  assert (Hroom3 : has_room T w3) by exact Hroom.
  destruct Hroom as (Hbrk & HroomT).
  assert (HTfit : T < SIZE_MOD).
  { pose proof alignof_SoaTransform_pos. lia. }
  erewrite bind_Ok by (apply Allocate_eq; [lia | lia | exact HTfit | exact He3]).
  fold T.
  destruct (service_block_room T w3 ltac:(lia) Hroom3)
    as (Hsb & Hsb0 & Hsbfit & Hheap).
  rewrite (service_world_room T w3 ltac:(lia) Hroom3) in *.
  set (b := service_block T w3) in *.
  cbn [heap with_brk with_heap] in Hheap.
  set (w4 := with_skeleton _ _).
  (* the fresh block, region by region *)
  destruct (split_four (fresh_bytes w3 b T) (bind_poses_bytes N)
              (names_bytes N) (parents_bytes N) C)
    as (A & Nm & Bp & F2 & HF & HlA & HlNm & HlBp & HlF2); try lia.
  { rewrite length_fresh_bytes; lia. }
  rewrite HF in Hheap.
  assert (Hcb : chars_begin b N = b + len (A ++ Nm ++ Bp)).
  { unfold chars_begin. rewrite !len_app. lia. }
  (* the names' characters *)
  erewrite bind_Ok.
  2:{ eapply archive_read_array_eq; [reflexivity | reflexivity | fold C; lia |].
      subst w4. cbn [heap with_skeleton with_brk with_heap]. rewrite HF, Hcb.
      replace (A ++ Nm ++ Bp ++ F2) with ((A ++ Nm ++ Bp) ++ F2 ++ [])
        by (rewrite app_nil_r; repeat rewrite <- app_assoc; reflexivity).
      apply heap_write_head; [fold C; lia|].
      unfold len in *. fold C in HlF2. unfold C in *. lia. }
  set (w5 := with_heap _ _).
  (* the name pointers but the last *)
  destruct (names_split (names j)) as (init & last & Hnm).
  { intros E. rewrite E in HlenN. cbn in HlenN. lia. }
  assert (Hinit : len init = N - 1).
  { rewrite <- HlenN, Hnm, len_app, len_one. lia. }
  rewrite Hnm in Hnames. apply Forall_app in Hnames.
  destruct Hnames as (Hinit_ok & Hlast_ok).
  replace (Z.to_nat (N - 1)) with (length init) by (unfold len in Hinit; lia).
  assert (Hloop := Load_fixup_loop b (heap w3) A Bp (chars_of [last]) init []
                     Nm (chars_begin b N) w5 Hinit_ok).
  change (ptrs (chars_begin b N) []) with (@nil Z) in Hloop.
  change (chars_of []) with (@nil Z) in Hloop.
  change (len (@nil Z)) with 0 in Hloop.
  change (len (@nil (list Z))) with 0 in Hloop.
  cbn [app] in Hloop. rewrite !Z.add_0_r in Hloop.
  erewrite bind_Ok.
  2:{ apply Hloop.
      - subst w5 w4. cbn. unfold chars_begin. lia.
      - subst w5. cbn [heap with_heap].
        rewrite app_nil_r, Hnm, chars_of_app.
        repeat rewrite <- app_assoc. reflexivity.
      - rewrite Hinit, HlNm. unfold names_bytes. nia.
      - rewrite Hcb, !len_app. lia.
      - unfold chars_begin. lia.
      - unfold chars_begin.
        assert (len (chars_of init) <= C).
        { unfold C. rewrite Hnm, chars_of_app, len_app.
          pose proof (len_nonneg (chars_of [last])). lia. }
        lia. }
  clear Hloop.
  cbn [app].
  set (w6 := with_examined _ _).
  set (cursor := chars_begin b N + len (chars_of init)).
  (* the last name pointer *)
  assert (HlNm' : length (skipn (length init * Z.to_nat sizeof_ptr) Nm)
                  = Z.to_nat sizeof_ptr).
  { rewrite length_skipn. unfold len in *. unfold names_bytes in HlNm. nia. }
  erewrite bind_Ok.
  2:{ apply joint_names_set_eq. subst w6 w5 w4.
      cbn [heap skeleton with_examined with_heap with_iarchive with_skeleton
           layout joint_names_ begin].
      replace (b + bind_poses_bytes N + (N - 1) * sizeof_ptr)
        with (b + len (A ++ ptrs (chars_begin b N) init))
        by (rewrite len_app, len_ptrs; lia).
      replace (A ++ ptrs (chars_begin b N) init
                 ++ skipn (length init * Z.to_nat sizeof_ptr) Nm ++ Bp
                 ++ chars_of init ++ chars_of [last])
        with ((A ++ ptrs (chars_begin b N) init)
                ++ skipn (length init * Z.to_nat sizeof_ptr) Nm
                ++ (Bp ++ chars_of init ++ chars_of [last]))
        by (repeat rewrite <- app_assoc; reflexivity).
      apply heap_write_head.
      - rewrite len_encode_ptr. lia.
      - now rewrite length_le_encode. }
  set (w7 := with_heap _ w6).
  unfold bind at 1. unfold get_skeleton at 1.
  assert (Hsk7 : skeleton w7 = layout b N) by reflexivity.
  rewrite Hsk7. cbn [layout joint_parents_ begin end_ joint_bind_poses_].
  assert (HcP : Range_count sizeof_int16
                  {| begin := b + bind_poses_bytes N + names_bytes N;
                     end_ := b + bind_poses_bytes N + names_bytes N
                             + parents_bytes N |} * sizeof_int16
                = parents_bytes N).
  { unfold Range_count. cbn [begin end_].
    replace (b + bind_poses_bytes N + names_bytes N + parents_bytes N
             - (b + bind_poses_bytes N + names_bytes N))
      with (parents_bytes N) by lia.
    unfold parents_bytes. rewrite Z.div_mul by (unfold sizeof_int16; lia).
    destruct (N >? 0) eqn:E; [reflexivity | lia]. }
  rewrite HcP.
  assert (HlP : len (concat (map (le_encode 2) (parents j))) = parents_bytes N).
  { rewrite len_encoded. unfold parents_bytes, N, joint_count, sizeof_int16.
    reflexivity. }
  (* the parent indices *)
  erewrite bind_Ok.
  2:{ eapply archive_read_array_eq; [reflexivity | | lia |].
      - symmetry. exact HlP.
      - subst w7. cbn [heap with_heap].
        replace (b + bind_poses_bytes N + names_bytes N)
          with (b + len (A ++ ptrs (chars_begin b N) init
                           ++ le_encode (Z.to_nat sizeof_ptr) cursor))
          by (rewrite !len_app, len_ptrs, len_encode_ptr;
              unfold names_bytes; lia).
        replace ((A ++ ptrs (chars_begin b N) init)
                   ++ le_encode (Z.to_nat sizeof_ptr) cursor
                   ++ Bp ++ chars_of init ++ chars_of [last])
          with ((A ++ ptrs (chars_begin b N) init
                   ++ le_encode (Z.to_nat sizeof_ptr) cursor)
                  ++ Bp ++ (chars_of init ++ chars_of [last]))
          by (repeat rewrite <- app_assoc; reflexivity).
        apply heap_write_head; [lia|].
        unfold len in *. lia. }
  set (w8 := with_heap _ _).
  unfold bind at 1. unfold get_skeleton at 1.
  assert (Hsk8 : skeleton w8 = layout b N) by reflexivity.
  rewrite Hsk8. cbn [layout joint_parents_ begin end_ joint_bind_poses_].
  assert (HcB : Range_count sizeof_SoaTransform
                  {| begin := b; end_ := b + bind_poses_bytes N |}
                * sizeof_SoaTransform = bind_poses_bytes N).
  { unfold Range_count. cbn [begin end_].
    replace (b + bind_poses_bytes N - b) with (bind_poses_bytes N) by lia.
    unfold bind_poses_bytes. rewrite Z.div_mul by lia.
    pose proof (block_count_pos N).
    destruct (block_count N >? 0) eqn:E; [reflexivity | lia]. }
  rewrite HcB.
  assert (HlB : len (concat (bind_poses j)) = bind_poses_bytes N).
  { rewrite (len_concat_fixed sizeof_SoaTransform) by exact Hbs.
    rewrite Hbc. reflexivity. }
  (* the bind poses *)
  erewrite archive_read_array_eq
    with (bs := concat (bind_poses j)) (rest := rest)
         (h' := (b, concat (bind_poses j)
                       ++ (ptrs (chars_begin b N) init
                             ++ le_encode (Z.to_nat sizeof_ptr) cursor)
                       ++ concat (map (le_encode 2) (parents j))
                       ++ chars_of init ++ chars_of [last]) :: heap w3).
  2:{ reflexivity. }
  2:{ symmetry. exact HlB. }
  2:{ lia. }
  2:{ subst w8. cbn [heap with_heap].
      replace ((A ++ ptrs (chars_begin b N) init
                  ++ le_encode (Z.to_nat sizeof_ptr) cursor)
                 ++ concat (map (le_encode 2) (parents j))
                 ++ chars_of init ++ chars_of [last])
        with (A ++ ((ptrs (chars_begin b N) init
                       ++ le_encode (Z.to_nat sizeof_ptr) cursor)
                      ++ concat (map (le_encode 2) (parents j))
                      ++ chars_of init ++ chars_of [last]))
        by (repeat rewrite <- app_assoc; reflexivity).
      apply heap_write_base; [lia|].
      unfold len in *. lia. }
  (* the world reached is the loaded one *)
  f_equal. unfold loaded. fold N C T.
  assert (Himg : concat (bind_poses j)
                   ++ (ptrs (chars_begin b N) init
                         ++ le_encode (Z.to_nat sizeof_ptr) cursor)
                   ++ concat (map (le_encode 2) (parents j))
                   ++ chars_of init ++ chars_of [last]
                 = image b j).
  { unfold image. fold N. rewrite Hnm, chars_of_app.
    fold (ptrs (chars_begin b N) (init ++ [last])).
    rewrite ptrs_app, ptrs_one. reflexivity. }
  rewrite Himg.
  assert (Hrl : removelast (names j) = init).
  { rewrite Hnm. apply removelast_last. }
  rewrite Hrl. change (brk w3) with (brk w) in Hsb. rewrite <- Hsb.
  subst w8 w7 w6 w5 w4 w3 w2 w1.
  unfold run. rewrite Deallocate_eq.
  apply World_eq; world_fields; try reflexivity.
  rewrite <- app_assoc. reflexivity.
Qed.

End Load_record.

(** ** Save and the accessors on a store that holds joints *)

Section Stored.
Context {P : Platform} {ok : PlatformOk P}.
Variables (base : Z) (j : Joints).
Hypothesis Hwf : well_formed j.
Hypothesis HN : 0 < joint_count j.
Hypothesis Hbase : 0 < base.

Hypothesis Hfit : base + len (image base j) < SIZE_MOD.

Let N := joint_count j.
Let cbeg := chars_begin base N.
Let parentsb := concat (map (le_encode 2) (parents j)).

Lemma stored_len_names : len (names j) = N.
Proof. destruct Hwf as (H & _). unfold N, joint_count, len. now rewrite H. Qed.

Lemma stored_len_poses : len (concat (bind_poses j)) = bind_poses_bytes N.
Proof.
  destruct Hwf as (_ & Hc & Hs & _).
  rewrite (len_concat_fixed sizeof_SoaTransform) by exact Hs.
  now rewrite Hc.
Qed.

Lemma stored_len_parents : len parentsb = parents_bytes N.
Proof. unfold parentsb. rewrite len_encoded. reflexivity. Qed.

Lemma stored_image :
  image base j =
  concat (bind_poses j) ++ ptrs cbeg (names j) ++ parentsb ++ chars_of (names j).
Proof. reflexivity. Qed.

Lemma stored_len_image :
  len (image base j) = arena_bytes (len (chars_of (names j))) N.
Proof.
  rewrite stored_image, !len_app, stored_len_poses, len_ptrs,
    stored_len_parents, stored_len_names.
  unfold arena_bytes, names_bytes. lia.
Qed.

Lemma stored_cbeg :
  cbeg = base + len (concat (bind_poses j) ++ ptrs cbeg (names j) ++ parentsb).
Proof.
  rewrite !len_app, stored_len_poses, len_ptrs, stored_len_parents,
    stored_len_names.
  unfold cbeg, chars_begin, names_bytes. lia.
Qed.

Lemma stored_sizes :
  0 <= bind_poses_bytes N /\ 0 <= names_bytes N /\ 0 <= parents_bytes N /\
  0 <= len (chars_of (names j)) /\
  base + bind_poses_bytes N + names_bytes N + parents_bytes N
    + len (chars_of (names j)) < SIZE_MOD.
Proof.
  pose proof stored_len_image as Hli. unfold arena_bytes in Hli.
  repeat split.
  - rewrite <- stored_len_poses. apply len_nonneg.
  - unfold names_bytes. rewrite <- stored_len_names, <- (len_ptrs cbeg).
    apply len_nonneg.
  - rewrite <- stored_len_parents. apply len_nonneg.
  - apply len_nonneg.
  - lia.
Qed.

Lemma stored_ptr_read (w : World) (done todo : list (list Z)) (nm : list Z) :
  holds base j w ->
  names j = done ++ nm :: todo ->
  heap_read (heap w) (base + bind_poses_bytes N + len done * sizeof_ptr)
    sizeof_ptr
  = Some (le_encode (Z.to_nat sizeof_ptr) (cbeg + len (chars_of done))).
Proof.
  intros (Hsk & Har) Hn.
  eapply heap_read_arena_at
    with (pre := concat (bind_poses j) ++ ptrs cbeg done)
         (post := ptrs (cbeg + len (chars_of (done ++ [nm]))) todo
                    ++ parentsb ++ chars_of (names j)).
  - replace (_ ++ _) with (image base j); [exact Har|].
    rewrite stored_image. rewrite Hn at 1.
    replace (done ++ nm :: todo) with ((done ++ [nm]) ++ todo)
      by (rewrite <- app_assoc; reflexivity).
    rewrite (ptrs_app cbeg (done ++ [nm])), (ptrs_app cbeg done), ptrs_one.
    repeat rewrite <- app_assoc. reflexivity.
  - rewrite len_app, stored_len_poses, len_ptrs. lia.
  - now rewrite len_encode_ptr.
  - pose proof ptr_wide. lia.
Qed.

Lemma stored_ptr_range (done todo : list (list Z)) (nm : list Z) :
  names j = done ++ nm :: todo ->
  0 <= cbeg + len (chars_of done) < SIZE_MOD.
Proof.
  intros Hn. pose proof stored_sizes as (? & ? & ? & ? & ?).
  pose proof (len_nonneg (chars_of done)).
  assert (Hc : len (chars_of done) < len (chars_of (names j))).
  { rewrite Hn, chars_of_app, len_app, len_chars_of_cons.
    pose proof (len_nonneg nm). pose proof (len_nonneg (chars_of todo)). lia. }
  unfold cbeg, chars_begin. lia.
Qed.

Lemma stored_names_get (w : World) (done todo : list (list Z)) (nm : list Z) :
  holds base j w ->
  names j = done ++ nm :: todo ->
  joint_names_get (len done) w = (Ok (cbeg + len (chars_of done)), w).
Proof.
  intros Hw Hn.
  unfold joint_names_get, joint_names_at.
  unfold bind at 1. unfold bind at 1. unfold get_skeleton, ret.
  destruct Hw as (Hsk & Har). rewrite Hsk. cbn [layout joint_names_ begin].
  erewrite bind_Ok
    by (apply mem_read_eq, (stored_ptr_read w done todo nm (conj Hsk Har) Hn)).
  unfold ret. rewrite decode_ptr; [reflexivity|].
  apply (stored_ptr_range done todo nm Hn).
Qed.

Lemma stored_strlen (w : World) (done todo : list (list Z)) (nm : list Z) :
  holds base j w ->
  names j = done ++ nm :: todo ->
  heap_strlen (heap w) (cbeg + len (chars_of done)) = (true, len nm).
Proof.
  intros (Hsk & Har) Hn.
  eapply heap_strlen_name
    with (pre := concat (bind_poses j) ++ ptrs cbeg (names j) ++ parentsb
                   ++ chars_of done)
         (post := chars_of todo).
  - replace (_ ++ _) with (image base j); [exact Har|].
    rewrite stored_image. rewrite Hn at 2.
    rewrite chars_of_app, chars_of_cons.
    repeat (rewrite <- app_assoc; cbn [app]). reflexivity.
  - rewrite stored_cbeg at 1. rewrite !len_app. lia.
  - destruct Hwf as (_ & _ & _ & Hnames & _). rewrite Hn in Hnames.
    apply Forall_app in Hnames. destruct Hnames as (_ & Hnames).
    now inversion Hnames.
Qed.

(** The loop of [Save] that counts the characters. *)
Lemma Save_count_loop :
  forall (todo done : list (list Z)) (w : World),
    holds base j w ->
    names j = done ++ todo ->
    for_ (length todo) (len done)
      (fun i chars_count =>
         name <- joint_names_get i ;;
         n <- strlen name ;;
         ret (to_size_t
                (chars_count + to_size_t (to_size_t (n + 1) * sizeof_char))))
      (len (chars_of done)) w =
    (Ok (len (chars_of (names j))),
     with_examined
       (examined w ++ seqZ (cbeg + len (chars_of done)) (len (chars_of todo)))
       w).
Proof.
  induction todo as [|nm todo IH]; intros done w Hw Hn.
  - cbn [length for_]. unfold ret. rewrite app_nil_r in Hn. rewrite Hn.
    change (len (chars_of [])) with 0. rewrite seqZ_nil, app_nil_r.
    now destruct w.
  - cbn [length for_].
    pose proof (len_nonneg (chars_of done)). pose proof (len_nonneg nm).
    pose proof (len_nonneg (chars_of todo)).
    assert (Hc : len (chars_of (names j))
                 = len (chars_of done) + (len nm + 1) + len (chars_of todo)).
    { rewrite Hn, chars_of_app, len_app, len_chars_of_cons. lia. }
    assert (len (chars_of (names j)) < SIZE_MOD).
    { pose proof (len_nonneg (concat (bind_poses j))).
      pose proof (len_nonneg (ptrs cbeg (names j))).
      pose proof (len_nonneg parentsb).
      rewrite stored_image, !len_app in Hfit. lia. }
    erewrite bind_Ok.
    2:{ erewrite bind_Ok by (apply (stored_names_get w done todo nm Hw Hn)).
        erewrite bind_Ok
          by (apply strlen_eq; apply (stored_strlen w done todo nm Hw Hn)).
        unfold ret. reflexivity. }
    unfold sizeof_char. rewrite Z.mul_1_r.
    rewrite (to_size_t_small (len nm + 1)) by lia.
    rewrite (to_size_t_small (len nm + 1)) by lia.
    rewrite to_size_t_small by lia.
    replace (len (chars_of done) + (len nm + 1))
      with (len (chars_of (done ++ [nm])))
      by (rewrite chars_of_app, len_app, len_chars_of_cons;
          change (len (chars_of [])) with 0; lia).
    replace (len done + 1) with (len (done ++ [nm]))
      by (rewrite len_app, len_one; lia).
    rewrite IH.
    + f_equal. cbn [examined with_examined].
      apply World_eq; world_fields; try reflexivity.
      rewrite <- app_assoc. f_equal.
      rewrite len_chars_of_cons.
      rewrite (seqZ_app _ (len nm + 1) (len (chars_of todo))) by lia.
      f_equal. f_equal.
      rewrite chars_of_app, len_app, len_chars_of_cons.
      change (len (chars_of [])) with 0. lia.
    + destruct Hw as (Hsk & Har). split; [exact Hsk | exact Har].
    + rewrite <- app_assoc. exact Hn.
Qed.

Lemma stored_counts :
  Range_count sizeof_int16 (joint_parents_ (layout base N)) = N /\
  Range_count sizeof_SoaTransform (joint_bind_poses_ (layout base N))
  = block_count N.
Proof.
  pose proof block_size_pos. pose proof (block_count_pos N HN).
  unfold Range_count, layout. cbn [joint_parents_ joint_bind_poses_ begin end_].
  split.
  - replace (base + bind_poses_bytes N + names_bytes N + parents_bytes N
             - (base + bind_poses_bytes N + names_bytes N))
      with (parents_bytes N) by lia.
    unfold parents_bytes. rewrite Z.div_mul by (unfold sizeof_int16; lia).
    fold N in HN. destruct (N >? 0) eqn:E; [reflexivity | lia].
  - replace (base + bind_poses_bytes N - base) with (bind_poses_bytes N) by lia.
    unfold bind_poses_bytes. rewrite Z.div_mul by lia.
    destruct (block_count N >? 0) eqn:E; [reflexivity | lia].
Qed.

(** [Save] writes the count, the [int32_t] image of the character count,
    the characters, the parent indices and the bind poses. *)
Lemma Save_stored (w : World) :
  holds base j w -> N < 2 ^ 31 ->
  Save w =
  (Ok tt,
   with_oarchive
     (oarchive w ++ le_encode 4 N
        ++ le_encode 4 (to_int32 (len (chars_of (names j))))
        ++ chars_of (names j) ++ parentsb ++ concat (bind_poses j))
     (with_examined
        (examined w ++ seqZ cbeg (len (chars_of (names j)))) w)).
Proof.
  intros Hw HN31. pose proof Hw as (Hsk & Har).
  pose proof stored_counts as (HcP & HcB).
  pose proof stored_sizes as (Hs1 & Hs2 & Hs3 & Hs4 & Hs5).
  pose proof stored_len_names as HlN.
  assert (Hne : names j <> []).
  { intros E. rewrite E in HlN. change (len []) with 0 in HlN. fold N in HN. lia. }
  destruct (names j) as [|nm0 rest0] eqn:Hnames; [contradiction|]. clear Hne.
  rewrite <- Hnames in *.
  assert (HC : N <= len (chars_of (names j))).
  { rewrite <- HlN. apply len_chars_of_ge. }
  fold N in HN.
  unfold Save.
  unfold bind at 1. unfold num_joints.
  unfold bind at 1. unfold get_skeleton at 1. unfold ret at 1.
  rewrite Hsk. fold N. rewrite HcP.
  replace (to_int32 N) with N
    by (unfold to_int32; rewrite Z.mod_small; lia).
  unfold bind at 1. unfold archive_write_int32 at 1, archive_write at 1.
  destruct (Z.eqb_spec N 0); [lia|].
  set (w1 := with_oarchive _ w).
  assert (Hw1 : holds base j w1) by (split; [exact Hsk | exact Har]).
  pose proof (Save_count_loop (names j) [] w1 Hw1 eq_refl) as Hloop.
  change (len (@nil (list Z))) with 0 in Hloop.
  change (len (chars_of [])) with 0 in Hloop.
  rewrite Z.add_0_r in Hloop.
  replace (length (names j)) with (Z.to_nat N) in Hloop
    by (unfold len in HlN; lia).
  erewrite bind_Ok by exact Hloop. clear Hloop.
  set (w2 := with_examined _ w1).
  assert (Hw2 : holds base j w2) by (split; [exact Hsk | exact Har]).
  unfold bind at 1. unfold archive_write_int32 at 1, archive_write at 1.
  set (w3 := with_oarchive _ w2).
  assert (Hw3 : holds base j w3) by (split; [exact Hsk | exact Har]).
  pose proof (stored_names_get w3 [] rest0 nm0 Hw3 Hnames) as Hget.
  change (len (@nil (list Z))) with 0 in Hget.
  change (len (chars_of [])) with 0 in Hget.
  rewrite Z.add_0_r in Hget.
  erewrite bind_Ok by exact Hget. clear Hget.
  erewrite bind_Ok.
  2:{ unfold archive_write_array.
      destruct (Z.eqb_spec (len (chars_of (names j))) 0); [lia|].
      erewrite bind_Ok.
      2:{ apply mem_read_eq.
          eapply heap_read_arena_at
            with (pre := concat (bind_poses j) ++ ptrs cbeg (names j) ++ parentsb)
                 (x := chars_of (names j)) (post := []).
          - replace (_ ++ _) with (image base j); [exact Har|].
            rewrite stored_image, app_nil_r.
            repeat rewrite <- app_assoc. reflexivity.
          - apply stored_cbeg.
          - reflexivity.
          - lia. }
      reflexivity. }
  set (w4 := with_oarchive _ w3).
  unfold bind at 1. unfold get_skeleton at 1.
  replace (skeleton w4) with (layout base N) by (symmetry; exact Hsk).
  rewrite HcP, HcB.
  erewrite bind_Ok.
  2:{ unfold archive_write_array.
      fold (parents_bytes N). fold N in Hs3.
      destruct (Z.eqb_spec (parents_bytes N) 0);
        [unfold parents_bytes, sizeof_int16 in *; lia|].
      erewrite bind_Ok.
      2:{ apply mem_read_eq.
          eapply heap_read_arena_at
            with (pre := concat (bind_poses j) ++ ptrs cbeg (names j))
                 (x := parentsb) (post := chars_of (names j)).
          - replace (_ ++ _) with (image base j); [exact Har|].
            rewrite stored_image.
            repeat rewrite <- app_assoc. reflexivity.
          - cbn [layout joint_parents_ begin].
            rewrite len_app, stored_len_poses, len_ptrs, HlN.
            unfold names_bytes. lia.
          - symmetry. apply stored_len_parents.
          - unfold parents_bytes, sizeof_int16 in *. lia. }
      reflexivity. }
  set (w5 := with_oarchive _ w4).
  unfold archive_write_array.
  fold (bind_poses_bytes N).
  pose proof block_size_pos. pose proof (block_count_pos N HN).
  destruct (Z.eqb_spec (bind_poses_bytes N) 0);
    [unfold bind_poses_bytes in *; nia|].
  erewrite bind_Ok.
  2:{ apply mem_read_eq.
      eapply heap_read_arena_at
        with (pre := []) (x := concat (bind_poses j))
             (post := ptrs cbeg (names j) ++ parentsb ++ chars_of (names j)).
      - exact Har.
      - cbn [layout joint_bind_poses_ begin]. change (len []) with 0. lia.
      - symmetry. apply stored_len_poses.
      - unfold bind_poses_bytes. nia. }
  unfold archive_write. f_equal.
  subst w5 w4 w3 w2 w1.
  apply World_eq; world_fields; try reflexivity.
  repeat rewrite <- app_assoc. reflexivity.
Qed.

Lemma stored_tab_names (w : World) :
  holds base j w ->
  forall (todo done : list (list Z)),
    names j = done ++ todo ->
    tabulate (joint_name w) (len done) (length todo) = Some todo.
Proof.
  intros Hw. pose proof Hw as (Hsk & Har).
  induction todo as [|nm todo IH]; intros done Hn; [reflexivity|].
  cbn [length tabulate].
  replace (len done + 1) with (len (done ++ [nm]))
    by (rewrite len_app, len_one; lia).
  rewrite IH by (rewrite <- app_assoc; exact Hn).
  unfold joint_name. rewrite Hsk. cbn [layout joint_names_ begin]. fold N.
  rewrite (stored_ptr_read w done todo nm Hw Hn).
  rewrite decode_ptr by (apply (stored_ptr_range done todo nm Hn)).
  unfold c_string. rewrite (stored_strlen w done todo nm Hw Hn).
  erewrite heap_read_arena_gen_at
    with (base := base)
         (pre := concat (bind_poses j) ++ ptrs cbeg (names j) ++ parentsb
                   ++ chars_of done)
         (x := nm) (post := 0 :: chars_of todo).
  - reflexivity.
  - replace (_ ++ _) with (image base j); [exact Har|].
    rewrite stored_image. rewrite Hn at 2.
    rewrite chars_of_app, chars_of_cons.
    repeat (rewrite <- app_assoc; cbn [app]). reflexivity.
  - rewrite stored_cbeg at 1. rewrite !len_app. lia.
  - reflexivity.
  - rewrite len_app, len_cons. pose proof (len_nonneg nm).
    pose proof (len_nonneg (chars_of todo)). lia.
Qed.

Lemma stored_tab_parents (w : World) :
  holds base j w ->
  forall (todo done : list Z),
    parents j = done ++ todo ->
    tabulate (joint_parent w) (len done) (length todo) = Some todo.
Proof.
  intros Hw. pose proof Hw as (Hsk & Har).
  induction todo as [|p todo IH]; intros done Hn; [reflexivity|].
  cbn [length tabulate].
  replace (len done + 1) with (len (done ++ [p]))
    by (rewrite len_app, len_one; lia).
  rewrite IH by (rewrite <- app_assoc; exact Hn).
  unfold joint_parent. rewrite Hsk. cbn [layout joint_parents_ begin]. fold N.
  erewrite heap_read_arena_at
    with (base := base)
         (pre := concat (bind_poses j) ++ ptrs cbeg (names j)
                   ++ concat (map (le_encode 2) done))
         (x := le_encode 2 p)
         (post := concat (map (le_encode 2) todo) ++ chars_of (names j)).
  - cbn [option_map]. rewrite le_decode_encode, to_int16_mod; [reflexivity|].
    destruct Hwf as (_ & _ & _ & _ & Hpar). rewrite Hn in Hpar.
    apply Forall_app in Hpar. destruct Hpar as (_ & Hpar). now inversion Hpar.
  - replace (_ ++ _) with (image base j); [exact Har|].
    rewrite stored_image. unfold parentsb. rewrite Hn.
    rewrite map_app, concat_app. cbn [map concat].
    repeat rewrite <- app_assoc. reflexivity.
  - rewrite !len_app, stored_len_poses, len_ptrs, len_encoded, stored_len_names.
    unfold names_bytes, sizeof_int16. lia.
  - reflexivity.
  - unfold sizeof_int16. lia.
Qed.

Lemma stored_tab_poses (w : World) :
  holds base j w ->
  forall (todo done : list (list Z)),
    bind_poses j = done ++ todo ->
    tabulate (joint_bind_pose w) (len done) (length todo) = Some todo.
Proof.
  intros Hw. pose proof Hw as (Hsk & Har). pose proof block_size_pos.
  induction todo as [|p todo IH]; intros done Hn; [reflexivity|].
  cbn [length tabulate].
  replace (len done + 1) with (len (done ++ [p]))
    by (rewrite len_app, len_one; lia).
  rewrite IH by (rewrite <- app_assoc; exact Hn).
  destruct Hwf as (_ & _ & Hs & _). rewrite Hn in Hs.
  apply Forall_app in Hs. destruct Hs as (Hdone & Hs).
  inversion Hs as [|? ? Hp _]; subst.
  unfold joint_bind_pose. rewrite Hsk. cbn [layout joint_bind_poses_ begin].
  erewrite heap_read_arena_at
    with (base := base) (pre := concat done) (x := p)
         (post := concat todo ++ ptrs cbeg (names j) ++ parentsb
                    ++ chars_of (names j)).
  - reflexivity.
  - replace (_ ++ _) with (image base j); [exact Har|].
    rewrite stored_image, Hn, concat_app. cbn [concat].
    repeat rewrite <- app_assoc. reflexivity.
  - rewrite (len_concat_fixed sizeof_SoaTransform) by exact Hdone. lia.
  - symmetry. exact Hp.
  - lia.
Qed.

(** The accessors show the joints the arena is the image of. *)
Lemma snapshot_stored (w : World) : holds base j w -> snapshot w = Some j.
Proof.
  intros Hw. pose proof Hw as (Hsk & Har).
  pose proof stored_counts as (HcP & HcB).
  unfold snapshot. rewrite Hsk. fold N. rewrite HcP, HcB.
  pose proof stored_len_names as HlN.
  destruct Hwf as (Hnp & Hbc & _).
  pose proof (stored_tab_names w Hw (names j) [] eq_refl) as H1.
  pose proof (stored_tab_parents w Hw (parents j) [] eq_refl) as H2.
  pose proof (stored_tab_poses w Hw (bind_poses j) [] eq_refl) as H3.
  change (len []) with 0 in *.
  replace (Z.to_nat N) with (length (names j)) by (unfold len in HlN; lia).
  rewrite H1. rewrite Hnp, H2.
  replace (Z.to_nat (block_count N)) with (length (bind_poses j))
    by (unfold len in Hbc; fold N in Hbc; lia).
  rewrite H3. now destruct j.
Qed.

End Stored.

(** ** What a computation leaves alone, and how it cannot fail *)

Section Frames.
Context {B : Type} (f : World -> B).

Lemma keeps_ret {A} (a : A) : keeps f (ret a).
Proof. intros w. reflexivity. Qed.

Lemma keeps_fail {A} (e : Failure) : keeps f (@fail A e).
Proof. intros w. reflexivity. Qed.

Lemma keeps_bind {A C} (m : M A) (k : A -> M C) :
  keeps f m -> (forall a, keeps f (k a)) -> keeps f (bind m k).
Proof.
  intros Hm Hk w. unfold bind. specialize (Hm w).
  destruct (m w) as [[a|e] w1]; cbn [snd] in *.
  - now rewrite Hk.
  - exact Hm.
Qed.

Lemma keeps_for {A} (body : Z -> A -> M A) :
  (forall i a, keeps f (body i a)) ->
  forall n i a, keeps f (for_ n i body a).
Proof.
  intros Hb. induction n as [|n IH]; intros i a; cbn [for_].
  - apply keeps_ret.
  - apply keeps_bind; [apply Hb | intros a'; apply IH].
Qed.

Lemma keeps_assert a c : keeps f (assert_ a c).
Proof. unfold assert_. destruct c; [apply keeps_ret | apply keeps_fail]. Qed.

Lemma keeps_get_skeleton : keeps f get_skeleton.
Proof. intros w. reflexivity. Qed.

End Frames.

Section Never.
Variable e : Failure.

Lemma never_ret {A} (a : A) : never e (ret a).
Proof. intros w. discriminate. Qed.

Lemma never_bind {A C} (m : M A) (k : A -> M C) :
  never e m -> (forall a, never e (k a)) -> never e (bind m k).
Proof.
  intros Hm Hk w. unfold bind. specialize (Hm w).
  destruct (m w) as [[a|e'] w1]; cbn [fst] in *.
  - apply Hk.
  - intros H. apply Hm. inversion H. reflexivity.
Qed.

Lemma never_for {A} (body : Z -> A -> M A) :
  (forall i a, never e (body i a)) ->
  forall n i a, never e (for_ n i body a).
Proof.
  intros Hb. induction n as [|n IH]; intros i a; cbn [for_].
  - apply never_ret.
  - apply never_bind; [apply Hb | intros a'; apply IH].
Qed.

Lemma never_get_skeleton : never e get_skeleton.
Proof. intros w. discriminate. Qed.

Lemma never_modify_skeleton g : never e (modify_skeleton g).
Proof. intros w. discriminate. Qed.

Lemma never_assert_other a c : e <> AssertFailed a -> never e (assert_ a c).
Proof.
  intros Hne w. unfold assert_. destruct c; cbn; [discriminate|].
  intros H. inversion H. congruence.
Qed.

Lemma never_mem_read p n : e <> MemFault -> never e (mem_read p n).
Proof.
  intros Hne w. unfold mem_read. destruct (heap_read _ _ _); cbn;
    [discriminate | intros H; inversion H; congruence].
Qed.

Lemma never_mem_write p bs : e <> MemFault -> never e (mem_write p bs).
Proof.
  intros Hne w. unfold mem_write. destruct (heap_write _ _ _); cbn;
    [discriminate | intros H; inversion H; congruence].
Qed.

Lemma never_strlen p : e <> MemFault -> never e (strlen p).
Proof.
  intros Hne w. unfold strlen. destruct (heap_strlen _ _) as [[|] n]; cbn;
    [discriminate | intros H; inversion H; congruence].
Qed.

Lemma never_archive_read n : e <> StreamError -> never e (archive_read n).
Proof.
  intros Hne w. unfold archive_read. destruct (_ && _); cbn;
    [discriminate | intros H; inversion H; congruence].
Qed.

Lemma never_archive_read_array p n :
  e <> StreamError -> e <> MemFault -> never e (archive_read_array p n).
Proof.
  intros H1 H2. unfold archive_read_array. destruct (n =? 0).
  - apply never_ret.
  - apply never_bind; [now apply never_archive_read|].
    intros bs. now apply never_mem_write.
Qed.

Lemma never_joint_names_set {P : Platform} i p :
  e <> MemFault -> never e (joint_names_set i p).
Proof.
  intros H. unfold joint_names_set, joint_names_at.
  apply never_bind.
  - apply never_bind; [apply never_get_skeleton | intros; apply never_ret].
  - intros a. now apply never_mem_write.
Qed.

Lemma never_joint_names_get {P : Platform} i :
  e <> MemFault -> never e (joint_names_get i).
Proof.
  intros H. unfold joint_names_get, joint_names_at.
  apply never_bind.
  - apply never_bind; [apply never_get_skeleton | intros; apply never_ret].
  - intros a. apply never_bind; [now apply never_mem_read|].
    intros; apply never_ret.
Qed.

End Never.

Section Keeps_calls.
Context {P : Platform}.

Lemma keeps_calls_mem_read p n : keeps alloc_calls (mem_read p n).
Proof. intros w. unfold mem_read. now destruct (heap_read _ _ _). Qed.

Lemma keeps_calls_mem_write p bs : keeps alloc_calls (mem_write p bs).
Proof. intros w. unfold mem_write. now destruct (heap_write _ _ _). Qed.

Lemma keeps_calls_strlen p : keeps alloc_calls (strlen p).
Proof.
  intros w. unfold strlen. now destruct (heap_strlen _ _) as [[|] n].
Qed.

Lemma keeps_calls_archive_read n : keeps alloc_calls (archive_read n).
Proof. intros w. unfold archive_read. now destruct (_ && _). Qed.

Lemma keeps_calls_modify_skeleton g : keeps alloc_calls (modify_skeleton g).
Proof. intros w. reflexivity. Qed.

Lemma keeps_calls_archive_read_array p n :
  keeps alloc_calls (archive_read_array p n).
Proof.
  unfold archive_read_array. destruct (n =? 0).
  - apply keeps_ret.
  - apply keeps_bind; [apply keeps_calls_archive_read|].
    intros bs. apply keeps_calls_mem_write.
Qed.

Lemma keeps_calls_joint_names_set i p : keeps alloc_calls (joint_names_set i p).
Proof.
  unfold joint_names_set, joint_names_at.
  apply keeps_bind.
  - apply keeps_bind; [apply keeps_get_skeleton | intros; apply keeps_ret].
  - intros a. apply keeps_calls_mem_write.
Qed.

Lemma keeps_calls_joint_names_get i : keeps alloc_calls (joint_names_get i).
Proof.
  unfold joint_names_get, joint_names_at.
  apply keeps_bind.
  - apply keeps_bind; [apply keeps_get_skeleton | intros; apply keeps_ret].
  - intros a. apply keeps_bind; [apply keeps_calls_mem_read|].
    intros; apply keeps_ret.
Qed.

End Keeps_calls.

Lemma keeps_after {A C B} (f : World -> B) (m : M A) (k : A -> M C) w :
  (forall a, keeps f (k a)) -> f (snd (bind m k w)) = f (snd (m w)).
Proof.
  intros Hk. unfold bind. destruct (m w) as [[a|e] w1]; cbn [snd].
  - apply Hk.
  - reflexivity.
Qed.

Lemma never_after {A C} (e : Failure) (m : M A) (k : A -> M C) w :
  fst (m w) <> Fail e -> (forall a, never e (k a)) ->
  fst (bind m k w) <> Fail e.
Proof.
  intros Hm Hk. unfold bind. destruct (m w) as [[a|e'] w1]; cbn [fst] in *.
  - apply Hk.
  - intros H. apply Hm. inversion H. reflexivity.
Qed.

(** ** Allocate inside Load *)

Section Allocate_calls.
Context {P : Platform}.

(** What follows the request in [Allocate] leaves the allocator alone. *)
Lemma Allocate_calls (c n : Z) (w : World) :
  store_empty w -> n <> 0 ->
  alloc_calls (run (Allocate c n) w) =
  alloc_calls w ++ [CallAllocate (buffer_size c n) alignof_SoaTransform].
Proof.
  intros He Hn. unfold run, Allocate.
  unfold bind at 1. unfold get_skeleton.
  unfold bind at 1. rewrite (store_empty_assert w He).
  unfold assert_ at 1, ret at 1.
  destruct (Z.eqb_spec n 0); [contradiction|].
  rewrite keeps_after.
  - unfold allocator_Allocate. destruct (_ && _); reflexivity.
  - intros buffer.
    repeat first
      [ apply keeps_ret
      | apply keeps_calls_modify_skeleton
      | apply keeps_assert
      | apply keeps_bind; [|intros ?] ].
Qed.

Lemma Allocate_assert_store_empty (c n : Z) (w : World) :
  store_empty w ->
  outcome (Allocate c n) w <> Fail (AssertFailed assert_store_empty).
Proof.
  intros He. unfold outcome, Allocate.
  unfold bind at 1. unfold get_skeleton.
  unfold bind at 1. rewrite (store_empty_assert w He).
  unfold assert_ at 1, ret at 1.
  destruct (n =? 0); [cbn; discriminate|].
  apply never_after.
  - unfold allocator_Allocate. destruct (_ && _); cbn; discriminate.
  - intros buffer.
    repeat first
      [ apply never_ret
      | apply never_modify_skeleton
      | apply never_assert_other; discriminate
      | apply never_bind; [|intros ?] ].
Qed.

Lemma Load_tail_keeps_calls n c cursor :
  keeps alloc_calls (Load_tail n c cursor).
Proof.
  unfold Load_tail.
  repeat first
    [ apply keeps_ret
    | apply keeps_get_skeleton
    | apply keeps_calls_archive_read_array
    | apply keeps_calls_joint_names_set
    | apply keeps_calls_joint_names_get
    | apply keeps_calls_strlen
    | apply keeps_for; intros ? ?
    | apply keeps_bind; [|intros ?] ].
Qed.

Lemma Load_tail_never_asserts a n c cursor :
  never (AssertFailed a) (Load_tail n c cursor).
Proof.
  unfold Load_tail.
  repeat first
    [ apply never_ret
    | apply never_get_skeleton
    | apply never_archive_read_array; discriminate
    | apply never_joint_names_set; discriminate
    | apply never_joint_names_get; discriminate
    | apply never_strlen; discriminate
    | apply never_for; intros ? ?
    | apply never_bind; [|intros ?] ].
Qed.

(** [Load] up to the call of [Allocate], on a supported version and a
    record with joints. *)
Lemma Load_reaches_Allocate (n c : Z) (rest : list Z) (w : World) :
  - 2 ^ 31 <= n < 2 ^ 31 -> n <> 0 -> - 2 ^ 31 <= c < 2 ^ 31 ->
  iarchive w = le_encode 4 n ++ le_encode 4 c ++ rest ->
  Load 2 w =
  bind (Allocate (to_size_t c) (to_size_t n)) (Load_tail n c)
    (with_iarchive rest (run Deallocate w)).
Proof.
  intros Hn Hn0 Hc Hi. unfold Load, run.
  erewrite bind_Ok by apply Deallocate_eq.
  rewrite Deallocate_eq. cbn [negb Z.eqb Pos.eqb snd].
  erewrite bind_Ok by (apply archive_read_int32_eq; [exact Hi | exact Hn]).
  destruct (Z.eqb_spec n 0); [contradiction|].
  erewrite bind_Ok by (apply archive_read_int32_eq; [reflexivity | exact Hc]).
  reflexivity.
Qed.

End Allocate_calls.

Section Conversions.
Context {P : Platform} {ok : PlatformOk P}.

Lemma to_size_t_negative n :
  - 2 ^ 31 <= n < 0 -> to_size_t n = SIZE_MOD + n /\ to_size_t n <> 0.
Proof.
  intros Hn. pose proof SIZE_MOD_wide.
  assert (E : to_size_t n = SIZE_MOD + n).
  { unfold to_size_t. symmetry. apply (Z.mod_unique_pos _ _ (-1)); lia. }
  split; [exact E | lia].
Qed.

End Conversions.

Section Loaded_facts.
Context {P : Platform} {ok : PlatformOk P}.

Lemma loaded_holds (j : Joints) (rest : list Z) (w : World) :
  holds (align_up (brk w) alignof_SoaTransform) j (loaded j rest w).
Proof. split; [reflexivity | apply arena_at_head]. Qed.

Lemma room_base (size : Z) (w : World) :
  0 <= size -> has_room size w ->
  0 < align_up (brk w) alignof_SoaTransform /\
  align_up (brk w) alignof_SoaTransform + size < SIZE_MOD.
Proof.
  intros Hs (Hb & Hr).
  pose proof (align_up_bounds (brk w) _ alignof_SoaTransform_pos). lia.
Qed.

Lemma len_chars_of_removelast (ns : list (list Z)) :
  ns <> [] ->
  len (chars_of (removelast ns)) + (len (last ns []) + 1) = len (chars_of ns).
Proof.
  intros H. destruct (names_split ns H) as (init & l & ->).
  rewrite removelast_last, last_last, chars_of_app, len_app, len_chars_of_cons.
  change (len (chars_of [])) with 0. lia.
Qed.

End Loaded_facts.

Section Round_trip_facts.
Context {P : Platform} {ok : PlatformOk P}.

Lemma no_joint (j : Joints) :
  well_formed j -> joint_count j = 0 ->
  j = {| names := []; parents := []; bind_poses := [] |}.
Proof.
  intros (Hl & Hb & _) H0. destruct j as [ns ps bs]. unfold joint_count in *.
  cbn [names parents bind_poses] in *.
  rewrite H0 in Hb. change (block_count 0) with 0 in Hb.
  destruct ps; [|unfold len in H0; cbn in H0; lia].
  destruct ns; [|discriminate].
  destruct bs; [reflexivity | unfold len in Hb; cbn in Hb; lia].
Qed.

Lemma skipn_written (old new : list Z) :
  skipn (length old) (old ++ new) = new.
Proof. now rewrite skipn_app, skipn_all, Nat.sub_diag. Qed.

End Round_trip_facts.

(** ** A name too long for the record *)

Lemma service_world_iarchive {P : Platform} size w :
  iarchive (service_world size w) = iarchive w.
Proof.
  unfold service_world, allocator_Allocate. destruct (_ && _); reflexivity.
Qed.

Lemma long_name_ok : name_ok long_name /\ len long_name = 2 ^ 31 - 1.
Proof.
  split.
  - apply Forall_forall. intros c Hc. apply repeat_spec in Hc. subst c.
    unfold is_byte. lia.
  - unfold long_name, len. rewrite repeat_length, Z2Nat.id; lia.
Qed.

(** A store of one joint whose name has 2^31 - 1 characters is saved, and
    the record it is saved as does not load. *)
Lemma named_round_trip_overflow (nm : list Z) :
  name_ok nm -> len nm = 2 ^ 31 - 1 ->
  let j := joints_named nm in
  let w := world_named nm in
  well_formed (P := LP64) j /\
  joint_count j = 1 /\
  Forall (fun p => -1 <= p <= joint_count j - 1) (parents j) /\
  stored (P := LP64) w j /\
  outcome (Save (P := LP64)) w = Ok tt /\
  outcome (Load (P := LP64) 2)
    (with_iarchive
       (skipn (length (oarchive w)) (oarchive (run (Save (P := LP64)) w)))
       world0)
  = Fail StreamError.
Proof.
  intros Hnm Hlen. cbv zeta.
  assert (Hwf : well_formed (P := LP64) (joints_named nm)).
  { unfold well_formed. cbn [names parents bind_poses joints_named].
    split; [reflexivity|]. split; [reflexivity|].
    split; [repeat constructor|].
    split; [constructor; [exact Hnm | constructor]|].
    constructor; [lia | constructor]. }
  assert (HC : len (chars_of (names (joints_named nm))) = 2 ^ 31).
  { cbn [names joints_named]. rewrite len_chars_of_cons, Hlen.
    change (len (chars_of [])) with 0. lia. }
  assert (Hfit : 4096 + len (image (P := LP64) 4096 (joints_named nm))
                 < SIZE_MOD (P := LP64)).
  { rewrite (stored_len_image (ok := LP64_ok) 4096 _ Hwf), HC. reflexivity. }
  assert (Hh : holds (P := LP64) 4096 (joints_named nm) (world_named nm)).
  { split; [reflexivity | apply arena_at_head]. }
  assert (HS := Save_stored (ok := LP64_ok) 4096 (joints_named nm) Hwf
                  eq_refl eq_refl Hfit (world_named nm) Hh eq_refl).
  rewrite HC in HS.
  split; [exact Hwf|]. split; [reflexivity|].
  split.
  { change (joint_count (joints_named nm)) with 1.
    cbn [parents joints_named]. constructor; [lia | constructor]. }
  split.
  { unfold stored. change (joint_count (joints_named nm) =? 0) with false.
    cbv iota. exists 4096. destruct Hh as (H1 & H2).
    split; [reflexivity|]. split; [exact Hfit|]. split; assumption. }
  unfold outcome, run. rewrite HS. cbn [fst snd oarchive with_oarchive].
  split; [reflexivity|].
  change (oarchive (world_named nm)) with (@nil Z). cbn [length skipn app].
  change (joint_count (joints_named nm)) with 1.
  change (to_int32 (2 ^ 31)) with (- 2 ^ 31).
  set (rest := chars_of (names (joints_named nm))
               ++ concat (map (le_encode 2) (parents (joints_named nm)))
               ++ concat (bind_poses (joints_named nm))).
  rewrite (Load_reaches_Allocate (P := LP64) 1 (- 2 ^ 31) rest
             (with_iarchive (le_encode 4 1 ++ le_encode 4 (- 2 ^ 31) ++ rest)
                world0)
             ltac:(lia) ltac:(lia) ltac:(lia) eq_refl).
  unfold run. rewrite Deallocate_eq. cbn [snd].
  set (w2 := with_iarchive rest _).
  change (to_size_t (P := LP64) (- 2 ^ 31)) with 18446744071562067968.
  change (to_size_t (P := LP64) 1) with 1.
  erewrite bind_Ok.
  2:{ apply (Allocate_eq (ok := LP64_ok) 18446744071562067968 1 w2);
        [lia | lia | reflexivity | repeat split; reflexivity]. }
  set (w4 := with_skeleton _ _).
  unfold Load_tail.
  erewrite bind_Fail; [reflexivity|].
  unfold archive_read_array.
  change (to_size_t (P := LP64) (- 2 ^ 31)) with 18446744071562067968.
  change (18446744071562067968 =? 0) with false. cbv iota.
  erewrite bind_Fail; [reflexivity|].
  unfold archive_read.
  assert (Hi : iarchive w4 = rest).
  { subst w4. cbn [iarchive with_skeleton]. rewrite service_world_iarchive.
    reflexivity. }
  rewrite Hi.
  assert (Hl : len rest = 2 ^ 31 + 162).
  { subst rest. rewrite !len_app, HC. reflexivity. }
  rewrite Hl. reflexivity.
Qed.

(** * The claims *)

(** ** The scenarios of the specification *)

(** The two scenarios of the specification: one joint "root" without
    parent, in one block; five joints in two blocks. *)
Example scenario_A :
  snapshot (P := LP64) world1 = Some joints1 /\
  outcome num_joints world1 = Ok 1 /\
  Range_count (sizeof_SoaTransform (Platform := LP64))
    (joint_bind_poses_ (skeleton world1)) = 1.
Proof. repeat split; vm_compute; reflexivity. Qed.

Example scenario_B :
  snapshot (P := LP64) world5 = Some joints5 /\
  outcome num_joints world5 = Ok 5 /\
  Range_count (sizeof_SoaTransform (Platform := LP64))
    (joint_bind_poses_ (skeleton world5)) = 2.
Proof. repeat split; vm_compute; reflexivity. Qed.

(** ** C1: round trip *)

(** C1, as amended. A store that holds well-formed joints [j], at most 1000
    of them, with parent indices in [-1, N-1], any names without null bytes
    and any bind-pose blocks, is saved as the record of [j]; when the names
    with their terminators take less than 2^31 bytes (the [chars_count]
    field is an [int32_t]) and the allocation service can serve the arena,
    loading that record into any store, followed by any bytes [rest], ends
    well, reads the record and nothing more, and leaves a store whose
    accessors show [j] again: the same count, names, parent indices and
    bind-pose bytes. *)
Theorem round_trip {P : Platform} {ok : PlatformOk P}
  (j : Joints) (w w0 : World) (rest : list Z) :
  well_formed j ->
  joint_count j <= 1000 ->
  Forall (fun p => -1 <= p <= joint_count j - 1) (parents j) ->
  len (chars_of (names j)) < 2 ^ 31 ->
  stored w j ->
  has_room (arena_bytes (len (chars_of (names j))) (joint_count j)) w0 ->
  let written := skipn (length (oarchive w)) (oarchive (run Save w)) in
  let w1 := with_iarchive (written ++ rest) w0 in
  let w' := run (Load 2) w1 in
  outcome Save w = Ok tt /\
  snapshot w = Some j /\
  written = record_of j /\
  outcome (Load 2) w1 = Ok tt /\
  snapshot w' = Some j /\
  outcome num_joints w' = outcome num_joints w /\
  stored w' j /\
  iarchive w' = rest.
Proof.
  intros Hwf HN Hpar HC Hst Hroom. cbv zeta.
  pose proof (len_nonneg (parents j)) as HN0. fold (joint_count j) in HN0.
  unfold stored in Hst.
  destruct (Z.eqb_spec (joint_count j) 0) as [E0|Hne].
  - (* no joint *)
    pose proof (no_joint j Hwf E0) as Ej.
    assert (Hc0 : Range_count sizeof_int16 (joint_parents_ (skeleton w)) = 0)
      by (rewrite Hst; reflexivity).
    unfold run, outcome. rewrite (Save_empty w Hc0).
    cbn [fst snd oarchive with_oarchive]. rewrite skipn_written.
    assert (Hrec : record_of j = [0; 0; 0; 0])
      by (unfold record_of; rewrite E0; reflexivity).
    rewrite (Load_empty_record (with_iarchive ([0; 0; 0; 0] ++ rest) w0) rest)
      by reflexivity.
    unfold run. rewrite Deallocate_eq. cbn [fst snd].
    split; [reflexivity|].
    split; [unfold snapshot; rewrite Hst, Ej; reflexivity|].
    split; [now rewrite Hrec|].
    split; [reflexivity|].
    split; [rewrite Ej; reflexivity|].
    split; [unfold outcome, num_joints, bind, get_skeleton, ret; cbn;
            now rewrite Hst|].
    split; [|reflexivity].
    unfold stored. rewrite E0. reflexivity.
  - (* a populated store *)
    destruct Hst as (base & Hb0 & Hfit & Hsk & Har).
    assert (HN1 : 0 < joint_count j) by lia.
    assert (Hh : holds base j w) by (split; assumption).
    pose proof (len_nonneg (chars_of (names j))) as HC0.
    assert (Hw : skipn (length (oarchive w)) (oarchive (run Save w))
                 = record_of j).
    { unfold run.
      rewrite (Save_stored base j Hwf HN1 Hb0 Hfit w Hh) by lia.
      cbn [snd oarchive with_oarchive]. rewrite skipn_written.
      unfold record_of. destruct (Z.eqb_spec (joint_count j) 0); [lia|].
      replace (to_int32 (len (chars_of (names j))))
        with (len (chars_of (names j)))
        by (unfold to_int32; rewrite Z.mod_small; lia).
      reflexivity. }
    rewrite Hw.
    split.
    { unfold outcome.
      now rewrite (Save_stored base j Hwf HN1 Hb0 Hfit w Hh) by lia. }
    split; [apply (snapshot_stored base j Hwf HN1 Hb0 Hfit w Hh)|].
    split; [reflexivity|].
    set (w1 := with_iarchive (record_of j ++ rest) w0).
    assert (Hroom1 : has_room
                       (arena_bytes (len (chars_of (names j))) (joint_count j))
                       w1) by exact Hroom.
    assert (HL := Load_record j rest w1 Hwf ltac:(lia) HC eq_refl Hroom1).
    unfold run, outcome. rewrite HL. cbn [fst snd].
    assert (HT0 : 0 <= arena_bytes (len (chars_of (names j))) (joint_count j)).
    { rewrite <- (stored_len_image 0 j Hwf). apply len_nonneg. }
    destruct (room_base _ w1 HT0 Hroom1) as (Hb1 & Hbfit).
    set (b1 := align_up (brk w1) alignof_SoaTransform) in *.
    assert (Hfit1 : b1 + len (image b1 j) < SIZE_MOD)
      by (rewrite (stored_len_image b1 j Hwf); exact Hbfit).
    pose proof (loaded_holds j rest w1) as Hh1. fold b1 in Hh1.
    split; [reflexivity|].
    split; [apply (snapshot_stored b1 j Hwf HN1 Hb1 Hfit1 _ Hh1)|].
    split.
    { unfold outcome, num_joints, bind, get_skeleton, ret.
      cbn [fst skeleton loaded]. rewrite Hsk.
      destruct (stored_counts base j HN1) as (E1 & _).
      destruct (stored_counts b1 j HN1) as (E2 & _).
      fold b1. now rewrite E1, E2. }
    split; [|reflexivity].
    unfold stored. destruct (Z.eqb_spec (joint_count j) 0); [lia|].
    exists b1. destruct Hh1 as (Hs1 & Ha1). repeat split; assumption.
Qed.

(** A round trip of five joints (one of them with an empty name) into a
    store that was populated before. *)
Lemma round_trip_witness :
  let j := joints5 in
  let w := world5 in
  let w0 := world1 in
  let rest := [42] in
  let written :=
    skipn (length (oarchive w)) (oarchive (run (Save (P := LP64)) w)) in
  let w1 := with_iarchive (written ++ rest) w0 in
  let w' := run (Load (P := LP64) 2) w1 in
  outcome (Save (P := LP64)) w = Ok tt /\
  snapshot (P := LP64) w = Some j /\
  written = record_of j /\
  outcome (Load (P := LP64) 2) w1 = Ok tt /\
  snapshot (P := LP64) w' = Some j /\
  outcome num_joints w' = outcome num_joints w /\
  stored (P := LP64) w' j /\
  iarchive w' = rest.
Proof.
  apply (round_trip (ok := LP64_ok) joints5 world5 world1 [42]).
  - check_joints.
  - discriminate.
  - repeat constructor; discriminate.
  - reflexivity.
  - unfold stored. change (joint_count joints5 =? 0) with false. cbv iota.
    exists 4096.
    split; [reflexivity|]. split; [reflexivity|]. split; [reflexivity|].
    exists [], []. split; [vm_compute; reflexivity | constructor].
  - split; [reflexivity | discriminate].
Defined.

(** C1 as stated fails: a store of one joint whose name has 2^31 - 1
    letters is saved with [chars_count] cast to the [int32_t] -2^31 and the
    2^31 bytes of the name; [Load] turns -2^31 into a [size_t], asks for
    that many bytes of names and runs off the end of the stream. *)
Lemma round_trip_overflow :
  let j := joints_named long_name in
  let w := world_named long_name in
  well_formed (P := LP64) j /\
  joint_count j = 1 /\
  Forall (fun p => -1 <= p <= joint_count j - 1) (parents j) /\
  stored (P := LP64) w j /\
  outcome (Save (P := LP64)) w = Ok tt /\
  outcome (Load (P := LP64) 2)
    (with_iarchive
       (skipn (length (oarchive w)) (oarchive (run (Save (P := LP64)) w)))
       world0)
  = Fail StreamError.
Proof.
  exact (named_round_trip_overflow long_name (proj1 long_name_ok)
           (proj2 long_name_ok)).
Qed.

(** ** C2: the name pointers *)

(** C2. Loading the record of well-formed joints [j] (at least one, counts
    within [int32_t]) when the allocation service can serve the arena: the
    character region is the last [charBytes] bytes of the arena and holds the
    names as the stream gave them; the pointer of each joint is the start of
    the region plus, for every earlier name, its length and one terminator,
    the last joint included; and [std::strlen] examined exactly the bytes of
    all names but the last, terminators included, starting at the beginning
    of the region: every examined address lies inside the region, and none
    of the last name's [len + 1] bytes was examined. *)
Theorem Load_reconstructs_names {P : Platform} {ok : PlatformOk P}
  (j : Joints) (rest : list Z) (w : World) :
  well_formed j ->
  0 < joint_count j < 2 ^ 31 ->
  len (chars_of (names j)) < 2 ^ 31 ->
  iarchive w = record_of j ++ rest ->
  has_room (arena_bytes (len (chars_of (names j))) (joint_count j)) w ->
  let w' := run (Load 2) w in
  let base := align_up (brk w) alignof_SoaTransform in
  let cursor := chars_begin base (joint_count j) in
  let charBytes := len (chars_of (names j)) in
  let scanned := len (chars_of (removelast (names j))) in
  outcome (Load 2) w = Ok tt /\
  heap w' = (base, image base j) :: heap (run Deallocate w) /\
  cursor + charBytes = base + len (image base j) /\
  heap_read (heap w') cursor charBytes = Some (chars_of (names j)) /\
  (forall done nm todo,
      names j = done ++ nm :: todo ->
      outcome (joint_names_get (len done)) w'
      = Ok (cursor + len (chars_of done))) /\
  examined w' = examined w ++ seqZ cursor scanned /\
  scanned + (len (last (names j) []) + 1) = charBytes /\
  (forall a, In a (seqZ cursor scanned) -> cursor <= a < cursor + charBytes).
Proof.
  intros Hwf HN HC Hi Hroom. cbv zeta.
  pose proof (len_nonneg (chars_of (names j))) as HC0.
  assert (HT0 : 0 <= arena_bytes (len (chars_of (names j))) (joint_count j)).
  { rewrite <- (stored_len_image 0 j Hwf). apply len_nonneg. }
  destruct (room_base _ w HT0 Hroom) as (Hb0 & Hbfit).
  set (base := align_up (brk w) alignof_SoaTransform) in *.
  assert (Hli := stored_len_image base j Hwf).
  assert (Hfit : base + len (image base j) < SIZE_MOD) by (rewrite Hli; exact Hbfit).
  assert (Hne : names j <> []).
  { intros E. destruct Hwf as (Hl & _). rewrite E in Hl.
    unfold joint_count, len in HN. rewrite <- Hl in HN. cbn in HN. lia. }
  pose proof (len_chars_of_removelast (names j) Hne) as Hrl.
  pose proof (len_nonneg (chars_of (removelast (names j)))).
  pose proof (len_nonneg (last (names j) [])).
  unfold run, outcome.
  rewrite (Load_record j rest w Hwf HN HC Hi Hroom).
  cbn [fst snd].
  pose proof (loaded_holds j rest w) as Hh. fold base in Hh.
  assert (Hcb := stored_cbeg base j Hwf).
  split; [reflexivity|]. split; [reflexivity|].
  split.
  { rewrite Hli. unfold chars_begin, arena_bytes. lia. }
  split.
  { eapply heap_read_arena_at
      with (base := base)
           (pre := concat (bind_poses j)
                     ++ ptrs (chars_begin base (joint_count j)) (names j)
                     ++ concat (map (le_encode 2) (parents j)))
           (post := []).
    - replace (_ ++ _) with (image base j); [apply arena_at_head|].
      rewrite (stored_image base j), app_nil_r.
      repeat rewrite <- app_assoc. reflexivity.
    - exact Hcb.
    - reflexivity.
    - lia. }
  split.
  { intros done nm todo Hn.
    rewrite (stored_names_get base j Hwf Hb0 Hfit _ done todo nm Hh Hn).
    reflexivity. }
  split; [reflexivity|].
  split; [exact Hrl|].
  intros a Ha. apply In_seqZ in Ha. lia.
Qed.

Lemma Load_reconstructs_names_witness :
  let j := joints5 in
  let rest := [42] in
  let w := with_iarchive (record_of j ++ rest) world1 in
  let w' := run (Load (P := LP64) 2) w in
  let base := align_up (brk w) alignof_SoaTransform in
  let cursor := chars_begin base (joint_count j) in
  let charBytes := len (chars_of (names j)) in
  let scanned := len (chars_of (removelast (names j))) in
  outcome (Load (P := LP64) 2) w = Ok tt /\
  heap w' = (base, image base j) :: heap (run Deallocate w) /\
  cursor + charBytes = base + len (image base j) /\
  heap_read (heap w') cursor charBytes = Some (chars_of (names j)) /\
  (forall done nm todo,
      names j = done ++ nm :: todo ->
      outcome (joint_names_get (len done)) w'
      = Ok (cursor + len (chars_of done))) /\
  examined w' = examined w ++ seqZ cursor scanned /\
  scanned + (len (last (names j) []) + 1) = charBytes /\
  (forall a, In a (seqZ cursor scanned) -> cursor <= a < cursor + charBytes).
Proof.
  apply (Load_reconstructs_names (ok := LP64_ok) joints5 [42]
           (with_iarchive (record_of joints5 ++ [42]) world1)).
  - check_joints.
  - split; reflexivity.
  - reflexivity.
  - reflexivity.
  - split; [reflexivity | discriminate].
Defined.

(** ** C3: version rejection *)

(** C3. With a version other than 2, whatever the stream holds, [Load] ends
    well after logging the version: the stream is left unread, the only call
    to the allocation service is the release made by [Deallocate] (no
    allocation, the bump pointer has not moved), and the store is empty, so
    [num_joints()] is 0. *)
Theorem Load_rejects_version {P : Platform} (v : Z) (w : World) :
  v <> 2 ->
  let w' := run (Load v) w in
  outcome (Load v) w = Ok tt /\
  log_Err w' = log_Err w ++ [v] /\
  iarchive w' = iarchive w /\
  alloc_calls w' =
    alloc_calls w ++ [CallDeallocate (begin (joint_bind_poses_ (skeleton w)))] /\
  brk w' = brk w /\
  skeleton w' = Skeleton_empty /\
  outcome num_joints w' = Ok 0.
Proof.
  intros Hv. unfold run, outcome. rewrite (Load_unsupported v w Hv).
  unfold run. rewrite Deallocate_eq. cbn. repeat split; reflexivity.
Qed.

Lemma Load_rejects_version_witness :
  let w := with_iarchive [1; 0; 0; 0; 9] world0 in
  let w' := run (Load (P := LP64) 3) w in
  outcome (Load (P := LP64) 3) w = Ok tt /\
  log_Err w' = log_Err w ++ [3] /\
  iarchive w' = iarchive w /\
  alloc_calls w' =
    alloc_calls w ++ [CallDeallocate (begin (joint_bind_poses_ (skeleton w)))] /\
  brk w' = brk w /\
  skeleton w' = Skeleton_empty /\
  outcome num_joints w' = Ok 0.
Proof.
  apply (Load_rejects_version (P := LP64) 3 (with_iarchive [1; 0; 0; 0; 9] world0)).
  discriminate.
Defined.

(** ** C4: no joint, no allocation *)

(** C4. On an empty store [Allocate(c, 0)] returns [NULL] and changes
    nothing, whatever [c]: no call reaches the allocation service and the
    three regions stay empty. *)
Theorem Allocate_no_joint {P : Platform} (c : Z) (w : World) :
  store_empty w ->
  Allocate c 0 w = (Ok NULL, w) /\ store_empty (run (Allocate c 0) w).
Proof.
  intros He.
  assert (E : Allocate c 0 w = (Ok NULL, w)).
  { unfold Allocate, bind, get_skeleton, assert_.
    rewrite (store_empty_assert w He). reflexivity. }
  split; [exact E|]. unfold run. rewrite E. exact He.
Qed.

Lemma Allocate_no_joint_witness :
  Allocate (P := LP64) 7 0 world0 = (Ok NULL, world0) /\
  store_empty (run (Allocate (P := LP64) 7 0) world0).
Proof.
  apply (Allocate_no_joint (P := LP64) 7 world0).
  repeat split; reflexivity.
Defined.

(** ** C5: clearing the store *)

(** C5, as amended. [Deallocate] always ends well with the three region
    views empty, after passing [joint_bind_poses_.begin] to the allocation
    service's release, whether it is null or not: exactly one call is
    recorded, and the heap loses a block only for a non-null pointer. A
    second [Deallocate] changes neither the store nor the heap, and passes
    [NULL] to the service. *)
Theorem Deallocate_clears (w : World) :
  let block := begin (joint_bind_poses_ (skeleton w)) in
  let w' := run Deallocate w in
  outcome Deallocate w = Ok tt /\
  alloc_calls w' = alloc_calls w ++ [CallDeallocate block] /\
  heap w' = (if block =? NULL then heap w else release block (heap w)) /\
  skeleton w' = Skeleton_empty /\
  store_empty w' /\
  outcome Deallocate w' = Ok tt /\
  skeleton (run Deallocate w') = skeleton w' /\
  heap (run Deallocate w') = heap w' /\
  alloc_calls (run Deallocate w') = alloc_calls w' ++ [CallDeallocate NULL].
Proof.
  unfold run, outcome. rewrite !Deallocate_eq. cbn.
  repeat split; reflexivity.
Qed.

(** C5 as stated fails: on an empty store [Deallocate] does call the
    allocation service (with [NULL]); the source has no test before the
    call. *)
Lemma Deallocate_empty_store_calls_release :
  skeleton world0 = Skeleton_empty /\
  alloc_calls world0 = [] /\
  alloc_calls (run Deallocate world0) = [CallDeallocate NULL] /\
  ~ (forall w, skeleton w = Skeleton_empty ->
               alloc_calls (run Deallocate w) = alloc_calls w).
Proof.
  repeat split; try reflexivity.
  intros H. specialize (H world0 eq_refl). discriminate H.
Qed.

(** ** C6: the sizes *)

(** C6, as amended. For a joint count [n > 0] and [c] bytes of names whose
    region sizes sum to less than [SIZE_MAX + 1], [Allocate] on an empty
    store computes [ceil(n / 4)] blocks, the bind-pose, name-view and
    parent-index sizes as the products of counts and element sizes, and
    makes exactly one request, of the sum of the three sizes and [c], at the
    alignment of a bind-pose block. *)
Theorem Allocate_sizing {P : Platform} {ok : PlatformOk P}
  (c n : Z) (w : World) :
  0 < n -> 0 <= c -> arena_bytes c n < SIZE_MOD -> store_empty w ->
  4 * (block_count n - 1) < n <= 4 * block_count n /\
  joint_bind_poses_size n = block_count n * sizeof_SoaTransform /\
  names_size n = n * sizeof_ptr /\
  joint_parents_size n = n * sizeof_int16 /\
  buffer_size c n =
    joint_bind_poses_size n + names_size n + joint_parents_size n + c /\
  alloc_calls (run (Allocate c n) w) =
    alloc_calls w ++ [CallAllocate (buffer_size c n) alignof_SoaTransform].
Proof.
  intros Hn Hc Hfit He.
  destruct (sizes_exact c n Hn Hc Hfit) as (E1 & E2 & E3 & E4).
  split; [apply block_count_ceil|].
  split; [exact E1|]. split; [exact E2|]. split; [exact E3|].
  split.
  - rewrite E1, E2, E3, E4. reflexivity.
  - apply Allocate_calls; [exact He | lia].
Qed.

Lemma Allocate_sizing_witness :
  4 * (block_count 5 - 1) < 5 <= 4 * block_count 5 /\
  joint_bind_poses_size (P := LP64) 5 = block_count 5 * sizeof_SoaTransform /\
  names_size (P := LP64) 5 = 5 * sizeof_ptr /\
  joint_parents_size (P := LP64) 5 = 5 * sizeof_int16 /\
  buffer_size (P := LP64) 15 5 =
    joint_bind_poses_size 5 + names_size 5 + joint_parents_size 5 + 15 /\
  alloc_calls (run (Allocate (P := LP64) 15 5) world0) =
    alloc_calls world0 ++ [CallAllocate (buffer_size 15 5) alignof_SoaTransform].
Proof.
  apply (Allocate_sizing (ok := LP64_ok) 15 5 world0).
  - reflexivity.
  - discriminate.
  - reflexivity.
  - repeat split; reflexivity.
Defined.

(** C6 as stated fails when the [size_t] arithmetic wraps: for
    [n = 2^64 - 1] (what [Load] passes for a joint count of -1) on the 64-bit
    platform, [(n + 3) / 4] is 0 blocks instead of 2^62, and the request is
    of 2^64 - 10 bytes. *)
Lemma Allocate_sizing_overflow :
  let n := 2 ^ 64 - 1 in
  0 < n < SIZE_MOD (P := LP64) /\
  store_empty world0 /\
  block_count n = 2 ^ 62 /\
  joint_bind_poses_size (P := LP64) n = 0 /\
  joint_bind_poses_size (P := LP64) n <> block_count n * sizeof_SoaTransform /\
  names_size (P := LP64) n = 2 ^ 64 - 8 /\
  joint_parents_size (P := LP64) n = 2 ^ 64 - 2 /\
  alloc_calls (run (Allocate (P := LP64) 0 n) world0) =
    [CallAllocate (2 ^ 64 - 10) 16] /\
  arena_bytes (P := LP64) 0 n = 2 ^ 62 * 160 + n * 8 + n * 2 + 0 /\
  arena_bytes (P := LP64) 0 n <> 2 ^ 64 - 10.
Proof.
  cbv zeta. repeat split; try reflexivity; try discriminate.
Qed.

(** ** C7: layout and alignment *)

(** C7. For [n > 0] joints and [c] bytes of names whose arena fits
    [size_t], [Allocate] on an empty store ends well (its three alignment
    assertions hold) with the bind-pose array at the address the service
    returned, the name-view array where the bind poses end, the parent-index
    array where the name views end, and the returned cursor where the parent
    indices end, [c] bytes before the end of the arena: address order, no
    padding. Each of the three arrays starts at a multiple of its element
    alignment. The heap gains the arena block, unless the service answered
    [NULL]. *)
Theorem Allocate_layout {P : Platform} {ok : PlatformOk P}
  (c n : Z) (w : World) :
  0 < n -> 0 <= c -> arena_bytes c n < SIZE_MOD -> store_empty w ->
  let buffer := service_block (buffer_size c n) w in
  let s := skeleton (run (Allocate c n) w) in
  let cursor := end_ (joint_parents_ s) in
  outcome (Allocate c n) w = Ok cursor /\
  heap (run (Allocate c n) w) =
    (if buffer =? NULL then heap w
     else (buffer, fresh_bytes w buffer (buffer_size c n)) :: heap w) /\
  begin (joint_bind_poses_ s) = buffer /\
  end_ (joint_bind_poses_ s) = begin (joint_names_ s) /\
  end_ (joint_names_ s) = begin (joint_parents_ s) /\
  cursor + c = buffer + buffer_size c n /\
  end_ (joint_bind_poses_ s) - begin (joint_bind_poses_ s)
    = block_count n * sizeof_SoaTransform /\
  end_ (joint_names_ s) - begin (joint_names_ s) = n * sizeof_ptr /\
  end_ (joint_parents_ s) - begin (joint_parents_ s) = n * sizeof_int16 /\
  begin (joint_bind_poses_ s) < begin (joint_names_ s)
    < begin (joint_parents_ s) /\
  begin (joint_parents_ s) < cursor /\
  (alignof_SoaTransform | begin (joint_bind_poses_ s)) /\
  (alignof_ptr | begin (joint_names_ s)) /\
  (alignof_int16 | begin (joint_parents_ s)) /\
  IsAligned (begin (joint_bind_poses_ s)) alignof_SoaTransform = true /\
  IsAligned (begin (joint_names_ s)) alignof_ptr = true /\
  IsAligned (begin (joint_parents_ s)) alignof_int16 = true.
Proof.
  intros Hn Hc Hfit He. cbv zeta.
  destruct (sizes_exact c n Hn Hc Hfit) as (E1 & E2 & E3 & E4).
  unfold run, outcome. rewrite (Allocate_eq c n w Hn Hc Hfit He), E4.
  set (b := service_block (arena_bytes c n) w).
  pose proof (service_block_aligned (arena_bytes c n) w) as Ha. fold b in Ha.
  pose proof ptr_wide. pose proof block_size_pos.
  pose proof (block_count_pos n Hn).
  cbn [fst snd skeleton with_skeleton layout joint_bind_poses_ joint_names_
       joint_parents_ begin end_ heap].
  assert (D2 : (alignof_ptr | b + bind_poses_bytes n)).
  { apply Z.divide_add_r.
    - eapply Z.divide_trans; [apply ptr_divides_block_align | exact Ha].
    - unfold bind_poses_bytes. apply Z.divide_mul_r.
      eapply Z.divide_trans; [apply ptr_divides_block_align |].
      apply block_size_aligned. }
  assert (D3 : (alignof_int16 | b + bind_poses_bytes n + names_bytes n)).
  { eapply Z.divide_trans; [apply int16_divides_ptr_align |].
    apply Z.divide_add_r; [exact D2|].
    unfold names_bytes. apply Z.divide_mul_r, ptr_size_aligned. }
  assert (Hheap : heap (service_world (arena_bytes c n) w) =
                  if b =? NULL then heap w
                  else (b, fresh_bytes w b (arena_bytes c n)) :: heap w).
  { unfold service_world, allocator_Allocate. subst b. unfold service_block.
    destruct (_ && _) eqn:E; cbn [snd heap with_brk with_heap].
    - apply andb_true_iff in E. destruct E as (E & _). apply Z.ltb_lt in E.
      destruct (Z.eqb_spec (align_up (brk w) alignof_SoaTransform) NULL) as [E'|_];
        [unfold NULL in E'; lia | reflexivity].
    - reflexivity. }
  unfold arena_bytes in *.
  unfold bind_poses_bytes, names_bytes, parents_bytes in *.
  unfold sizeof_int16 in *.
  repeat split; try lia; try assumption.
  - apply IsAligned_divide; [apply block_align_pow2 | exact Ha].
  - apply IsAligned_divide; [apply ptr_align_pow2 | exact D2].
  - apply IsAligned_divide; [exists 1; split; [lia | reflexivity] | exact D3].
Qed.

Lemma Allocate_layout_witness :
  let c := 15 in
  let n := 5 in
  let w := world0 in
  let buffer := service_block (P := LP64) (buffer_size c n) w in
  let s := skeleton (run (Allocate (P := LP64) c n) w) in
  let cursor := end_ (joint_parents_ s) in
  outcome (Allocate (P := LP64) c n) w = Ok cursor /\
  heap (run (Allocate (P := LP64) c n) w) =
    (if buffer =? NULL then heap w
     else (buffer, fresh_bytes w buffer (buffer_size c n)) :: heap w) /\
  begin (joint_bind_poses_ s) = buffer /\
  end_ (joint_bind_poses_ s) = begin (joint_names_ s) /\
  end_ (joint_names_ s) = begin (joint_parents_ s) /\
  cursor + c = buffer + buffer_size c n /\
  end_ (joint_bind_poses_ s) - begin (joint_bind_poses_ s)
    = block_count n * sizeof_SoaTransform /\
  end_ (joint_names_ s) - begin (joint_names_ s) = n * sizeof_ptr /\
  end_ (joint_parents_ s) - begin (joint_parents_ s) = n * sizeof_int16 /\
  begin (joint_bind_poses_ s) < begin (joint_names_ s)
    < begin (joint_parents_ s) /\
  begin (joint_parents_ s) < cursor /\
  (alignof_SoaTransform | begin (joint_bind_poses_ s)) /\
  (alignof_ptr | begin (joint_names_ s)) /\
  (alignof_int16 | begin (joint_parents_ s)) /\
  IsAligned (begin (joint_bind_poses_ s)) alignof_SoaTransform = true /\
  IsAligned (begin (joint_names_ s)) alignof_ptr = true /\
  IsAligned (begin (joint_parents_ s)) alignof_int16 = true.
Proof.
  apply (Allocate_layout (ok := LP64_ok) 15 5 world0).
  - reflexivity.
  - discriminate.
  - reflexivity.
  - repeat split; reflexivity.
Defined.

(** ** C8: the empty record *)

(** C8. [Save] on a store without joints ends well having written the four
    bytes of the [int32_t] 0 and nothing else, and changes nothing else;
    [Load] of that record with version 2, followed by any bytes [rest], ends
    well with an empty store, [rest] unread, and no allocation: the only
    call to the service is the release made by [Deallocate]. *)
Theorem empty_record {P : Platform} (w w0 : World) (rest : list Z) :
  Range_count sizeof_int16 (joint_parents_ (skeleton w)) = 0 ->
  let written := skipn (length (oarchive w)) (oarchive (run Save w)) in
  let w1 := with_iarchive (written ++ rest) w0 in
  let w' := run (Load 2) w1 in
  outcome Save w = Ok tt /\
  run Save w = with_oarchive (oarchive w ++ le_encode 4 0) w /\
  written = le_encode 4 0 /\
  outcome (Load 2) w1 = Ok tt /\
  skeleton w' = Skeleton_empty /\
  outcome num_joints w' = Ok 0 /\
  alloc_calls w' =
    alloc_calls w0 ++ [CallDeallocate (begin (joint_bind_poses_ (skeleton w0)))] /\
  brk w' = brk w0 /\
  iarchive w' = rest.
Proof.
  intros H. cbv zeta. unfold run, outcome.
  rewrite (Save_empty w H). cbn [fst snd oarchive with_oarchive].
  rewrite skipn_app, skipn_all, Nat.sub_diag. cbn [skipn app].
  rewrite (Load_empty_record _ rest) by reflexivity.
  unfold run. rewrite Deallocate_eq. cbn.
  repeat split; reflexivity.
Qed.

Lemma empty_record_witness :
  let w := world0 in
  let w0 := world1 in
  let rest := [5; 6] in
  let written :=
    skipn (length (oarchive w)) (oarchive (run (Save (P := LP64)) w)) in
  let w1 := with_iarchive (written ++ rest) w0 in
  let w' := run (Load (P := LP64) 2) w1 in
  outcome (Save (P := LP64)) w = Ok tt /\
  run (Save (P := LP64)) w = with_oarchive (oarchive w ++ le_encode 4 0) w /\
  written = le_encode 4 0 /\
  outcome (Load (P := LP64) 2) w1 = Ok tt /\
  skeleton w' = Skeleton_empty /\
  outcome num_joints w' = Ok 0 /\
  alloc_calls w' =
    alloc_calls w0 ++ [CallDeallocate (begin (joint_bind_poses_ (skeleton w0)))] /\
  brk w' = brk w0 /\
  iarchive w' = rest.
Proof.
  apply (empty_record (P := LP64) world0
           world1
           [5; 6]).
  reflexivity.
Defined.

(** ** C9: a negative joint count *)

(** C9. When the stream starts with a negative [int32_t] joint count [n]
    and an [int32_t] [c], [Load] with version 2 does not stop at the
    emptiness test: it reads [c] and calls [Allocate] with [n] converted to
    the [size_t] [SIZE_MAX + 1 + n], on the cleared store; the allocation
    service receives the request computed from that count. *)
Theorem Load_negative_num_joints {P : Platform} {ok : PlatformOk P}
  (n c : Z) (rest : list Z) (w : World) :
  - 2 ^ 31 <= n < 0 -> - 2 ^ 31 <= c < 2 ^ 31 ->
  iarchive w = le_encode 4 n ++ le_encode 4 c ++ rest ->
  to_size_t n = SIZE_MOD + n /\
  Load 2 w =
    bind (Allocate (to_size_t c) (SIZE_MOD + n)) (Load_tail n c)
      (with_iarchive rest (run Deallocate w)) /\
  alloc_calls (run (Load 2) w) =
    alloc_calls w
    ++ [CallDeallocate (begin (joint_bind_poses_ (skeleton w)));
        CallAllocate (buffer_size (to_size_t c) (SIZE_MOD + n))
          alignof_SoaTransform].
Proof.
  intros Hn Hc Hi.
  destruct (to_size_t_negative n Hn) as (E & E0).
  assert (HL := Load_reaches_Allocate n c rest w ltac:(lia) ltac:(lia) Hc Hi).
  rewrite E in HL.
  split; [exact E|]. split; [exact HL|].
  pose proof (Allocate_calls (to_size_t c) (SIZE_MOD + n)
                (with_iarchive rest (run Deallocate w))) as HA.
  unfold run in *. rewrite HL.
  rewrite (keeps_after alloc_calls) by (intros a; apply Load_tail_keeps_calls).
  rewrite HA.
  - rewrite Deallocate_eq. world_fields. now rewrite <- app_assoc.
  - rewrite Deallocate_eq. repeat split; reflexivity.
  - lia.
Qed.

Lemma Load_negative_num_joints_witness :
  let n := -1 in
  let c := 10 in
  let rest := [1; 2; 3] in
  let w := with_iarchive (le_encode 4 n ++ le_encode 4 c ++ rest) world1 in
  to_size_t (P := LP64) n = SIZE_MOD + n /\
  Load (P := LP64) 2 w =
    bind (Allocate (to_size_t c) (SIZE_MOD + n)) (Load_tail n c)
      (with_iarchive rest (run Deallocate w)) /\
  alloc_calls (run (Load (P := LP64) 2) w) =
    alloc_calls w
    ++ [CallDeallocate (begin (joint_bind_poses_ (skeleton w)));
        CallAllocate (buffer_size (to_size_t c) (SIZE_MOD + n))
          alignof_SoaTransform].
Proof.
  apply (Load_negative_num_joints (ok := LP64_ok) (-1) 10 [1; 2; 3]
           (with_iarchive (le_encode 4 (-1) ++ le_encode 4 10 ++ [1; 2; 3])
              world1)).
  - lia.
  - lia.
  - reflexivity.
Defined.

(** ** C10: the precondition of Allocate on the load path *)

(** The assertion is a real one: on a populated store [Allocate] stops on
    it. *)
Example Allocate_asserts_store_empty :
  outcome (Allocate (P := LP64) 5 1) world1
  = Fail (AssertFailed assert_store_empty).
Proof. reflexivity. Qed.

(** C10. Whatever the store held, [Deallocate] leaves the three region
    views empty; whenever [Load] gets as far as [Allocate] (version 2, a
    joint count other than 0, and the [chars_count] field present), it calls
    it in the world [Deallocate] left, where the three views are still
    empty; and no [Load], of any version and any stream, ends on the failure
    of [Allocate]'s empty-store assertion. *)
Theorem Load_meets_Allocate_precondition {P : Platform} (v : Z) (w : World) :
  store_empty (run Deallocate w) /\
  (forall n c rest,
      - 2 ^ 31 <= n < 2 ^ 31 -> n <> 0 -> - 2 ^ 31 <= c < 2 ^ 31 ->
      iarchive w = le_encode 4 n ++ le_encode 4 c ++ rest ->
      Load 2 w =
        bind (Allocate (to_size_t c) (to_size_t n)) (Load_tail n c)
          (with_iarchive rest (run Deallocate w)) /\
      store_empty (with_iarchive rest (run Deallocate w))) /\
  outcome (Load v) w <> Fail (AssertFailed assert_store_empty).
Proof.
  assert (He : store_empty (run Deallocate w)).
  { unfold run. rewrite Deallocate_eq. repeat split; reflexivity. }
  split; [exact He|]. split.
  { intros n c rest Hn Hn0 Hc Hi.
    split; [now apply Load_reaches_Allocate | exact He]. }
  unfold outcome, Load.
  erewrite bind_Ok by apply Deallocate_eq.
  set (w1 := with_skeleton _ _).
  assert (He1 : store_empty w1) by (repeat split; reflexivity).
  destruct (negb (v =? 2)); [cbn; discriminate|].
  unfold archive_read_int32.
  unfold bind at 1. unfold bind at 1. unfold archive_read at 1.
  destruct (_ && _); [|cbn; discriminate].
  unfold ret at 1.
  destruct (_ =? 0); [cbn; discriminate|].
  set (w2 := with_iarchive _ w1).
  unfold bind at 1. unfold bind at 1. unfold archive_read at 1.
  destruct (_ && _); [|cbn; discriminate].
  unfold ret at 1.
  set (w3 := with_iarchive _ w2).
  apply never_after.
  - apply (Allocate_assert_store_empty _ _ w3). exact He1.
  - intros cursor. apply Load_tail_never_asserts.
Qed.

(** A load of five joints into a store that holds one. *)
Lemma Load_meets_Allocate_precondition_witness :
  let w := with_iarchive (record_of joints5) world1 in
  store_empty (run Deallocate w) /\
  (Load (P := LP64) 2 w =
     bind (Allocate (to_size_t 15) (to_size_t 5)) (Load_tail 5 15)
       (with_iarchive (skipn 8 (record_of joints5)) (run Deallocate w)) /\
   store_empty (with_iarchive (skipn 8 (record_of joints5))
                  (run Deallocate w))) /\
  outcome (Load (P := LP64) 2) w <> Fail (AssertFailed assert_store_empty).
Proof.
  cbv zeta.
  destruct (Load_meets_Allocate_precondition (P := LP64) 2
              (with_iarchive (record_of joints5) world1)) as (H1 & H2 & H3).
  split; [exact H1|]. split; [|exact H3].
  apply (H2 5 15 (skipn 8 (record_of joints5))).
  - split; [discriminate | reflexivity].
  - discriminate.
  - split; [discriminate | reflexivity].
  - reflexivity.
Defined.

(** * Further properties of the member functions *)

(** ** What Save leaves alone *)

Section Grows.
Context {B : Type} (f : World -> list B).

Lemma grows_keeps {A} (m : M A) : keeps f m -> grows f m.
Proof. intros H w. exists []. rewrite app_nil_r. apply H. Qed.

Lemma grows_bind {A C} (m : M A) (k : A -> M C) :
  grows f m -> (forall a, grows f (k a)) -> grows f (bind m k).
Proof.
  intros Hm Hk w. unfold bind. specialize (Hm w).
  destruct (m w) as [[a|e] w1]; cbn [snd] in *.
  - destruct Hm as (s1 & E1). destruct (Hk a w1) as (s2 & E2).
    exists (s1 ++ s2). now rewrite E2, E1, app_assoc.
  - exact Hm.
Qed.

Lemma grows_for {A} (body : Z -> A -> M A) :
  (forall i a, grows f (body i a)) -> forall n i a, grows f (for_ n i body a).
Proof.
  intros Hb. induction n as [|n IH]; intros i a; cbn [for_].
  - apply grows_keeps, keeps_ret.
  - apply grows_bind; [apply Hb | intros a'; apply IH].
Qed.

End Grows.

Section Save_frame.
Context {P : Platform}.

Lemma keeps_unsaved_mem_read p n : keeps unsaved (mem_read p n).
Proof. intros w. unfold mem_read. destruct (heap_read _ _ _); reflexivity. Qed.

Lemma keeps_unsaved_strlen p : keeps unsaved (strlen p).
Proof.
  intros w. unfold strlen. destruct (heap_strlen _ _) as [[|] n]; reflexivity.
Qed.

Lemma keeps_unsaved_archive_write bs : keeps unsaved (archive_write bs).
Proof. intros w. reflexivity. Qed.

Lemma keeps_unsaved_joint_names_get i : keeps unsaved (joint_names_get i).
Proof.
  unfold joint_names_get, joint_names_at.
  repeat first
    [ apply keeps_ret | apply keeps_get_skeleton | apply keeps_unsaved_mem_read
    | apply keeps_bind; [|intros ?] ].
Qed.

Lemma keeps_unsaved_archive_write_array p n :
  keeps unsaved (archive_write_array p n).
Proof.
  unfold archive_write_array. destruct (n =? 0); [apply keeps_ret|].
  apply keeps_bind; [apply keeps_unsaved_mem_read | intros ?].
  apply keeps_unsaved_archive_write.
Qed.

Lemma Save_keeps_unsaved : keeps unsaved Save.
Proof.
  unfold Save, num_joints, archive_write_int32.
  apply keeps_bind; [|intros n].
  { apply keeps_bind; [apply keeps_get_skeleton | intros ?; apply keeps_ret]. }
  apply keeps_bind; [apply keeps_unsaved_archive_write | intros _].
  destruct (n =? 0); [apply keeps_ret|].
  repeat first
    [ apply keeps_ret
    | apply keeps_get_skeleton
    | apply keeps_unsaved_archive_write
    | apply keeps_unsaved_archive_write_array
    | apply keeps_unsaved_joint_names_get
    | apply keeps_unsaved_strlen
    | apply keeps_for; intros ? ?
    | apply keeps_bind; [|intros ?] ].
Qed.

Lemma grows_oarchive_mem_read p n : grows oarchive (mem_read p n).
Proof.
  apply grows_keeps. intros w. unfold mem_read.
  destruct (heap_read _ _ _); reflexivity.
Qed.

Lemma grows_oarchive_strlen p : grows oarchive (strlen p).
Proof.
  apply grows_keeps. intros w. unfold strlen.
  destruct (heap_strlen _ _) as [[|] n]; reflexivity.
Qed.

Lemma grows_oarchive_archive_write bs : grows oarchive (archive_write bs).
Proof. intros w. exists bs. reflexivity. Qed.

Lemma grows_oarchive_joint_names_get i : grows oarchive (joint_names_get i).
Proof.
  unfold joint_names_get, joint_names_at.
  repeat first
    [ apply grows_keeps, keeps_ret
    | apply grows_keeps, keeps_get_skeleton
    | apply grows_oarchive_mem_read
    | apply grows_bind; [|intros ?] ].
Qed.

Lemma grows_oarchive_archive_write_array p n :
  grows oarchive (archive_write_array p n).
Proof.
  unfold archive_write_array. destruct (n =? 0); [apply grows_keeps, keeps_ret|].
  apply grows_bind; [apply grows_oarchive_mem_read | intros ?].
  apply grows_oarchive_archive_write.
Qed.

Lemma Save_tail_grows n : grows oarchive (Save_tail n).
Proof.
  unfold Save_tail. destruct (n =? 0); [apply grows_keeps, keeps_ret|].
  unfold archive_write_int32.
  repeat first
    [ apply grows_keeps, keeps_ret
    | apply grows_keeps, keeps_get_skeleton
    | apply grows_oarchive_archive_write
    | apply grows_oarchive_archive_write_array
    | apply grows_oarchive_joint_names_get
    | apply grows_oarchive_strlen
    | apply grows_for; intros ? ?
    | apply grows_bind; [|intros ?] ].
Qed.

End Save_frame.

(** X1. [Save] is [const] in earnest. On any store and heap, populated,
    empty or inconsistent, and whether it ends well or on a fault, it leaves
    the three views, the heap, the allocation service (no call, the bump
    pointer where it was), the error log and the input archive as it found
    them; the output archive keeps what it held and gains, first, the four
    bytes of [num_joints()]. *)
Theorem Save_is_const {P : Platform} (w : World) :
  let w' := run Save w in
  let n := to_int32 (Range_count sizeof_int16 (joint_parents_ (skeleton w))) in
  skeleton w' = skeleton w /\
  heap w' = heap w /\
  brk w' = brk w /\
  alloc_calls w' = alloc_calls w /\
  log_Err w' = log_Err w /\
  iarchive w' = iarchive w /\
  exists more, oarchive w' = oarchive w ++ le_encode 4 n ++ more.
Proof.
  cbv zeta.
  pose proof (Save_keeps_unsaved w) as H. unfold unsaved in H.
  injection H as H1 H2 H3 H4 H5 H6. unfold run.
  repeat (split; [assumption|]).
  set (n := to_int32 _).
  assert (E : Save w =
              Save_tail n (with_oarchive (oarchive w ++ le_encode 4 n) w))
    by reflexivity.
  rewrite E.
  destruct (Save_tail_grows n (with_oarchive (oarchive w ++ le_encode 4 n) w))
    as (s & Hs).
  exists s. rewrite Hs. cbn [oarchive with_oarchive]. now rewrite app_assoc.
Qed.

(** ** What Load leaves alone *)

Section Keeps_outputs.
Context {P : Platform}.

Lemma keeps_out_mem_read p n :
  keeps outputs (mem_read p n).
Proof. intros w. unfold mem_read. now destruct (heap_read _ _ _). Qed.

Lemma keeps_out_mem_write p bs :
  keeps outputs (mem_write p bs).
Proof. intros w. unfold mem_write. now destruct (heap_write _ _ _). Qed.

Lemma keeps_out_strlen p : keeps outputs (strlen p).
Proof. intros w. unfold strlen. now destruct (heap_strlen _ _) as [[|] n]. Qed.

Lemma keeps_out_archive_read n :
  keeps outputs (archive_read n).
Proof. intros w. unfold archive_read. now destruct (_ && _). Qed.

Lemma keeps_out_modify_skeleton g :
  keeps outputs (modify_skeleton g).
Proof. intros w. reflexivity. Qed.

Lemma keeps_out_allocator_Allocate size a :
  keeps outputs (allocator_Allocate size a).
Proof. intros w. unfold allocator_Allocate. now destruct (_ && _). Qed.

Lemma keeps_out_allocator_Deallocate b :
  keeps outputs (allocator_Deallocate b).
Proof. intros w. unfold allocator_Deallocate. now destruct (_ =? _). Qed.

Ltac keeps_out :=
  repeat first
    [ apply keeps_ret
    | apply keeps_get_skeleton
    | apply keeps_assert
    | apply keeps_out_mem_read
    | apply keeps_out_mem_write
    | apply keeps_out_strlen
    | apply keeps_out_archive_read
    | apply keeps_out_modify_skeleton
    | apply keeps_out_allocator_Allocate
    | apply keeps_out_allocator_Deallocate
    | apply keeps_for; intros ? ?
    | apply keeps_bind; [|intros ?] ].

Lemma keeps_out_Deallocate :
  keeps outputs Deallocate.
Proof. unfold Deallocate. keeps_out. Qed.

Lemma keeps_out_Allocate c n :
  keeps outputs (Allocate c n).
Proof.
  unfold Allocate.
  apply keeps_bind; [apply keeps_get_skeleton | intros s].
  apply keeps_bind; [apply keeps_assert | intros _].
  destruct (n =? 0); keeps_out.
Qed.

Lemma keeps_out_Load_tail n c cursor :
  keeps outputs (Load_tail n c cursor).
Proof.
  unfold Load_tail, archive_read_array, joint_names_set, joint_names_get,
    joint_names_at.
  repeat first
    [ match goal with |- context [if ?b then _ else _] => destruct b end
    | progress keeps_out ].
Qed.

Lemma keeps_out_Load_2 :
  keeps outputs (Load 2).
Proof.
  unfold Load. cbn [negb Z.eqb Pos.eqb].
  apply keeps_bind; [apply keeps_out_Deallocate | intros _].
  unfold archive_read_int32.
  apply keeps_bind; [keeps_out | intros n].
  destruct (n =? 0); [apply keeps_ret|].
  apply keeps_bind; [keeps_out | intros c].
  apply keeps_bind; [apply keeps_out_Allocate | intros cursor].
  apply (keeps_out_Load_tail n c cursor).
Qed.

End Keeps_outputs.

Lemma Allocate_calls_at_most_one {P : Platform} (c n : Z) (w : World) :
  store_empty w ->
  alloc_calls (run (Allocate c n) w) = alloc_calls w \/
  alloc_calls (run (Allocate c n) w) =
    alloc_calls w ++ [CallAllocate (buffer_size c n) alignof_SoaTransform].
Proof.
  intros He. destruct (Z.eq_dec n 0) as [->|Hn].
  - left. unfold run, Allocate, bind, get_skeleton, assert_.
    now rewrite (store_empty_assert w He).
  - right. now apply Allocate_calls.
Qed.

(** The calls [Load] makes to the allocation service, whatever it reads. *)
Lemma Load_2_calls {P : Platform} (w : World) (Q : list AllocCall -> Prop) :
  let release := CallDeallocate (begin (joint_bind_poses_ (skeleton w))) in
  Q (alloc_calls w ++ [release]) ->
  (forall size,
      Q (alloc_calls w ++ [release; CallAllocate size alignof_SoaTransform])) ->
  Q (alloc_calls (run (Load 2) w)).
Proof.
  cbv zeta. intros Q1 Q2.
  assert (Hd : alloc_calls (run Deallocate w) =
               alloc_calls w
               ++ [CallDeallocate (begin (joint_bind_poses_ (skeleton w)))]).
  { unfold run. rewrite Deallocate_eq. reflexivity. }
  assert (He : store_empty (run Deallocate w)).
  { unfold run. rewrite Deallocate_eq. repeat split; reflexivity. }
  unfold run in Hd, He. rewrite Deallocate_eq in Hd, He. cbn [snd] in Hd, He.
  rewrite <- Hd in Q1.
  unfold run, Load. cbn [negb Z.eqb Pos.eqb].
  erewrite bind_Ok by apply Deallocate_eq.
  set (w1 := with_skeleton _ _) in *.
  unfold archive_read_int32.
  unfold bind at 1. unfold bind at 1. unfold archive_read at 1.
  destruct (_ && _); [|exact Q1].
  unfold ret at 1.
  destruct (_ =? 0); [exact Q1|].
  set (w2 := with_iarchive _ w1).
  unfold bind at 1. unfold bind at 1. unfold archive_read at 1.
  destruct (_ && _); [|exact Q1].
  unfold ret at 1.
  set (w3 := with_iarchive _ w2).
  rewrite (keeps_after alloc_calls)
    by (intros a; apply Load_tail_keeps_calls).
  match goal with
  | |- context [Allocate ?c ?n w3] =>
      destruct (Allocate_calls_at_most_one c n w3 He) as [E|E];
      unfold run in E; rewrite E
  end.
  - exact Q1.
  - change (alloc_calls w3) with (alloc_calls w1).
    rewrite Hd, <- app_assoc. apply Q2.
Qed.

(** X12. What [Load] does to the world whatever the version, the stream
    and the store are, and however it ends. It never writes to the output
    archive; it logs only for a version other than 2, and then the version;
    and the calls it makes to the allocation service are the release of
    [joint_bind_poses_.begin], first, followed by at most one request, at
    the alignment of a bind-pose block. *)
Theorem Load_calls_the_service {P : Platform} (v : Z) (w : World) :
  let w' := run (Load v) w in
  let release := CallDeallocate (begin (joint_bind_poses_ (skeleton w))) in
  oarchive w' = oarchive w /\
  log_Err w' = (if v =? 2 then log_Err w else log_Err w ++ [v]) /\
  (alloc_calls w' = alloc_calls w ++ [release] \/
   exists size,
     alloc_calls w' =
       alloc_calls w ++ [release; CallAllocate size alignof_SoaTransform]).
Proof.
  cbv zeta.
  destruct (Z.eqb_spec v 2) as [->|Hv].
  - pose proof (keeps_out_Load_2 w) as Hk. unfold outputs in Hk.
    injection Hk as Ho Hl. unfold run at 1 2.
    split; [exact Ho|]. split; [exact Hl|].
    apply (Load_2_calls w
             (fun l =>
                l = alloc_calls w
                    ++ [CallDeallocate (begin (joint_bind_poses_ (skeleton w)))]
                \/ exists size,
                    l = alloc_calls w
                        ++ [CallDeallocate
                              (begin (joint_bind_poses_ (skeleton w)));
                            CallAllocate size alignof_SoaTransform])).
    + left. reflexivity.
    + intros size. right. exists size. reflexivity.
  - unfold run. rewrite (Load_unsupported v w Hv). unfold run.
    rewrite Deallocate_eq. cbn.
    split; [reflexivity|]. split; [reflexivity|].
    left. reflexivity.
Qed.

(** ** Blocks that come and go *)

Lemma release_other (p : Z) (h : Heap) :
  Forall (fun b => fst b <> p) h -> release p h = h.
Proof.
  induction 1 as [|b h Hb _ IH]; [reflexivity|].
  unfold release in *. cbn [filter].
  destruct (Z.eqb_spec (fst b) p); [contradiction|]. cbn [negb].
  now rewrite IH.
Qed.

Lemma release_head (p : Z) (bs : list Z) (h : Heap) :
  release p ((p, bs) :: h) = release p h.
Proof. unfold release. cbn [filter fst]. now rewrite Z.eqb_refl. Qed.

Lemma Forall_release {Q : Z * list Z -> Prop} (p : Z) (h : Heap) :
  Forall Q h -> Forall Q (release p h).
Proof.
  intros H. unfold release. apply Forall_forall. intros b Hb.
  apply filter_In in Hb. destruct Hb as (Hb & _).
  revert b Hb. now apply Forall_forall.
Qed.

Lemma cleared_heap (w : World) :
  heap (run Deallocate w) =
  if begin (joint_bind_poses_ (skeleton w)) =? NULL then heap w
  else release (begin (joint_bind_poses_ (skeleton w))) (heap w).
Proof. unfold run. rewrite Deallocate_eq. reflexivity. Qed.

Lemma Forall_cleared_heap {Q : Z * list Z -> Prop} (w : World) :
  Forall Q (heap w) -> Forall Q (heap (run Deallocate w)).
Proof.
  intros H. rewrite cleared_heap.
  destruct (_ =? _); [exact H | now apply Forall_release].
Qed.

Lemma below_brk_other (w : World) (p : Z) :
  allocated_below_brk w -> brk w <= p ->
  Forall (fun b => fst b <> p) (heap w).
Proof.
  intros H Hp. eapply Forall_impl; [|exact H].
  intros b (H1 & H2). lia.
Qed.

Lemma below_brk_unallocated (w : World) (p : Z) :
  allocated_below_brk w -> brk w <= p -> unallocated (heap w) p.
Proof.
  intros H Hp. eapply Forall_impl; [|exact H].
  intros b (H1 & H2). unfold in_block.
  apply andb_false_iff. right. apply Z.ltb_ge. lia.
Qed.

Lemma heap_strlen_unallocated (h : Heap) (p : Z) :
  unallocated h p -> heap_strlen h p = (false, 0).
Proof.
  induction 1 as [|[b bs] h Hb _ IH]; [reflexivity|].
  cbn [heap_strlen]. cbn [fst snd] in Hb. now rewrite Hb.
Qed.

Lemma scan_terminator_none (l : list Z) :
  Forall (fun c => c <> 0) l -> scan_terminator l = (false, len l).
Proof.
  induction 1 as [|c l Hc _ IH]; [reflexivity|].
  cbn [scan_terminator]. destruct (Z.eqb_spec c 0); [contradiction|].
  rewrite IH, len_cons. f_equal. lia.
Qed.

(** [std::strlen] from where the bytes [x] start, when they hold no
    terminator and end the block: it runs off the block. *)
Lemma heap_strlen_off_block (h : Heap) (base : Z) (pre x : list Z) :
  Forall (fun c => c <> 0) x ->
  unallocated h (base + len pre + len x) ->
  heap_strlen ((base, pre ++ x) :: h) (base + len pre) = (false, len x).
Proof.
  intros Hx Hh. destruct x as [|c x].
  - cbn [heap_strlen]. rewrite app_nil_r.
    assert (E : in_block base pre (base + len pre) = false).
    { unfold in_block. apply andb_false_iff. right. apply Z.ltb_ge. lia. }
    rewrite E. change (len []) with 0 in *. rewrite Z.add_0_r in Hh.
    now apply heap_strlen_unallocated.
  - rewrite (heap_strlen_arena ((base, pre ++ c :: x) :: h) base pre (c :: x) []).
    + rewrite app_nil_r. now apply scan_terminator_none.
    + rewrite app_nil_r. apply arena_at_head.
    + rewrite len_cons. pose proof (len_nonneg x). lia.
Qed.



(** ** Records that are not well formed *)

Section Load_raw.
Context {P : Platform} {ok : PlatformOk P}.

(** [Load] of a record of [n] joints whose characters are [n - 1] names
    with their terminators followed by any bytes [tailc]: the names are laid
    out, the last pointer is set where [tailc] starts, and [tailc] is never
    examined. The parent indices [pb] and the bind poses [bb] are taken as
    they come. *)
Lemma Load_raw (n : Z) (init : list (list Z)) (tailc pb bb rest : list Z)
  (w : World) :
  0 < n < 2 ^ 31 ->
  len init = n - 1 ->
  Forall name_ok init ->
  len (chars_of init ++ tailc) < 2 ^ 31 ->
  len pb = parents_bytes n ->
  len bb = bind_poses_bytes n ->
  iarchive w = le_encode 4 n ++ le_encode 4 (len (chars_of init ++ tailc))
               ++ (chars_of init ++ tailc) ++ pb ++ bb ++ rest ->
  has_room (arena_bytes (len (chars_of init ++ tailc)) n) w ->
  let base := align_up (brk w) alignof_SoaTransform in
  let cbeg := chars_begin base n in
  Load 2 w =
  (Ok tt,
   {| skeleton := layout base n;
      heap := (base, bb ++ (ptrs cbeg init
                              ++ le_encode (Z.to_nat sizeof_ptr)
                                   (cbeg + len (chars_of init)))
                     ++ pb ++ chars_of init ++ tailc)
              :: heap (run Deallocate w);
      brk := base + arena_bytes (len (chars_of init ++ tailc)) n;
      fresh := fresh w;
      alloc_calls :=
        alloc_calls w
        ++ [CallDeallocate (begin (joint_bind_poses_ (skeleton w)));
            CallAllocate (arena_bytes (len (chars_of init ++ tailc)) n)
              alignof_SoaTransform];
      log_Err := log_Err w;
      examined := examined w ++ seqZ cbeg (len (chars_of init));
      iarchive := rest;
      oarchive := oarchive w |}).
Proof.
  intros HN Hinit Hinit_ok HC HlP HlB Hi Hroom. cbv zeta.
  set (N := n) in *.
  set (chars := chars_of init ++ tailc) in *.
  set (C := len chars) in *.
  set (T := arena_bytes C N) in *.
  pose proof SIZE_MOD_wide as HS. pose proof ptr_wide as Hpw.
  pose proof block_size_pos as Hbp.
  pose proof (len_nonneg chars) as HC0. fold C in HC0.
  pose proof (len_nonneg (chars_of init)) as HCi0.
  pose proof (len_nonneg tailc) as Ht0.
  assert (HCsplit : C = len (chars_of init) + len tailc).
  { unfold C, chars. apply len_app. }
  unfold Load.
  erewrite bind_Ok by apply Deallocate_eq.
  cbn [negb Z.eqb Pos.eqb].
  set (w1 := with_skeleton _ _).
  erewrite bind_Ok by (apply archive_read_int32_eq; [exact Hi | lia]).
  destruct (Z.eqb_spec N 0); [lia|].
  set (w2 := with_iarchive _ w1).
  erewrite bind_Ok by (apply archive_read_int32_eq; [reflexivity | lia]).
  set (w3 := with_iarchive _ w2).
  rewrite (to_size_t_small C), (to_size_t_small N) by lia.
  assert (He3 : store_empty w3) by (repeat split; reflexivity).
  assert (HT : bind_poses_bytes N + names_bytes N + parents_bytes N + C = T)
    by reflexivity.
  assert (Hb0 : 0 < bind_poses_bytes N).
  { unfold bind_poses_bytes. pose proof (block_count_pos N). nia. }
  assert (Hn0 : 0 < names_bytes N) by (unfold names_bytes; nia).
  assert (Hp0 : 0 < parents_bytes N)
    by (unfold parents_bytes, sizeof_int16; lia).
  assert (Hroom3 : has_room T w3) by exact Hroom.
  destruct Hroom as (Hbrk & HroomT).
  assert (HTfit : T < SIZE_MOD).
  { pose proof alignof_SoaTransform_pos. lia. }
  erewrite bind_Ok by (apply Allocate_eq; [lia | lia | exact HTfit | exact He3]).
  fold T.
  destruct (service_block_room T w3 ltac:(lia) Hroom3)
    as (Hsb & Hsb0 & Hsbfit & Hheap).
  rewrite (service_world_room T w3 ltac:(lia) Hroom3) in *.
  set (b := service_block T w3) in *.
  cbn [heap with_brk with_heap] in Hheap.
  set (w4 := with_skeleton _ _).
  (* the fresh block, region by region *)
  destruct (split_four (fresh_bytes w3 b T) (bind_poses_bytes N)
              (names_bytes N) (parents_bytes N) C)
    as (A & Nm & Bp & F2 & HF & HlA & HlNm & HlBp & HlF2); try lia.
  { rewrite length_fresh_bytes; lia. }
  rewrite HF in Hheap.
  assert (Hcb : chars_begin b N = b + len (A ++ Nm ++ Bp)).
  { unfold chars_begin. rewrite !len_app. lia. }
  (* the names' characters *)
  assert (Hchars : archive_read_array (chars_begin b N) C w4 =
                   (Ok tt,
                    with_heap ((b, (A ++ Nm ++ Bp) ++ chars ++ []) :: heap w3)
                      (with_iarchive (pb ++ bb ++ rest) w4))).
  { destruct (Z.eq_dec C 0) as [E0|HCne].
    - unfold archive_read_array. rewrite E0. cbn [Z.eqb]. unfold ret.
      assert (Ech : chars = []).
      { destruct chars; [reflexivity|]. unfold C in E0. rewrite len_cons in E0.
        pose proof (len_nonneg chars). lia. }
      assert (EF2 : F2 = []).
      { destruct F2; [reflexivity|]. rewrite len_cons in HlF2.
        pose proof (len_nonneg F2). lia. }
      f_equal. subst w4. rewrite Ech.
      apply World_eq; world_fields; try reflexivity.
      + rewrite HF, EF2. repeat rewrite <- app_assoc. reflexivity.
      + subst w3. world_fields. rewrite Ech. reflexivity.
    - eapply archive_read_array_eq; [reflexivity | reflexivity | fold C; lia |].
      subst w4. cbn [heap with_skeleton with_brk with_heap]. rewrite HF, Hcb.
      replace (A ++ Nm ++ Bp ++ F2) with ((A ++ Nm ++ Bp) ++ F2 ++ [])
        by (rewrite app_nil_r; repeat rewrite <- app_assoc; reflexivity).
      apply heap_write_head; [fold C; lia|].
      unfold len in *. fold C in HlF2. unfold C in *. lia. }
  erewrite bind_Ok by exact Hchars. clear Hchars.
  set (w5 := with_heap _ _).
  (* the name pointers but the last *)
  replace (Z.to_nat (N - 1)) with (length init) by (unfold len in Hinit; lia).
  assert (Hloop := Load_fixup_loop b (heap w3) A Bp tailc init []
                     Nm (chars_begin b N) w5 Hinit_ok).
  change (ptrs (chars_begin b N) []) with (@nil Z) in Hloop.
  change (chars_of []) with (@nil Z) in Hloop.
  change (len (@nil Z)) with 0 in Hloop.
  change (len (@nil (list Z))) with 0 in Hloop.
  cbn [app] in Hloop. rewrite !Z.add_0_r in Hloop.
  erewrite bind_Ok.
  2:{ apply Hloop.
      - subst w5 w4. cbn. unfold chars_begin. lia.
      - subst w5. cbn [heap with_heap].
        rewrite app_nil_r. unfold chars.
        repeat rewrite <- app_assoc. reflexivity.
      - rewrite Hinit, HlNm. unfold names_bytes. nia.
      - rewrite Hcb, !len_app. lia.
      - unfold chars_begin. lia.
      - unfold chars_begin. lia. }
  clear Hloop.
  cbn [app].
  set (w6 := with_examined _ _).
  set (cursor := chars_begin b N + len (chars_of init)).
  (* the last name pointer *)
  assert (HlNm' : length (skipn (length init * Z.to_nat sizeof_ptr) Nm)
                  = Z.to_nat sizeof_ptr).
  { rewrite length_skipn. unfold len in *. unfold names_bytes in HlNm. nia. }
  erewrite bind_Ok.
  2:{ apply joint_names_set_eq. subst w6 w5 w4.
      cbn [heap skeleton with_examined with_heap with_iarchive with_skeleton
           layout joint_names_ begin].
      replace (b + bind_poses_bytes N + (N - 1) * sizeof_ptr)
        with (b + len (A ++ ptrs (chars_begin b N) init))
        by (rewrite len_app, len_ptrs; lia).
      replace (A ++ ptrs (chars_begin b N) init
                 ++ skipn (length init * Z.to_nat sizeof_ptr) Nm ++ Bp
                 ++ chars_of init ++ tailc)
        with ((A ++ ptrs (chars_begin b N) init)
                ++ skipn (length init * Z.to_nat sizeof_ptr) Nm
                ++ (Bp ++ chars_of init ++ tailc))
        by (repeat rewrite <- app_assoc; reflexivity).
      apply heap_write_head.
      - rewrite len_encode_ptr. lia.
      - now rewrite length_le_encode. }
  set (w7 := with_heap _ w6).
  unfold bind at 1. unfold get_skeleton at 1.
  assert (Hsk7 : skeleton w7 = layout b N) by reflexivity.
  rewrite Hsk7. cbn [layout joint_parents_ begin end_ joint_bind_poses_].
  assert (HcP : Range_count sizeof_int16
                  {| begin := b + bind_poses_bytes N + names_bytes N;
                     end_ := b + bind_poses_bytes N + names_bytes N
                             + parents_bytes N |} * sizeof_int16
                = parents_bytes N).
  { unfold Range_count. cbn [begin end_].
    replace (b + bind_poses_bytes N + names_bytes N + parents_bytes N
             - (b + bind_poses_bytes N + names_bytes N))
      with (parents_bytes N) by lia.
    unfold parents_bytes. rewrite Z.div_mul by (unfold sizeof_int16; lia).
    destruct (N >? 0) eqn:E; [reflexivity | lia]. }
  rewrite HcP.
  (* the parent indices *)
  erewrite bind_Ok.
  2:{ eapply archive_read_array_eq with (bs := pb); [reflexivity | | lia |].
      - symmetry. exact HlP.
      - subst w7. cbn [heap with_heap].
        replace (b + bind_poses_bytes N + names_bytes N)
          with (b + len (A ++ ptrs (chars_begin b N) init
                           ++ le_encode (Z.to_nat sizeof_ptr) cursor))
          by (rewrite !len_app, len_ptrs, len_encode_ptr;
              unfold names_bytes; lia).
        replace ((A ++ ptrs (chars_begin b N) init)
                   ++ le_encode (Z.to_nat sizeof_ptr) cursor
                   ++ Bp ++ chars_of init ++ tailc)
          with ((A ++ ptrs (chars_begin b N) init
                   ++ le_encode (Z.to_nat sizeof_ptr) cursor)
                  ++ Bp ++ (chars_of init ++ tailc))
          by (repeat rewrite <- app_assoc; reflexivity).
        apply heap_write_head; [lia|].
        unfold len in *. lia. }
  set (w8 := with_heap _ _).
  unfold bind at 1. unfold get_skeleton at 1.
  assert (Hsk8 : skeleton w8 = layout b N) by reflexivity.
  rewrite Hsk8. cbn [layout joint_parents_ begin end_ joint_bind_poses_].
  assert (HcB : Range_count sizeof_SoaTransform
                  {| begin := b; end_ := b + bind_poses_bytes N |}
                * sizeof_SoaTransform = bind_poses_bytes N).
  { unfold Range_count. cbn [begin end_].
    replace (b + bind_poses_bytes N - b) with (bind_poses_bytes N) by lia.
    unfold bind_poses_bytes. rewrite Z.div_mul by lia.
    pose proof (block_count_pos N).
    destruct (block_count N >? 0) eqn:E; [reflexivity | lia]. }
  rewrite HcB.
  (* the bind poses *)
  erewrite archive_read_array_eq
    with (bs := bb) (rest := rest)
         (h' := (b, bb
                       ++ (ptrs (chars_begin b N) init
                             ++ le_encode (Z.to_nat sizeof_ptr) cursor)
                       ++ pb
                       ++ chars_of init ++ tailc) :: heap w3).
  2:{ reflexivity. }
  2:{ symmetry. exact HlB. }
  2:{ lia. }
  2:{ subst w8. cbn [heap with_heap].
      replace ((A ++ ptrs (chars_begin b N) init
                  ++ le_encode (Z.to_nat sizeof_ptr) cursor)
                 ++ pb
                 ++ chars_of init ++ tailc)
        with (A ++ ((ptrs (chars_begin b N) init
                       ++ le_encode (Z.to_nat sizeof_ptr) cursor)
                      ++ pb
                      ++ chars_of init ++ tailc))
        by (repeat rewrite <- app_assoc; reflexivity).
      apply heap_write_base; [lia|].
      unfold len in *. lia. }
  (* the world reached *)
  f_equal. fold N C T.
  change (brk w3) with (brk w) in Hsb. rewrite <- Hsb.
  subst cursor.
  subst w8 w7 w6 w5 w4 w3 w2 w1.
  unfold run. rewrite Deallocate_eq.
  apply World_eq; world_fields; try reflexivity.
  rewrite <- app_assoc. reflexivity.
Qed.

End Load_raw.

Section Load_fault.
Context {P : Platform} {ok : PlatformOk P}.

Variables (base : Z) (h : Heap) (A Bp tailc : list Z).


End Load_fault.

Section Load_missing.
Context {P : Platform} {ok : PlatformOk P}.


End Load_missing.



(** X10. [Load] takes the last name on trust. For a record of [n] joints
    whose characters are [n - 1] names with their terminators followed by
    bytes [tailc] without a null byte (no byte at all included), and
    whatever bytes stand for the parent indices and the bind poses, [Load]
    ends well having read the whole record. The last name pointer is where
    [tailc] starts, [tailc] ends the arena, and no byte of it was examined;
    [std::strlen] on the last name runs off the arena, and [name(n - 1)] is
    no string of the arena. *)
Theorem Load_trusts_last_name {P : Platform} {ok : PlatformOk P}
  (n : Z) (init : list (list Z)) (tailc pb bb rest : list Z) (w : World) :
  0 < n < 2 ^ 31 ->
  len init = n - 1 ->
  Forall name_ok init ->
  Forall (fun c => c <> 0) tailc ->
  len (chars_of init ++ tailc) < 2 ^ 31 ->
  len pb = parents_bytes n ->
  len bb = bind_poses_bytes n ->
  iarchive w = le_encode 4 n ++ le_encode 4 (len (chars_of init ++ tailc))
               ++ (chars_of init ++ tailc) ++ pb ++ bb ++ rest ->
  has_room (arena_bytes (len (chars_of init ++ tailc)) n) w ->
  allocated_below_brk w ->
  let w' := run (Load 2) w in
  let base := align_up (brk w) alignof_SoaTransform in
  let last := chars_begin base n + len (chars_of init) in
  outcome (Load 2) w = Ok tt /\
  iarchive w' = rest /\
  outcome (joint_names_get (n - 1)) w' = Ok last /\
  last + len tailc = base + arena_bytes (len (chars_of init ++ tailc)) n /\
  examined w' = examined w ++ seqZ (chars_begin base n) (len (chars_of init)) /\
  outcome (strlen last) w' = Fail MemFault /\
  joint_name w' (n - 1) = None.
Proof.
  intros HN Hinit Hok Htail HC HlP HlB Hi Hroom Hbelow. cbv zeta.
  pose proof (Load_raw n init tailc pb bb rest w HN Hinit Hok HC HlP HlB Hi
                Hroom) as HL.
  cbv zeta in HL. unfold run, outcome. rewrite HL. cbn [fst snd].
  pose proof ptr_wide as Hpw.
  pose proof (len_nonneg (chars_of init ++ tailc)) as HC0.
  pose proof (len_nonneg (chars_of init)) as HCi.
  pose proof (len_nonneg tailc) as Ht.
  assert (HT0 : 0 <= arena_bytes (len (chars_of init ++ tailc)) n).
  { destruct Hroom as (? & ?). pose proof block_size_pos.
    pose proof (block_count_pos n ltac:(lia)).
    unfold arena_bytes, bind_poses_bytes, names_bytes, parents_bytes,
      sizeof_int16. nia. }
  destruct (room_base _ w HT0 Hroom) as (Hb0 & Hbfit).
  pose proof (align_up_bounds (brk w) _ alignof_SoaTransform_pos) as Hup.
  set (base := align_up (brk w) alignof_SoaTransform) in *.
  set (cbeg := chars_begin base n) in *.
  set (last := cbeg + len (chars_of init)).
  set (h0 := heap (run Deallocate w)).
  assert (Hpre : len (bb ++ (ptrs cbeg init
                               ++ le_encode (Z.to_nat sizeof_ptr) last)
                         ++ pb ++ chars_of init)
                 = last - base).
  { rewrite !len_app, HlB, HlP, len_ptrs, len_encode_ptr, Hinit.
    unfold last, cbeg, chars_begin, names_bytes. lia. }
  assert (Hend : last + len tailc
                 = base + arena_bytes (len (chars_of init ++ tailc)) n).
  { rewrite len_app. unfold last, cbeg, chars_begin, arena_bytes. lia. }
  assert (Hs : heap_strlen
                 ((base, bb ++ (ptrs cbeg init
                                  ++ le_encode (Z.to_nat sizeof_ptr) last)
                            ++ pb ++ chars_of init ++ tailc) :: h0) last
               = (false, len tailc)).
  { replace (bb ++ (ptrs cbeg init ++ le_encode (Z.to_nat sizeof_ptr) last)
                ++ pb ++ chars_of init ++ tailc)
      with ((bb ++ (ptrs cbeg init ++ le_encode (Z.to_nat sizeof_ptr) last)
                ++ pb ++ chars_of init) ++ tailc)
      by (repeat rewrite <- app_assoc; reflexivity).
    replace last with (base + len (bb ++ (ptrs cbeg init
                               ++ le_encode (Z.to_nat sizeof_ptr) last)
                         ++ pb ++ chars_of init)) at 2 by (rewrite Hpre; lia).
    apply heap_strlen_off_block; [exact Htail|].
    rewrite Hpre. replace (base + (last - base)) with last by lia.
    rewrite Hend. subst h0. apply Forall_cleared_heap.
    apply below_brk_unallocated; [exact Hbelow | lia]. }
  assert (Hr : heap_read
                 ((base, bb ++ (ptrs cbeg init
                                  ++ le_encode (Z.to_nat sizeof_ptr) last)
                            ++ pb ++ chars_of init ++ tailc) :: h0)
                 (base + bind_poses_bytes n + (n - 1) * sizeof_ptr) sizeof_ptr
               = Some (le_encode (Z.to_nat sizeof_ptr) last)).
  { eapply heap_read_arena_at
      with (base := base) (pre := bb ++ ptrs cbeg init)
           (post := pb ++ chars_of init ++ tailc).
    - replace ((bb ++ ptrs cbeg init)
                 ++ le_encode (Z.to_nat sizeof_ptr) last
                 ++ pb ++ chars_of init ++ tailc)
        with (bb ++ (ptrs cbeg init ++ le_encode (Z.to_nat sizeof_ptr) last)
                ++ pb ++ chars_of init ++ tailc)
        by (repeat rewrite <- app_assoc; reflexivity).
      apply arena_at_head.
    - rewrite len_app, HlB, len_ptrs, Hinit. lia.
    - now rewrite len_encode_ptr.
    - lia. }
  assert (Hdec : le_decode (le_encode (Z.to_nat sizeof_ptr) last) = last).
  { apply decode_ptr. unfold last, cbeg, chars_begin.
    unfold arena_bytes in *. rewrite len_app in *.
    pose proof block_size_pos. pose proof (block_count_pos n ltac:(lia)).
    unfold bind_poses_bytes, names_bytes, parents_bytes, sizeof_int16 in *.
    nia. }
  split; [reflexivity|]. split; [reflexivity|].
  split.
  { unfold joint_names_get, joint_names_at.
    unfold bind at 1. unfold bind at 1. unfold get_skeleton, ret.
    cbn [skeleton layout joint_names_ begin].
    erewrite bind_Ok by (apply mem_read_eq; cbn [heap]; exact Hr).
    cbn [fst]. now rewrite Hdec. }
  split; [exact Hend|].
  split; [reflexivity|].
  split.
  { unfold strlen. cbn [heap]. rewrite Hs. reflexivity. }
  unfold joint_name. cbn [heap skeleton layout joint_names_ begin].
  rewrite Hr, Hdec. unfold c_string. rewrite Hs. reflexivity.
Qed.

(** Two joints, the second name without its terminator. *)
Lemma Load_trusts_last_name_witness :
  let n := 2 in
  let init := [name_root] in
  let tailc := [104; 105] in
  let pb := [255; 255; 0; 0] in
  let bb := repeat 7 160 in
  let rest := [42] in
  let w :=
    with_iarchive
      (le_encode 4 n ++ le_encode 4 (len (chars_of init ++ tailc))
       ++ (chars_of init ++ tailc) ++ pb ++ bb ++ rest) world1 in
  let w' := run (Load (P := LP64) 2) w in
  let base := align_up (brk w) (alignof_SoaTransform (Platform := LP64)) in
  let last := chars_begin (P := LP64) base n + len (chars_of init) in
  outcome (Load (P := LP64) 2) w = Ok tt /\
  iarchive w' = rest /\
  outcome (joint_names_get (P := LP64) (n - 1)) w' = Ok last /\
  last + len tailc
    = base + arena_bytes (P := LP64) (len (chars_of init ++ tailc)) n /\
  examined w'
    = examined w ++ seqZ (chars_begin (P := LP64) base n)
                      (len (chars_of init)) /\
  outcome (strlen last) w' = Fail MemFault /\
  joint_name (P := LP64) w' (n - 1) = None.
Proof.
  apply (Load_trusts_last_name (ok := LP64_ok) 2 [name_root] [104; 105]
           [255; 255; 0; 0] (repeat 7 160) [42]).
  - split; reflexivity.
  - reflexivity.
  - unfold name_ok, is_byte. repeat constructor; discriminate.
  - repeat constructor; discriminate.
  - reflexivity.
  - reflexivity.
  - reflexivity.
  - reflexivity.
  - split; [reflexivity | discriminate].
  - check_below.
Defined.

(** ** Sizes that wrap around, and a service out of memory *)

Section Allocate_any.
Context {P : Platform} {ok : PlatformOk P}.

(** On an empty store, when the three arrays fit [size_t], [Allocate] ends
    well with the layout of [n] joints at the block the service returned
    for the size it computed, whatever that size is. *)
Lemma Allocate_eq_any c n w :
  0 < n -> arena_bytes 0 n < SIZE_MOD -> store_empty w ->
  Allocate c n w =
  (Ok (chars_begin (service_block (buffer_size c n) w) n),
   with_skeleton (layout (service_block (buffer_size c n) w) n)
     (service_world (buffer_size c n) w)).
Proof.
  intros Hn Hfit He.
  destruct (sizes_exact 0 n Hn ltac:(lia) Hfit) as (E1 & E2 & E3 & _).
  unfold Allocate.
  unfold bind at 1. unfold get_skeleton.
  unfold bind at 1. rewrite (store_empty_assert w He).
  unfold assert_ at 1, ret at 1.
  destruct (Z.eqb_spec n 0) as [->|_]; [lia|].
  rewrite E1, E2, E3.
  set (size := buffer_size c n).
  pose proof (service_block_aligned size w) as Ha.
  set (b := service_block size w) in *.
  assert (A1 : IsAligned b alignof_SoaTransform = true).
  { apply IsAligned_divide; [apply block_align_pow2 | exact Ha]. }
  assert (A2 : IsAligned (b + bind_poses_bytes n) alignof_ptr = true).
  { apply IsAligned_divide; [apply ptr_align_pow2 |].
    apply Z.divide_add_r.
    - eapply Z.divide_trans; [apply ptr_divides_block_align | exact Ha].
    - unfold bind_poses_bytes. apply Z.divide_mul_r.
      eapply Z.divide_trans; [apply ptr_divides_block_align |].
      apply block_size_aligned. }
  assert (A3 : IsAligned (b + bind_poses_bytes n + names_bytes n) alignof_int16
               = true).
  { apply IsAligned_divide; [exists 1; split; [lia | reflexivity] |].
    eapply Z.divide_trans; [apply int16_divides_ptr_align |].
    apply Z.divide_add_r; [apply Z.divide_add_r |].
    - eapply Z.divide_trans; [apply ptr_divides_block_align | exact Ha].
    - unfold bind_poses_bytes. apply Z.divide_mul_r.
      eapply Z.divide_trans; [apply ptr_divides_block_align |].
      apply block_size_aligned.
    - unfold names_bytes. apply Z.divide_mul_r, ptr_size_aligned. }
  unfold bind at 1. rewrite allocator_Allocate_eq. fold b.
  unfold bind, modify_skeleton, assert_. rewrite A1, A2, A3.
  unfold ret. cbn. unfold layout, chars_begin. reflexivity.
Qed.

(** The size [Allocate] computes when [Load] hands it a negative
    [chars_count] no larger than the three arrays: the sum wraps around to
    less than the arrays take. *)
Lemma buffer_size_negative c n :
  0 < n -> arena_bytes 0 n < SIZE_MOD ->
  - 2 ^ 31 <= c < 0 -> 0 <= arena_bytes 0 n + c ->
  buffer_size (to_size_t c) n = arena_bytes 0 n + c.
Proof.
  intros Hn Hfit Hc Hwrap.
  destruct (sizes_exact 0 n Hn ltac:(lia) Hfit) as (E1 & E2 & E3 & _).
  destruct (to_size_t_negative c Hc) as (Ec & _).
  pose proof SIZE_MOD_wide as HS.
  unfold buffer_size. rewrite E1, E2, E3, Ec.
  unfold arena_bytes in *.
  pose proof ptr_wide. pose proof block_size_pos.
  pose proof (block_count_pos n Hn).
  assert (0 < bind_poses_bytes n) by (unfold bind_poses_bytes; nia).
  assert (0 < names_bytes n) by (unfold names_bytes; nia).
  assert (0 < parents_bytes n) by (unfold parents_bytes, sizeof_int16; lia).
  unfold to_size_t.
  rewrite (Z.add_mod_idemp_l (names_bytes n + (SIZE_MOD + c))
             (parents_bytes n)) by lia.
  rewrite Z.add_mod_idemp_l by lia.
  symmetry. apply (Z.mod_unique_pos _ _ 1); lia.
Qed.

End Allocate_any.

(** X8. [Load] does not check the sign of [chars_count]. A negative
    [chars_count] [c], when the three arrays take at least [-c] bytes, is
    converted to the [size_t] [SIZE_MAX + 1 + c]; the sum of the sizes wraps
    around, and [Allocate] asks the service for [-c] bytes less than the three
    arrays take: the views it lays out, and the cursor it returns, end [-c]
    bytes past the end of the block. *)
Theorem Load_negative_chars_count {P : Platform} {ok : PlatformOk P}
  (n c : Z) (rest : list Z) (w : World) :
  0 < n < 2 ^ 31 -> - 2 ^ 31 <= c < 0 ->
  arena_bytes 0 n < SIZE_MOD -> 0 <= arena_bytes 0 n + c ->
  iarchive w = le_encode 4 n ++ le_encode 4 c ++ rest ->
  let w0 := with_iarchive rest (run Deallocate w) in
  let size := arena_bytes 0 n + c in
  let buffer := service_block size w0 in
  let w1 := run (Allocate (to_size_t c) n) w0 in
  Load 2 w = bind (Allocate (to_size_t c) n) (Load_tail n c) w0 /\
  buffer_size (to_size_t c) n = size /\
  alloc_calls (run (Load 2) w) =
    alloc_calls w
    ++ [CallDeallocate (begin (joint_bind_poses_ (skeleton w)));
        CallAllocate size alignof_SoaTransform] /\
  outcome (Allocate (to_size_t c) n) w0
    = Ok (end_ (joint_parents_ (skeleton w1))) /\
  begin (joint_bind_poses_ (skeleton w1)) = buffer /\
  end_ (joint_parents_ (skeleton w1)) = buffer + size - c /\
  buffer + size < end_ (joint_parents_ (skeleton w1)).
Proof.
  intros Hn Hc Hfit Hwrap Hi. cbv zeta.
  pose proof SIZE_MOD_wide as HS.
  assert (HL := Load_reaches_Allocate n c rest w ltac:(lia) ltac:(lia)
                  ltac:(lia) Hi).
  rewrite (to_size_t_small n) in HL by lia.
  pose proof (buffer_size_negative c n ltac:(lia) Hfit Hc Hwrap) as Hsize.
  set (w0 := with_iarchive rest (run Deallocate w)) in *.
  assert (He : store_empty w0).
  { subst w0. unfold run. rewrite Deallocate_eq. repeat split; reflexivity. }
  pose proof (Allocate_eq_any (to_size_t c) n w0 ltac:(lia) Hfit He) as HA.
  rewrite Hsize in HA.
  split; [exact HL|]. split; [exact Hsize|].
  split.
  { unfold run. rewrite HL.
    rewrite (keeps_after alloc_calls)
      by (intros a; apply Load_tail_keeps_calls).
    pose proof (Allocate_calls (to_size_t c) n w0 He ltac:(lia)) as HC.
    unfold run in HC. rewrite HC, Hsize. subst w0. unfold run.
    rewrite Deallocate_eq. world_fields. now rewrite <- app_assoc. }
  unfold outcome, run. rewrite HA. cbn [fst snd skeleton with_skeleton
    layout joint_parents_ joint_bind_poses_ begin end_].
  unfold chars_begin, arena_bytes.
  repeat split; try reflexivity; lia.
Qed.

(** One joint and a [chars_count] of -1: 169 bytes for arrays of 170. *)
Lemma Load_negative_chars_count_witness :
  let n := 1 in
  let c := -1 in
  let rest := [1; 2; 3] in
  let w := with_iarchive (le_encode 4 n ++ le_encode 4 c ++ rest) world1 in
  let w0 := with_iarchive rest (run Deallocate w) in
  let size := arena_bytes (P := LP64) 0 n + c in
  let buffer := service_block (P := LP64) size w0 in
  let w1 := run (Allocate (P := LP64) (to_size_t c) n) w0 in
  Load (P := LP64) 2 w = bind (Allocate (to_size_t c) n) (Load_tail n c) w0 /\
  buffer_size (P := LP64) (to_size_t c) n = size /\
  alloc_calls (run (Load (P := LP64) 2) w) =
    alloc_calls w
    ++ [CallDeallocate (begin (joint_bind_poses_ (skeleton w)));
        CallAllocate size alignof_SoaTransform] /\
  outcome (Allocate (P := LP64) (to_size_t c) n) w0
    = Ok (end_ (joint_parents_ (skeleton w1))) /\
  begin (joint_bind_poses_ (skeleton w1)) = buffer /\
  end_ (joint_parents_ (skeleton w1)) = buffer + size - c /\
  buffer + size < end_ (joint_parents_ (skeleton w1)).
Proof.
  apply (Load_negative_chars_count (ok := LP64_ok) 1 (-1) [1; 2; 3]
           (with_iarchive (le_encode 4 1 ++ le_encode 4 (-1) ++ [1; 2; 3])
              world1)).
  - split; reflexivity.
  - split; [discriminate | reflexivity].
  - reflexivity.
  - discriminate.
  - reflexivity.
Defined.

(** X9. [Allocate] does not test what the service returns. When the
    service answers [NULL], [Allocate] still ends well: the views are laid
    out from address 0, the store is not empty and counts [n] joints, the
    heap has no new block, and the cursor returned is not null. [Deallocate]
    then passes [NULL] to the service. *)
Theorem Allocate_ignores_null {P : Platform} {ok : PlatformOk P}
  (c n : Z) (w : World) :
  0 < n < 2 ^ 31 -> 0 <= c -> arena_bytes c n < SIZE_MOD -> store_empty w ->
  service_block (buffer_size c n) w = NULL ->
  let w' := run (Allocate c n) w in
  outcome (Allocate c n) w = Ok (chars_begin NULL n) /\
  chars_begin NULL n <> NULL /\
  heap w' = heap w /\
  brk w' = brk w /\
  skeleton w' = layout NULL n /\
  ~ store_empty w' /\
  outcome num_joints w' = Ok n /\
  alloc_calls (run Deallocate w') =
    alloc_calls w
    ++ [CallAllocate (buffer_size c n) alignof_SoaTransform;
        CallDeallocate NULL].
Proof.
  intros Hn Hc Hfit He Hnull. cbv zeta.
  destruct (sizes_exact c n ltac:(lia) Hc Hfit) as (E1 & E2 & E3 & E4).
  rewrite E4 in *.
  unfold run, outcome. rewrite (Allocate_eq c n w ltac:(lia) Hc Hfit He).
  rewrite Hnull. cbn [fst snd].
  pose proof ptr_wide. pose proof block_size_pos.
  pose proof (block_count_pos n ltac:(lia)).
  assert (Hw : service_world (arena_bytes c n) w =
               with_alloc_calls
                 (alloc_calls w
                  ++ [CallAllocate (arena_bytes c n) alignof_SoaTransform]) w).
  { unfold service_block in Hnull. unfold service_world, allocator_Allocate.
    destruct (_ && _) eqn:E; [|reflexivity].
    apply andb_true_iff in E. destruct E as (E & _). apply Z.ltb_lt in E.
    unfold NULL in Hnull. lia. }
  rewrite Hw.
  assert (Hcount : Range_count sizeof_int16 (joint_parents_ (layout NULL n))
                   = n).
  { unfold Range_count, layout. cbn [joint_parents_ begin end_].
    replace (NULL + bind_poses_bytes n + names_bytes n + parents_bytes n
             - (NULL + bind_poses_bytes n + names_bytes n))
      with (parents_bytes n) by lia.
    unfold parents_bytes. rewrite Z.div_mul by (unfold sizeof_int16; lia).
    destruct (n >? 0) eqn:E; [reflexivity | lia]. }
  split; [reflexivity|].
  split.
  { unfold chars_begin, NULL, bind_poses_bytes, names_bytes, parents_bytes,
      sizeof_int16. nia. }
  split; [reflexivity|]. split; [reflexivity|]. split; [reflexivity|].
  split.
  { intros (Hs1 & _). cbn [skeleton with_skeleton layout joint_bind_poses_] in Hs1.
    unfold Range_size in Hs1. cbn [begin end_] in Hs1.
    unfold NULL, bind_poses_bytes in Hs1.
    destruct (_ >? 0) eqn:E; [nia|]. rewrite Z.gtb_ltb in E.
    apply Z.ltb_ge in E. nia. }
  split.
  { unfold num_joints, bind, get_skeleton, ret. cbn [fst skeleton with_skeleton].
    rewrite Hcount. unfold to_int32. rewrite Z.mod_small by lia. f_equal. lia. }
  rewrite Deallocate_eq. cbn. now rewrite <- app_assoc.
Qed.

(** The bump pointer 64 bytes below the end of the address space. *)
Lemma Allocate_ignores_null_witness :
  let c := 15 in
  let n := 5 in
  let w := with_brk (2 ^ 64 - 64) world0 in
  let w' := run (Allocate (P := LP64) c n) w in
  outcome (Allocate (P := LP64) c n) w = Ok (chars_begin NULL n) /\
  chars_begin (P := LP64) NULL n <> NULL /\
  heap w' = heap w /\
  brk w' = brk w /\
  skeleton w' = layout NULL n /\
  ~ store_empty w' /\
  outcome num_joints w' = Ok n /\
  alloc_calls (run Deallocate w') =
    alloc_calls w
    ++ [CallAllocate (buffer_size c n) alignof_SoaTransform;
        CallDeallocate NULL].
Proof.
  apply (Allocate_ignores_null (ok := LP64_ok) 15 5
           (with_brk (2 ^ 64 - 64) world0)).
  - split; reflexivity.
  - discriminate.
  - reflexivity.
  - repeat split; reflexivity.
  - reflexivity.
Defined.

(** ** Save, Load and the life of the arena *)

Section Lifetime.
Context {P : Platform} {ok : PlatformOk P}.

Lemma arena_bytes_nonneg (j : Joints) :
  well_formed j ->
  0 <= arena_bytes (len (chars_of (names j))) (joint_count j).
Proof.
  intros Hwf. rewrite <- (stored_len_image 0 j Hwf). apply len_nonneg.
Qed.

(** [Deallocate] after a load gives back the arena and nothing else. *)
Lemma Deallocate_loaded (j : Joints) (rest : list Z) (w : World) :
  well_formed j ->
  has_room (arena_bytes (len (chars_of (names j))) (joint_count j)) w ->
  allocated_below_brk w ->
  let base := align_up (brk w) alignof_SoaTransform in
  Deallocate (loaded j rest w) =
  (Ok tt,
   with_skeleton Skeleton_empty
     (with_heap (heap (run Deallocate w))
        (with_alloc_calls
           (alloc_calls (loaded j rest w) ++ [CallDeallocate base])
           (loaded j rest w)))).
Proof.
  intros Hwf Hroom Hbelow. cbv zeta.
  destruct (room_base _ w (arena_bytes_nonneg j Hwf) Hroom) as (Hb0 & _).
  pose proof (align_up_bounds (brk w) _ alignof_SoaTransform_pos) as Hup.
  rewrite Deallocate_eq. f_equal.
  cbn [skeleton loaded layout joint_bind_poses_ begin heap].
  destruct (Z.eqb_spec (align_up (brk w) alignof_SoaTransform) NULL) as [E|_];
    [unfold NULL in E; lia|].
  rewrite release_head, release_other; [reflexivity|].
  apply Forall_cleared_heap. apply below_brk_other; [exact Hbelow | lia].
Qed.

End Lifetime.

(** X2. On a store that holds the joints [j] in an arena at [base], [Save]
    ends well after [std::strlen] has examined the character region from end
    to end, every byte once and in address order, the last name and its
    terminator included (where [Load] leaves the last name alone). No
    examined address lies outside the region, which ends where the arena
    ends. *)
Theorem Save_reads_the_names {P : Platform} {ok : PlatformOk P}
  (base : Z) (j : Joints) (w : World) :
  well_formed j ->
  0 < joint_count j < 2 ^ 31 ->
  0 < base ->
  base + len (image base j) < SIZE_MOD ->
  holds base j w ->
  let cursor := chars_begin base (joint_count j) in
  let charBytes := len (chars_of (names j)) in
  outcome Save w = Ok tt /\
  examined (run Save w) = examined w ++ seqZ cursor charBytes /\
  cursor + charBytes = base + len (image base j) /\
  (forall a, In a (seqZ cursor charBytes) ->
             base < cursor <= a /\ a < base + len (image base j)).
Proof.
  intros Hwf HN Hb Hfit Hh. cbv zeta.
  pose proof (Save_stored base j Hwf ltac:(lia) Hb Hfit w Hh ltac:(lia)) as HS.
  unfold outcome, run. rewrite HS. cbn [fst snd examined with_oarchive
    with_examined].
  destruct (stored_sizes base j Hwf Hfit)
    as (H1 & H2 & H3 & H4 & H5).
  pose proof (stored_len_image base j Hwf) as Hli.
  pose proof block_size_pos. pose proof (block_count_pos (joint_count j)).
  assert (0 < bind_poses_bytes (joint_count j))
    by (unfold bind_poses_bytes; nia).
  split; [reflexivity|]. split; [reflexivity|].
  split; [rewrite Hli; unfold chars_begin, arena_bytes; lia|].
  intros a Ha. apply In_seqZ in Ha. rewrite Hli.
  unfold chars_begin, arena_bytes in *. lia.
Qed.

Lemma Save_reads_the_names_witness :
  let base := 4096 in
  let j := joints5 in
  let w := world5 in
  let cursor := chars_begin (P := LP64) base (joint_count j) in
  let charBytes := len (chars_of (names j)) in
  outcome (Save (P := LP64)) w = Ok tt /\
  examined (run (Save (P := LP64)) w) = examined w ++ seqZ cursor charBytes /\
  cursor + charBytes = base + len (image (P := LP64) base j) /\
  (forall a, In a (seqZ cursor charBytes) ->
             base < cursor <= a /\ a < base + len (image (P := LP64) base j)).
Proof.
  apply (Save_reads_the_names (ok := LP64_ok) 4096 joints5 world5).
  - check_joints.
  - split; reflexivity.
  - reflexivity.
  - reflexivity.
  - split; [reflexivity|].
    exists [], []. split; [vm_compute; reflexivity | constructor].
Defined.

(** X3. Saving what was just loaded writes the record that was read, byte
    for byte: after [Load] of the record of [j], [Save] ends well, appends
    exactly that record to the output archive, and leaves the store and the
    heap as [Load] left them. *)
Theorem Save_after_Load {P : Platform} {ok : PlatformOk P}
  (j : Joints) (rest : list Z) (w : World) :
  well_formed j ->
  0 < joint_count j < 2 ^ 31 ->
  len (chars_of (names j)) < 2 ^ 31 ->
  iarchive w = record_of j ++ rest ->
  has_room (arena_bytes (len (chars_of (names j))) (joint_count j)) w ->
  let w1 := run (Load 2) w in
  let w2 := run Save w1 in
  outcome (Load 2) w = Ok tt /\
  outcome Save w1 = Ok tt /\
  oarchive w2 = oarchive w ++ record_of j /\
  skeleton w2 = skeleton w1 /\
  heap w2 = heap w1 /\
  iarchive w2 = rest.
Proof.
  intros Hwf HN HC Hi Hroom. cbv zeta.
  unfold run, outcome.
  rewrite (Load_record j rest w Hwf HN HC Hi Hroom). cbn [fst snd].
  destruct (room_base _ w (arena_bytes_nonneg j Hwf) Hroom) as (Hb0 & Hbfit).
  set (b := align_up (brk w) alignof_SoaTransform) in *.
  assert (Hfit : b + len (image b j) < SIZE_MOD)
    by (rewrite (stored_len_image b j Hwf); exact Hbfit).
  pose proof (loaded_holds j rest w) as Hh. fold b in Hh.
  pose proof (Save_stored b j Hwf ltac:(lia) Hb0 Hfit _ Hh ltac:(lia)) as HS.
  rewrite HS. cbn [fst snd].
  split; [reflexivity|]. split; [reflexivity|].
  split.
  { cbn [oarchive with_oarchive with_examined loaded]. f_equal.
    unfold record_of. destruct (Z.eqb_spec (joint_count j) 0); [lia|].
    pose proof (len_nonneg (chars_of (names j))).
    replace (to_int32 (len (chars_of (names j))))
      with (len (chars_of (names j)))
      by (unfold to_int32; rewrite Z.mod_small; lia).
    reflexivity. }
  repeat split; reflexivity.
Qed.

Lemma Save_after_Load_witness :
  let j := joints5 in
  let rest := [42] in
  let w := with_iarchive (record_of j ++ rest) world1 in
  let w1 := run (Load (P := LP64) 2) w in
  let w2 := run (Save (P := LP64)) w1 in
  outcome (Load (P := LP64) 2) w = Ok tt /\
  outcome (Save (P := LP64)) w1 = Ok tt /\
  oarchive w2 = oarchive w ++ record_of j /\
  skeleton w2 = skeleton w1 /\
  heap w2 = heap w1 /\
  iarchive w2 = rest.
Proof.
  apply (Save_after_Load (ok := LP64_ok) joints5 [42]
           (with_iarchive (record_of joints5 ++ [42]) world1)).
  - check_joints.
  - split; reflexivity.
  - reflexivity.
  - reflexivity.
  - split; [reflexivity | discriminate].
Defined.

(** X11. [Load] does not validate parent indices. Whatever [int16_t]
    values the record gives (a joint its own parent, a parent that is no
    joint, a negative index other than -1), [Load] ends well, the accessors
    show the joints of the record, and [parentIndex(i)] is the value the
    record gave, for every joint [i]. *)
Theorem Load_trusts_parents {P : Platform} {ok : PlatformOk P}
  (j : Joints) (rest : list Z) (w : World) :
  well_formed j ->
  0 < joint_count j < 2 ^ 31 ->
  len (chars_of (names j)) < 2 ^ 31 ->
  iarchive w = record_of j ++ rest ->
  has_room (arena_bytes (len (chars_of (names j))) (joint_count j)) w ->
  let w' := run (Load 2) w in
  outcome (Load 2) w = Ok tt /\
  snapshot w' = Some j /\
  (forall before p after,
      parents j = before ++ p :: after ->
      joint_parent w' (len before) = Some p).
Proof.
  intros Hwf HN HC Hi Hroom. cbv zeta.
  unfold run, outcome.
  rewrite (Load_record j rest w Hwf HN HC Hi Hroom). cbn [fst snd].
  destruct (room_base _ w (arena_bytes_nonneg j Hwf) Hroom) as (Hb0 & Hbfit).
  set (b := align_up (brk w) alignof_SoaTransform) in *.
  assert (Hfit : b + len (image b j) < SIZE_MOD)
    by (rewrite (stored_len_image b j Hwf); exact Hbfit).
  pose proof (loaded_holds j rest w) as Hh. fold b in Hh.
  split; [reflexivity|].
  split; [apply (snapshot_stored b j Hwf ltac:(lia) Hb0 Hfit _ Hh)|].
  intros before p after Hp.
  pose proof (stored_tab_parents b j Hwf _ Hh (p :: after) before Hp) as Ht.
  cbn [length tabulate] in Ht.
  destruct (joint_parent _ (len before)) as [q|]; [|discriminate].
  destruct (tabulate _ _ _); [|discriminate].
  now inversion Ht.
Qed.

Lemma Load_trusts_parents_witness :
  let j := {| names := names joints5; parents := [7; 0; 2; -5; 4];
              bind_poses := bind_poses joints5 |} in
  let rest := [42] in
  let w := with_iarchive (record_of j ++ rest) world1 in
  let w' := run (Load (P := LP64) 2) w in
  outcome (Load (P := LP64) 2) w = Ok tt /\
  snapshot (P := LP64) w' = Some j /\
  (forall before p after,
      parents j = before ++ p :: after ->
      joint_parent w' (len before) = Some p).
Proof.
  apply (Load_trusts_parents (ok := LP64_ok)
           {| names := names joints5; parents := [7; 0; 2; -5; 4];
              bind_poses := bind_poses joints5 |} [42]).
  - check_joints.
  - split; reflexivity.
  - reflexivity.
  - reflexivity.
  - split; [reflexivity | discriminate].
Defined.

(** X6. [Deallocate] after [Allocate]. The pointer [Deallocate] passes to
    the service is [joint_bind_poses_.begin], and [Allocate] laid the bind
    poses first, at the address the service returned: the release is of that
    very block ([NULL] if the service answered [NULL]), the three views are
    empty again and the heap is as it was before [Allocate]. *)
Theorem Deallocate_after_Allocate {P : Platform} {ok : PlatformOk P}
  (c n : Z) (w : World) :
  0 < n -> 0 <= c -> arena_bytes c n < SIZE_MOD ->
  store_empty w -> allocated_below_brk w ->
  let buffer := service_block (buffer_size c n) w in
  let w1 := run (Allocate c n) w in
  let w2 := run Deallocate w1 in
  begin (joint_bind_poses_ (skeleton w1)) = buffer /\
  alloc_calls w2 =
    alloc_calls w
    ++ [CallAllocate (buffer_size c n) alignof_SoaTransform;
        CallDeallocate buffer] /\
  skeleton w2 = Skeleton_empty /\
  heap w2 = heap w.
Proof.
  intros Hn Hc Hfit He Hbelow. cbv zeta.
  destruct (sizes_exact c n Hn Hc Hfit) as (_ & _ & _ & E4). rewrite E4.
  unfold run. rewrite (Allocate_eq c n w Hn Hc Hfit He). cbn [snd].
  rewrite Deallocate_eq. cbn [snd].
  cbn [skeleton with_skeleton layout joint_bind_poses_ begin].
  world_fields.
  set (b := service_block (arena_bytes c n) w).
  assert (Hcalls : alloc_calls (service_world (arena_bytes c n) w) =
                   alloc_calls w
                   ++ [CallAllocate (arena_bytes c n) alignof_SoaTransform]).
  { unfold service_world, allocator_Allocate. destruct (_ && _); reflexivity. }
  split; [reflexivity|].
  split; [rewrite Hcalls, <- app_assoc; reflexivity|].
  split; [reflexivity|].
  pose proof (align_up_bounds (brk w) _ alignof_SoaTransform_pos) as Hup.
  subst b. unfold service_block, service_world, allocator_Allocate.
  destruct (_ && _) eqn:E; cbn [snd heap with_brk with_heap with_alloc_calls].
  - apply andb_true_iff in E. destruct E as (E & _). apply Z.ltb_lt in E.
    destruct (Z.eqb_spec (align_up (brk w) alignof_SoaTransform) NULL) as [E'|_];
      [unfold NULL in E'; lia|].
    rewrite release_head. apply release_other.
    apply below_brk_other; [exact Hbelow | lia].
  - reflexivity.
Qed.

Lemma Deallocate_after_Allocate_witness :
  let c := 15 in
  let n := 5 in
  let w := with_skeleton Skeleton_empty world1 in
  let buffer := service_block (P := LP64) (buffer_size c n) w in
  let w1 := run (Allocate (P := LP64) c n) w in
  let w2 := run Deallocate w1 in
  begin (joint_bind_poses_ (skeleton w1)) = buffer /\
  alloc_calls w2 =
    alloc_calls w
    ++ [CallAllocate (buffer_size c n) alignof_SoaTransform;
        CallDeallocate buffer] /\
  skeleton w2 = Skeleton_empty /\
  heap w2 = heap w.
Proof.
  apply (Deallocate_after_Allocate (ok := LP64_ok) 15 5
           (with_skeleton Skeleton_empty world1)).
  - reflexivity.
  - discriminate.
  - reflexivity.
  - repeat split; reflexivity.
  - check_below.
Defined.

(** On a store with a view that is not empty, [Allocate] stops on its first
    assertion, before the test of the joint count and before any request. *)
Lemma Allocate_not_empty {P : Platform} (c n : Z) (w : World) :
  ~ store_empty w ->
  Allocate c n w = (Fail (AssertFailed assert_store_empty), w).
Proof.
  intros Hne. unfold Allocate.
  unfold bind at 1. unfold get_skeleton.
  unfold bind at 1.
  assert (E : (Range_size (joint_bind_poses_ (skeleton w)) =? 0) &&
              (Range_size (joint_names_ (skeleton w)) =? 0) &&
              (Range_size (joint_parents_ (skeleton w)) =? 0) = false).
  { destruct (Z.eqb_spec (Range_size (joint_bind_poses_ (skeleton w))) 0);
      [|reflexivity].
    destruct (Z.eqb_spec (Range_size (joint_names_ (skeleton w))) 0);
      [|reflexivity].
    destruct (Z.eqb_spec (Range_size (joint_parents_ (skeleton w))) 0);
      [|reflexivity].
    exfalso. apply Hne. repeat split; assumption. }
  rewrite E. reflexivity.
Qed.

(** X13. [Allocate] on a store that [Allocate] has populated. The store is
    not empty, so a second [Allocate] stops on its first assertion whatever
    it is asked for, a joint count of 0 included (the assertion comes before
    the test of the count), and changes nothing: the service has received
    the request of the first call and no other. *)
Theorem Allocate_twice {P : Platform} {ok : PlatformOk P}
  (c n c' n' : Z) (w : World) :
  0 < n -> 0 <= c -> arena_bytes c n < SIZE_MOD -> store_empty w ->
  let w1 := run (Allocate c n) w in
  ~ store_empty w1 /\
  Allocate c' n' w1 = (Fail (AssertFailed assert_store_empty), w1) /\
  alloc_calls (run (Allocate c' n') w1) =
    alloc_calls w ++ [CallAllocate (buffer_size c n) alignof_SoaTransform].
Proof.
  intros Hn Hc Hfit He. cbv zeta.
  assert (Hne : ~ store_empty (run (Allocate c n) w)).
  { unfold run. rewrite (Allocate_eq c n w Hn Hc Hfit He). cbn [snd].
    intros (H1 & _).
    cbn [skeleton with_skeleton layout joint_bind_poses_] in H1.
    unfold Range_size in H1. cbn [begin end_] in H1.
    pose proof block_size_pos. pose proof (block_count_pos n Hn).
    unfold bind_poses_bytes in H1.
    destruct (_ >? 0) eqn:E; [nia|]. rewrite Z.gtb_ltb in E.
    apply Z.ltb_ge in E. nia. }
  split; [exact Hne|].
  split; [apply Allocate_not_empty; exact Hne|].
  unfold run at 1. rewrite (Allocate_not_empty c' n' _ Hne). cbn [snd].
  apply Allocate_calls; [exact He | lia].
Qed.

Lemma Allocate_twice_witness :
  let w1 := run (Allocate (P := LP64) 15 5) world0 in
  ~ store_empty w1 /\
  Allocate (P := LP64) 7 0 w1 = (Fail (AssertFailed assert_store_empty), w1) /\
  alloc_calls (run (Allocate (P := LP64) 7 0) w1) =
    alloc_calls world0
    ++ [CallAllocate (buffer_size 15 5) alignof_SoaTransform].
Proof.
  apply (Allocate_twice (ok := LP64_ok) 15 5 7 0 world0).
  - reflexivity.
  - discriminate.
  - reflexivity.
  - repeat split; reflexivity.
Defined.

(** X5. A life of a skeleton: constructed, loaded with the record of [j],
    destroyed. The constructor makes the store empty without a call to the
    service, so the release [Load] starts with is of [NULL]; the destructor
    releases the address the service returned for the arena; the heap is
    then as it was before the construction: every byte asked for is given
    back, and no other block is touched. *)
Theorem Skeleton_lifetime {P : Platform} {ok : PlatformOk P}
  (j : Joints) (rest : list Z) (w : World) :
  well_formed j ->
  0 < joint_count j < 2 ^ 31 ->
  len (chars_of (names j)) < 2 ^ 31 ->
  iarchive w = record_of j ++ rest ->
  has_room (arena_bytes (len (chars_of (names j))) (joint_count j)) w ->
  allocated_below_brk w ->
  let life := Skeleton_ctor ;; Load 2 ;; Skeleton_dtor in
  let base := align_up (brk w) alignof_SoaTransform in
  let size := arena_bytes (len (chars_of (names j))) (joint_count j) in
  outcome life w = Ok tt /\
  alloc_calls (run life w) =
    alloc_calls w
    ++ [CallDeallocate NULL; CallAllocate size alignof_SoaTransform;
        CallDeallocate base] /\
  heap (run life w) = heap w /\
  skeleton (run life w) = Skeleton_empty /\
  iarchive (run life w) = rest.
Proof.
  intros Hwf HN HC Hi Hroom Hbelow. cbv zeta.
  set (w0 := with_skeleton Skeleton_empty w).
  assert (E : (Skeleton_ctor ;; Load 2 ;; Skeleton_dtor) w =
              Deallocate (loaded j rest w0)).
  { unfold Skeleton_ctor, Skeleton_dtor.
    unfold bind at 1. unfold modify_skeleton at 1. fold w0.
    erewrite bind_Ok by (apply (Load_record j rest w0 Hwf HN HC Hi Hroom)).
    reflexivity. }
  unfold outcome, run. rewrite E.
  rewrite (Deallocate_loaded j rest w0 Hwf Hroom Hbelow). cbn [fst snd].
  world_fields. unfold run. rewrite Deallocate_eq. cbn.
  repeat split; try reflexivity.
  now rewrite <- app_assoc.
Qed.

Lemma Skeleton_lifetime_witness :
  let j := joints5 in
  let rest := [42] in
  let w := with_iarchive (record_of j ++ rest) world1 in
  let life := Skeleton_ctor ;; Load (P := LP64) 2 ;; Skeleton_dtor in
  let base := align_up (brk w) alignof_SoaTransform in
  let size :=
    arena_bytes (P := LP64) (len (chars_of (names j))) (joint_count j) in
  outcome life w = Ok tt /\
  alloc_calls (run life w) =
    alloc_calls w
    ++ [CallDeallocate NULL; CallAllocate size alignof_SoaTransform;
        CallDeallocate base] /\
  heap (run life w) = heap w /\
  skeleton (run life w) = Skeleton_empty /\
  iarchive (run life w) = rest.
Proof.
  apply (Skeleton_lifetime (ok := LP64_ok) joints5 [42]
           (with_iarchive (record_of joints5 ++ [42]) world1)).
  - check_joints.
  - split; reflexivity.
  - reflexivity.
  - reflexivity.
  - split; [reflexivity | discriminate].
  - check_below.
Defined.

(** X4. Reload. Two records in a row loaded into the same store: the
    second [Load] releases the arena of the first before it asks for its
    own; the store then shows the joints of the second record; beside the
    blocks that were there before, the heap holds one arena only, that of
    the second record; and the service received, in this order, the release
    of what the store held at first, the request of the first arena, the
    release of that arena and the request of the second. *)
Theorem Load_twice {P : Platform} {ok : PlatformOk P}
  (j1 j2 : Joints) (rest : list Z) (w : World) :
  well_formed j1 -> well_formed j2 ->
  0 < joint_count j1 < 2 ^ 31 -> 0 < joint_count j2 < 2 ^ 31 ->
  len (chars_of (names j1)) < 2 ^ 31 -> len (chars_of (names j2)) < 2 ^ 31 ->
  iarchive w = record_of j1 ++ record_of j2 ++ rest ->
  let size1 := arena_bytes (len (chars_of (names j1))) (joint_count j1) in
  let size2 := arena_bytes (len (chars_of (names j2))) (joint_count j2) in
  has_room (size1 + alignof_SoaTransform + size2) w ->
  allocated_below_brk w ->
  let w1 := run (Load 2) w in
  let w2 := run (Load 2) w1 in
  let base1 := align_up (brk w) alignof_SoaTransform in
  let base2 := align_up (base1 + size1) alignof_SoaTransform in
  outcome (Load 2) w = Ok tt /\
  outcome (Load 2) w1 = Ok tt /\
  snapshot w1 = Some j1 /\
  snapshot w2 = Some j2 /\
  alloc_calls w2 =
    alloc_calls w
    ++ [CallDeallocate (begin (joint_bind_poses_ (skeleton w)));
        CallAllocate size1 alignof_SoaTransform;
        CallDeallocate base1;
        CallAllocate size2 alignof_SoaTransform] /\
  heap w2 = (base2, image base2 j2) :: heap (run Deallocate w) /\
  iarchive w2 = rest.
Proof.
  intros Hwf1 Hwf2 HN1 HN2 HC1 HC2 Hi. cbv zeta. intros Hroom Hbelow.
  pose proof (arena_bytes_nonneg j1 Hwf1) as HT1.
  pose proof (arena_bytes_nonneg j2 Hwf2) as HT2.
  set (size1 := arena_bytes _ (joint_count j1)) in *.
  set (size2 := arena_bytes _ (joint_count j2)) in *.
  pose proof alignof_SoaTransform_pos as Ha.
  pose proof (align_up_bounds (brk w) _ Ha) as Hup.
  assert (Hroom1 : has_room size1 w).
  { destruct Hroom as (H1 & H2). split; [exact H1 | lia]. }
  pose proof (Load_record j1 (record_of j2 ++ rest) w Hwf1 HN1 HC1 Hi Hroom1)
    as HL1.
  unfold run, outcome. rewrite HL1. cbn [fst snd].
  set (w1 := loaded j1 (record_of j2 ++ rest) w).
  destruct (room_base _ w HT1 Hroom1) as (Hb1 & Hbfit1).
  set (base1 := align_up (brk w) alignof_SoaTransform) in *.
  assert (Hroom2 : has_room size2 w1).
  { destruct Hroom as (H1 & H2). subst w1. unfold has_room, size2.
    cbn [brk loaded]. fold size1 base1. split; lia. }
  pose proof (Load_record j2 rest w1 Hwf2 HN2 HC2 eq_refl Hroom2) as HL2.
  rewrite HL2. cbn [fst snd].
  assert (Hfit1 : base1 + len (image base1 j1) < SIZE_MOD)
    by (rewrite (stored_len_image base1 j1 Hwf1); exact Hbfit1).
  pose proof (loaded_holds j1 (record_of j2 ++ rest) w) as Hh1.
  fold base1 w1 in Hh1.
  destruct (room_base _ w1 HT2 Hroom2) as (Hb2 & Hbfit2).
  change (brk w1) with (base1 + size1) in *.
  set (base2 := align_up (base1 + size1) alignof_SoaTransform) in *.
  assert (Hfit2 : base2 + len (image base2 j2) < SIZE_MOD)
    by (rewrite (stored_len_image base2 j2 Hwf2); exact Hbfit2).
  pose proof (loaded_holds j2 rest w1) as Hh2.
  change (brk w1) with (base1 + size1) in Hh2. fold base2 in Hh2.
  split; [reflexivity|]. split; [reflexivity|].
  split; [apply (snapshot_stored base1 j1 Hwf1 ltac:(lia) Hb1 Hfit1 _ Hh1)|].
  split; [apply (snapshot_stored base2 j2 Hwf2 ltac:(lia) Hb2 Hfit2 _ Hh2)|].
  split.
  { cbn [alloc_calls loaded]. subst w1.
    cbn [alloc_calls loaded skeleton layout joint_bind_poses_ begin].
    rewrite <- app_assoc. reflexivity. }
  split; [|reflexivity].
  cbn [heap loaded]. fold base2. f_equal.
  unfold run at 1. subst w1.
  rewrite (Deallocate_loaded j1 _ w Hwf1 Hroom1 Hbelow).
  reflexivity.
Qed.

Lemma Load_twice_witness :
  let j1 := joints1 in
  let j2 := joints5 in
  let rest := [42] in
  let w := with_iarchive (record_of j1 ++ record_of j2 ++ rest) world1 in
  let size1 :=
    arena_bytes (P := LP64) (len (chars_of (names j1))) (joint_count j1) in
  let size2 :=
    arena_bytes (P := LP64) (len (chars_of (names j2))) (joint_count j2) in
  let w1 := run (Load (P := LP64) 2) w in
  let w2 := run (Load (P := LP64) 2) w1 in
  let base1 := align_up (brk w) alignof_SoaTransform in
  let base2 := align_up (base1 + size1) alignof_SoaTransform in
  outcome (Load (P := LP64) 2) w = Ok tt /\
  outcome (Load (P := LP64) 2) w1 = Ok tt /\
  snapshot (P := LP64) w1 = Some j1 /\
  snapshot (P := LP64) w2 = Some j2 /\
  alloc_calls w2 =
    alloc_calls w
    ++ [CallDeallocate (begin (joint_bind_poses_ (skeleton w)));
        CallAllocate size1 alignof_SoaTransform;
        CallDeallocate base1;
        CallAllocate size2 alignof_SoaTransform] /\
  heap w2 = (base2, image (P := LP64) base2 j2) :: heap (run Deallocate w) /\
  iarchive w2 = rest.
Proof.
  apply (Load_twice (ok := LP64_ok) joints1 joints5 [42]
           (with_iarchive (record_of joints1 ++ record_of joints5 ++ [42])
              world1)).
  - check_joints.
  - check_joints.
  - split; reflexivity.
  - split; reflexivity.
  - reflexivity.
  - reflexivity.
  - reflexivity.
  - split; [reflexivity | discriminate].
  - check_below.
Defined.
